(** * Volcanic detrending and variability metrics of [generate_ec_data.ipynb]

    A shallow embedding of the notebook's functions ([get_forcing],
    [remove_volcano], [weighted_mean], [compute_cox], [compute_nijsse]) and of
    its per-model driver loop, followed by the properties stated about them.

    Numbers.  The notebook computes on NumPy [float64] values.  They are
    embedded as the extended reals below: a real number, one of the two
    infinities, or not-a-number.  Arithmetic is exact (rounding, overflow and
    the sign of zero are left out); the special values follow IEEE 754 as
    NumPy applies it (warnings, never exceptions).

    Libraries.  The calls into NumPy, SciPy, statsmodels, pandas and xarray
    are embedded by what they compute, in closed form: the least-squares fit
    by the pseudo-inverse of its design matrix, a labelled array by its value
    at every index.  Exceptions are values of [result]. *)

From Stdlib Require Import Reals Lra Lia List Bool String Arith ZArith Permutation.
Import ListNotations.

Open Scope R_scope.

(** ** Floating-point values *)

Module Float.

Inductive float : Type :=
| NaN
| PInf
| NInf
| Fin (r : R).

Definition isnan (x : float) : bool :=
  match x with NaN => true | _ => false end.

Definition isfinite (x : float) : bool :=
  match x with Fin _ => true | _ => false end.

(** Sign of a real, as the three-way test the special cases need. *)
Definition Rsign (r : R) : comparison :=
  match total_order_T r 0 with
  | inleft (left _) => Lt
  | inleft (right _) => Eq
  | inright _ => Gt
  end.

Definition inf (positive : bool) : float :=
  if positive then PInf else NInf.

(** An infinity of sign [positive] multiplied by the finite [r]. *)
Definition inf_times (positive : bool) (r : R) : float :=
  match Rsign r with
  | Gt => inf positive
  | Lt => inf (negb positive)
  | Eq => NaN
  end.

Definition fneg (x : float) : float :=
  match x with
  | NaN => NaN
  | PInf => NInf
  | NInf => PInf
  | Fin r => Fin (- r)
  end.

Definition fadd (x y : float) : float :=
  match x, y with
  | NaN, _ | _, NaN => NaN
  | PInf, NInf | NInf, PInf => NaN
  | PInf, _ | _, PInf => PInf
  | NInf, _ | _, NInf => NInf
  | Fin a, Fin b => Fin (a + b)
  end.

Definition fsub (x y : float) : float := fadd x (fneg y).

Definition fmul (x y : float) : float :=
  match x, y with
  | NaN, _ | _, NaN => NaN
  | Fin a, Fin b => Fin (a * b)
  | PInf, Fin r | Fin r, PInf => inf_times true r
  | NInf, Fin r | Fin r, NInf => inf_times false r
  | PInf, PInf | NInf, NInf => PInf
  | PInf, NInf | NInf, PInf => NInf
  end.

Definition fdiv (x y : float) : float :=
  match x, y with
  | NaN, _ | _, NaN => NaN
  | Fin a, Fin b =>
      match Rsign b with
      | Eq => inf_times true a          (* a/0: inf, -inf, or nan for 0/0 *)
      | _ => Fin (a / b)
      end
  | Fin _, (PInf | NInf) => Fin 0
  | PInf, Fin b => match Rsign b with Lt => NInf | _ => PInf end
  | NInf, Fin b => match Rsign b with Lt => PInf | _ => NInf end
  | (PInf | NInf), (PInf | NInf) => NaN
  end.

Definition fexp (x : float) : float :=
  match x with
  | NaN => NaN
  | PInf => PInf
  | NInf => Fin 0
  | Fin r => Fin (exp r)
  end.

Definition flog (x : float) : float :=
  match x with
  | NaN | NInf => NaN
  | PInf => PInf
  | Fin r =>
      match Rsign r with
      | Gt => Fin (ln r)
      | Eq => NInf
      | Lt => NaN
      end
  end.

Definition fabs (x : float) : float :=
  match x with
  | NaN => NaN
  | PInf | NInf => PInf
  | Fin r => Fin (Rabs r)
  end.

Definition fsqrt (x : float) : float :=
  match x with
  | NaN | NInf => NaN
  | PInf => PInf
  | Fin r => match Rsign r with Lt => NaN | _ => Fin (sqrt r) end
  end.

Definition fcos (x : float) : float :=
  match x with
  | Fin r => Fin (cos r)
  | _ => NaN
  end.

(** [x < y] on floats: false as soon as one side is not-a-number. *)
Definition flt (x y : float) : Prop :=
  match x, y with
  | Fin a, Fin b => a < b
  | NInf, (Fin _ | PInf) | Fin _, PInf => True
  | _, _ => False
  end.

(** [x <= y] on floats, false as well as soon as one side is not-a-number. *)
Definition fle (x y : float) : Prop :=
  match x, y with
  | Fin a, Fin b => a <= b
  | NInf, (NInf | Fin _ | PInf) | Fin _, PInf | PInf, PInf => True
  | _, _ => False
  end.

(** [x == y] as NumPy decides it: not-a-number equals nothing. *)
Definition feqb (x y : float) : bool :=
  match x, y with
  | Fin a, Fin b => if Req_dec_T a b then true else false
  | PInf, PInf | NInf, NInf => true
  | _, _ => false
  end.

Definition fsum (xs : list float) : float := fold_left fadd xs (Fin 0).

Definition of_nat (n : nat) : float := Fin (INR n).

End Float.
Import Float.

(** ** AOD to radiative forcing *)

(** [get_forcing] on one value:
    [np.multiply(-20.7, np.subtract(1, np.exp(np.multiply(-1, saod))))].
    The value is the exact one.  On [float64] the result is rounded: it is
    -20.7 itself from an optical depth of about 37.5 on, it is the same for
    two optical depths close enough to each other, and it overflows to [+inf]
    below about -710.  The order properties stated of it are therefore the
    ones rounding keeps, with [fle] for the order. *)
Definition get_forcing_at (saod : float) : float :=
  fmul (Fin (-20.7)) (fsub (Fin 1) (fexp (fmul (Fin (-1)) saod))).

(** The NumPy functions are applied element by element to the series. *)
Definition get_forcing (saod : list float) : list float :=
  map get_forcing_at saod.

(** ** NumPy reductions and slices *)

(** [x[~np.isnan(x)]] *)
Definition strip_nan (x : list float) : list float :=
  filter (fun v => negb (isnan v)) x.

(** [x[start:stop]] for non-negative bounds (a slice is cut at the end of the
    list, it never raises). *)
Definition slice {A} (x : list A) (start stop : nat) : list A :=
  firstn (stop - start) (skipn start x).

(** [np.arange(0, stop)] for a Python integer [stop], empty when [stop <= 0]. *)
Definition arange (stop : Z) : list nat := seq 0 (Z.to_nat stop).

(** [np.mean]: the mean of an empty array is nan (0/0, with a warning). *)
Definition np_mean (xs : list float) : float :=
  fdiv (fsum xs) (of_nat (List.length xs)).

(** [np.std]: [sqrt(mean(abs(x - x.mean())**2))]. *)
Definition np_std (xs : list float) : float :=
  let m := np_mean xs in
  fsqrt (np_mean (map (fun v => let d := fabs (fsub v m) in fmul d d) xs)).

(** [np.nanmean] and [np.nanstd] drop the nan entries first; on an empty or
    all-nan input they warn and return nan. *)
Definition np_nanmean (xs : list float) : float := np_mean (strip_nan xs).
Definition np_nanstd (xs : list float) : float := np_std (strip_nan xs).

(** ** Least-squares line (SciPy and statsmodels routines, in closed form) *)

(** Pairwise products of deviations, [sum((x - mean(x)) * (y - mean(y)))]. *)
Definition sum_dev (xs ys : list float) : float :=
  let mx := np_mean xs in
  let my := np_mean ys in
  fsum (map (fun p => fmul (fsub (fst p) mx) (fsub (snd p) my)) (combine xs ys)).

(** Slope and intercept of the least-squares line of [ys] against [xs]. *)
Definition ls_slope (xs ys : list float) : float :=
  fdiv (sum_dev xs ys) (sum_dev xs xs).

Definition ls_intercept (xs ys : list float) : float :=
  fsub (np_mean ys) (fmul (ls_slope xs ys) (np_mean xs)).

(** [scipy.stats.linregress(x, y).slope] *)
Definition linregress_slope (xs ys : list float) : float := ls_slope xs ys.

(** Positions [0, 1, ..., n-1] as floats, [np.arange(0, n)] used as data. *)
Definition positions (n : nat) : list float := map of_nat (seq 0 n).

(** [scipy.signal.detrend(y)]: [y] minus its least-squares line over the
    positions of its points. *)
Definition signal_detrend (y : list float) : list float :=
  let t := positions (List.length y) in
  let b := ls_slope t y in
  let a := ls_intercept t y in
  map (fun p => fsub (snd p) (fadd a (fmul b (fst p)))) (combine t y).

(** [tsa.acf(y, nlags=1)[1]]: lag-1 autocovariance over lag-0 autocovariance,
    both of the demeaned series and both divided by its length. *)
Definition tsa_acf1 (y : list float) : float :=
  let m := np_mean y in
  let d := map (fun v => fsub v m) y in
  let n := of_nat (List.length y) in
  let acov0 := fdiv (fsum (map (fun v => fmul v v) d)) n in
  let acov1 := fdiv (fsum (map (fun p => fmul (fst p) (snd p)) (combine d (tl d)))) n in
  fdiv acov1 acov0.

(** ** Variability metrics *)

(** Start indices visited by [for i in np.arange(0, len(x)-55)]. *)
Definition cox_starts (x : list float) : list nat :=
  arange (Z.of_nat (List.length x) - 55).

(** Body of the loop of [compute_cox] on the window [x[i:i+55]]. *)
Definition cox_psi (window : list float) : float :=
  let y := signal_detrend window in
  let auto_m1b := tsa_acf1 y in
  let sigma_m1 := np_std y in
  let log_m1 := flog auto_m1b in
  let log_m1b := fabs log_m1 in
  let sqrt_m1 := fsqrt log_m1b in
  fdiv sigma_m1 sqrt_m1.

Definition cox_psi_vals (x : list float) : list float :=
  map (fun i => cox_psi (slice x i (i + 55))) (cox_starts x).

Definition compute_cox (x : list float) : float :=
  let x := strip_nan x in
  np_nanmean (cox_psi_vals x).

(** The [while] loop of [compute_nijsse].  [fuel] bounds the number of tests
    of the loop condition; [None] means the bound was reached.  With
    [length >= 1] the index grows at each pass and [len(x) + 1] tests are
    enough; with [length = 0] and a non-empty series the loop makes no
    progress (its first pass hands an empty block to [linregress]), and the
    call yields no value. *)
Fixpoint nijsse_loop (fuel : nat) (x : list float) (length i : nat)
    (slopes : list float) : option (list float) :=
  match fuel with
  | O => None
  | S fuel' =>
      if (Z.of_nat i <? Z.of_nat (List.length x) - Z.of_nat length)%Z then
        let slope := linregress_slope (positions length) (slice x i (i + length)) in
        nijsse_loop fuel' x length (i + length)
                    (slopes ++ [fmul (of_nat length) slope])
      else Some slopes
  end.

Definition nijsse_slopes (x : list float) (length : nat)
  : option (list float) :=
  let x := strip_nan x in
  nijsse_loop (S (List.length x)) x length 0 [].

Definition compute_nijsse (x : list float) (length : nat) : option float :=
  option_map np_nanstd (nijsse_slopes x length).

(** The block change recorded for the block that starts at [i]. *)
Definition block_change (x : list float) (length i : nat) : float :=
  fmul (of_nat length)
       (linregress_slope (positions length) (slice x i (i + length))).

(** ** Exceptions *)

(** The exceptions a call can end in.  [NotebookError] stands for an
    exception raised on purpose by a [raise] statement of the notebook; the
    notebook has no such statement, so that none of the functions below builds
    one: all the others come out of the Python run time or of a library
    call. *)
Inductive exception : Type :=
| NotebookError (message : string)  (* a [raise] written in the notebook *)
| ValueError            (* NumPy / statsmodels / pandas: sizes do not fit *)
| MissingDataError      (* statsmodels: exog contains inf or nans *)
| LinAlgError           (* numpy.linalg: SVD did not converge *)
| IndexError            (* index 0 of an empty selection, index past a list *)
| KeyError              (* a column the table does not have *)
| UnboundLocalError (name : string)  (* a local read before any assignment *)
| AttributeError.       (* a coordinate the object does not have *)

Inductive result (A : Type) : Type :=
| Ok (a : A)
| Raise (e : exception).
Arguments Ok {A} a.
Arguments Raise {A} e.

Definition bind {A B} (r : result A) (k : A -> result B) : result B :=
  match r with
  | Ok a => k a
  | Raise e => Raise e
  end.

Notation "x <- r ;; k" := (bind r (fun x => k))
  (at level 61, r at next level, right associativity).

(** ** Ordinary least squares ([statsmodels]) *)

Definition Rsum (xs : list R) : R := fold_right Rplus 0 xs.

Definition Rmean (xs : list R) : R := Rsum xs / INR (List.length xs).

(** Sum of squared deviations from the mean. *)
Definition Rsxx (xs : list R) : R :=
  Rsum (map (fun v => (v - Rmean xs) * (v - Rmean xs)) xs).

(** [np.max] and [np.min] of a non-empty array; a nan entry wins. *)
Definition fmax2 (x y : float) : float :=
  match x, y with
  | NaN, _ | _, NaN => NaN
  | PInf, _ | _, PInf => PInf
  | NInf, v | v, NInf => v
  | Fin a, Fin b => Fin (Rmax a b)
  end.

Definition fmin2 (x y : float) : float :=
  match x, y with
  | NaN, _ | _, NaN => NaN
  | NInf, _ | _, NInf => NInf
  | PInf, v | v, PInf => v
  | Fin a, Fin b => Fin (Rmin a b)
  end.

Definition np_max (x0 : float) (xs : list float) : float := fold_left fmax2 xs x0.
Definition np_min (x0 : float) (xs : list float) : float := fold_left fmin2 xs x0.

(** The design matrix [add_constant] hands to [OLS], for a one-dimensional
    input [x]: the single column [x], or a column of ones followed by [x]. *)
Inductive exog : Type :=
| Column (x : list float)
| ConstColumn (x : list float).

Definition exog_data (X : exog) : list float :=
  match X with Column x | ConstColumn x => x end.

(** [sm.add_constant(x)] with its defaults ([prepend=True],
    [has_constant='skip']).  It tests
    [np.ptp(x, axis=0) == 0] and [np.all(x != 0.0, axis=0)]: a column that is
    constant and not zero already counts as the constant and [x] is returned
    as it is.  [np.ptp] of an empty array raises. *)
Definition add_constant (x : list float) : result exog :=
  match x with
  | [] => Raise ValueError
  | x0 :: xs =>
      let ptp := fsub (np_max x0 xs) (np_min x0 xs) in
      let is_nonzero_const :=
        feqb ptp (Fin 0) && forallb (fun v => negb (feqb v (Fin 0))) x in
      if is_nonzero_const then Ok (Column x) else Ok (ConstColumn x)
  end.

(** The values of an array when all of them are finite. *)
Fixpoint finite_values (xs : list float) : option (list R) :=
  match xs with
  | [] => Some []
  | Fin r :: xs' => option_map (cons r) (finite_values xs')
  | _ :: _ => None
  end.

(** Rows of the design matrix. *)
Definition exog_rows (constant : bool) (x : list R) : list (list R) :=
  map (fun v => if constant then [1; v] else [v]) x.

(** Rows of the Moore-Penrose pseudo-inverse of the design matrix, one per
    parameter ([OLS.fit] uses [method='pinv']).
    - single column [x]: [x^T / sum(x^2)] (zero when [x] is zero);
    - ones and a non-constant [x]: [(X^T X)^-1 X^T];
    - ones and a constant [x = k]: the matrix has rank one, its
      pseudo-inverse is [(1, k)^T ones^T / (n (1 + k^2))]. *)
Definition pinv_rows (constant : bool) (x : list R) : list (list R) :=
  let n := INR (List.length x) in
  if constant then
    let m := Rmean x in
    let sxx := Rsxx x in
    if Req_dec_T sxx 0 then
      [ map (fun _ => 1 / (n * (1 + m * m))) x;
        map (fun _ => m / (n * (1 + m * m))) x ]
    else
      [ map (fun v => 1 / n - m * (v - m) / sxx) x;
        map (fun v => (v - m) / sxx) x ]
  else
    let sx2 := Rsum (map (fun v => v * v) x) in
    if Req_dec_T sx2 0 then [ map (fun _ => 0) x ]
    else [ map (fun v => v / sx2) x ].

(** Product of a row of exact coefficients with a column of floats. *)
Definition dot (row : list R) (col : list float) : float :=
  fsum (map (fun p => fmul (Fin (fst p)) (snd p)) (combine row col)).

(** The same product on finite values. *)
Definition Rdot (row col : list R) : R :=
  Rsum (map (fun p => fst p * snd p) (combine row col)).

(** What the notebook reads from a fitted model. *)
Record regression : Type := {
  params : list float;
  resid : list float
}.

(** [sm.OLS(y, X).fit()].  The constructor of the model looks at the design
    first ([_handle_constant]: [exog_max = np.max(exog, axis=0)], which raises
    on an empty design, then [MissingDataError] unless every column's maximum
    is finite; the column of ones has maximum 1), and only then compares the
    sizes ([_check_integrity]).  A design that has passed both and still
    holds an infinity, which can only be [-inf], reaches the singular value
    decomposition of [fit], which does not converge on it.  The dependent
    variable is not checked: a nan in [y] makes every parameter and every
    residual nan.  The parameters are [pinv(X) y] and the residuals
    [y - X params]. *)
Definition OLS_fit (y : list float) (X : exog) : result regression :=
  let x := exog_data X in
  let constant := match X with ConstColumn _ => true | Column _ => false end in
  match x with
  | [] => Raise ValueError
  | x0 :: xs =>
      if negb (isfinite (np_max x0 xs)) then Raise MissingDataError
      else if negb (List.length y =? List.length x)%nat then Raise ValueError
      else
        match finite_values x with
        | None => Raise LinAlgError
        | Some xr =>
            let beta := map (fun row => dot row y) (pinv_rows constant xr) in
            let fitted :=
              map (fun row => dot row beta) (exog_rows constant xr) in
            Ok {| params := beta;
                  resid := map (fun p => fsub (fst p) (snd p))
                               (combine y fitted) |}
        end
  end.

(** [params[0]]; indexing an empty list raises. *)
Definition params0 (reg : regression) : result float :=
  match params reg with
  | p :: _ => Ok p
  | [] => Raise IndexError
  end.

(** [np.add(a, v)]: the scalar is added to every element. *)
Definition np_add_scalar (a : list float) (v : float) : list float :=
  map (fun r => fadd r v) a.

(** ** Detrending *)

(** [remove_volcano(timeseries, temp_anomaly)] returns the residuals alone,
    [reg.resid.values] (the residuals carry [.values] when the series comes
    in as a pandas object).  The driver does not call it. *)
Definition remove_volcano (timeseries temp_anomaly : list float)
  : result (list float) :=
  X <- add_constant temp_anomaly ;;
  reg <- OLS_fit timeseries X ;;
  Ok (resid reg).

(** The regression the driver writes out in each of its branches:
    [X = sm.add_constant(X); reg = sm.OLS(y, X).fit()], then
    [np.add(reg.resid, reg.params[0])]. *)
Definition regress (y X : list float) : result regression :=
  X <- add_constant X ;;
  OLS_fit y X.

Definition adjusted (reg : regression) : result (list float) :=
  p0 <- params0 reg ;;
  Ok (np_add_scalar (resid reg) p0).

Definition detrend (y X : list float) : result (list float) :=
  reg <- regress y X ;;
  adjusted reg.

(** A forcing series that is one non-zero value throughout: the case in which
    [add_constant] adds no column of ones. *)
Definition nonzero_constant (f : list R) : Prop :=
  exists k, k <> 0 /\ Forall (fun v => v = k) f.

(** ** Spatial weighted mean ([xarray]) *)

Open Scope string_scope.
Open Scope list_scope.

(** An index for every dimension name. *)
Definition env : Type := string -> nat.

Definition upd (e : env) (d : string) (k : nat) : env :=
  fun d' => if String.eqb d' d then k else e d'.

(** A labelled array: the names of its dimensions in order, their sizes, and
    its value at every index. *)
Record array : Type := {
  dims : list string;
  size : string -> nat;
  values : env -> float
}.

(** A coordinate of a [DataArray]: the dimensions it runs along (with the
    sizes they have in the owner) and its values. *)
Record coordinate : Type := {
  cdims : list string;
  cvalues : env -> float
}.

(** The argument of [weighted_mean]: the data, and its [lat] coordinate if it
    has one. *)
Record DataArray : Type := {
  data : array;
  lat : option coordinate
}.

(** ['d' in dims] *)
Definition mem (d : string) (names : list string) : bool :=
  existsb (String.eqb d) names.

(** Binary operation of two labelled arrays: broadcast by dimension name;
    a shared dimension must have one size. *)
Definition xr_binop (f : float -> float -> float) (a b : array) : result array :=
  if forallb (fun d => if mem d (dims a) then (size a d =? size b d)%nat
                       else true) (dims b)
  then Ok {| dims := dims a ++ filter (fun d => negb (mem d (dims a))) (dims b);
             size := fun d => if mem d (dims a) then size a d else size b d;
             values := fun e => f (values a e) (values b e) |}
  else Raise ValueError.

(** All the indices obtained from [e] by letting the dimensions [ds] run
    over their sizes. *)
Fixpoint enumerate (ds : list (string * nat)) (e : env) : list env :=
  match ds with
  | [] => [e]
  | (d, s) :: ds' => flat_map (fun k => enumerate ds' (upd e d k)) (seq 0 s)
  end.

(** The cells of [da] that share the index [e] outside the dimensions
    [names]. *)
Definition cells (da : array) (names : list string) (e : env) : list env :=
  enumerate (map (fun d => (d, size da d)) names) e.

(** [np.nansum]: not-a-number counts as zero. *)
Definition nan_to_zero (v : float) : float :=
  if isnan v then Fin 0 else v.

Definition nansum (xs : list float) : float := fsum (map nan_to_zero xs).

(** [a.sum(dim=names, skipna=True)]: every name must be a dimension of [a].
    The cells are visited in the order of [names]; with exact sums the order
    is immaterial. *)
Definition xr_sum (names : list string) (a : array) : result array :=
  if forallb (fun d => mem d (dims a)) names then
    Ok {| dims := filter (fun d => negb (mem d names)) (dims a);
          size := size a;
          values := fun e => nansum (map (values a) (cells a names e)) |}
  else Raise ValueError.

(** [np.cos(np.deg2rad(v))] *)
Definition cos_deg (v : float) : float := fcos (fmul v (Fin (PI / 180))).

(** [xr.ones_like(da) * (np.cos(np.deg2rad(da.lat))).values] for a [lat]
    along the single dimension [d]: the right operand is a bare NumPy vector,
    which NumPy lines up with the last dimension of [da], whatever its
    name.  The vector must be as long as that dimension, or of length one;
    anything else does not broadcast to the shape of [da]. *)
Definition weights_1d (da : array) (c : coordinate) (d : string) : result array :=
  let n := size da d in
  let vec := map (fun k => cos_deg (cvalues c (upd (fun _ => O) d k))) (seq 0 n) in
  match last (map Some (dims da)) None with
  | None => Raise ValueError
  | Some dl =>
      if (n =? size da dl)%nat then
        Ok {| dims := dims da; size := size da;
              values := fun e => fmul (Fin 1) (nth (e dl) vec NaN) |}
      else if (n =? 1)%nat then
        Ok {| dims := dims da; size := size da;
              values := fun e => fmul (Fin 1) (nth 0 vec NaN) |}
      else Raise ValueError
  end.

(** [np.cos(np.deg2rad(da.lat))] for a two-dimensional [lat]. *)
Definition weights_2d (da : array) (c : coordinate) : array :=
  {| dims := cdims c; size := size da;
     values := fun e => cos_deg (cvalues c e) |}.

(** The first half of [weighted_mean]: [weights], once the missing cells are
    masked by [weights*da/da].  When [lat] has neither one nor two
    dimensions no branch assigns [weights]. *)
Definition masked_weights (da : DataArray) : result array :=
  c <- match lat da with Some c => Ok c | None => Raise AttributeError end ;;
  weights <- match cdims c with
             | [_; _] => Ok (weights_2d (data da) c)
             | [d] => weights_1d (data da) c d
             | _ => Raise (UnboundLocalError "weights")
             end ;;
  wd <- xr_binop fmul weights (data da) ;;
  xr_binop fdiv wd (data da).

(** [(da*weights).sum(dim=names, skipna=True)
     / weights.sum(dim=names, skipna=True)] *)
Definition mean_over (names : list string) (da weights : array) : result array :=
  dw <- xr_binop fmul da weights ;;
  num <- xr_sum names dw ;;
  den <- xr_sum names weights ;;
  xr_binop fdiv num den.

(** [weighted_mean(da)].  When none of the four tests holds, [wm] is never
    assigned and [return wm] fails. *)
Definition weighted_mean (da : DataArray) : result array :=
  weights <- masked_weights da ;;
  if mem "lat" (dims (data da)) then
    mean_over ["lat"] (data da) weights
  else if mem "i" (dims (data da)) then
    mean_over ["i"; "j"] (data da) weights
  else if mem "nlat" (dims (data da)) then
    mean_over ["nlat"; "nlon"] (data da) weights
  else if mem "x" (dims (data da)) then
    mean_over ["x"; "y"] (data da) weights
  else Raise (UnboundLocalError "wm").

(** The dimensions [weighted_mean] sums over, by the first test that holds. *)
Definition spatial_names (ds : list string) : option (list string) :=
  if mem "lat" ds then Some ["lat"]
  else if mem "i" ds then Some ["i"; "j"]
  else if mem "nlat" ds then Some ["nlat"; "nlon"]
  else if mem "x" ds then Some ["x"; "y"]
  else None.

(** ** The driver *)

(** A row of [ecs.csv]: the columns ['model name'], ['generation'], ['ecs']. *)
Module EcsTable.
Record row : Type := {
  model_name : string;
  generation : string;
  ecs : float
}.
End EcsTable.

(** A row of [ec_data.csv]. *)
Module EcData.
Record row : Type := {
  model : string;
  generation : string;
  cox : float;
  rv_cox : float;
  nijsse : float;
  rv_nijsse : float;
  ecs : float
}.
End EcData.

(** The four forcing series of the loading cell. *)
Record forcing_data : Type := {
  evolv2k_forcing : list float;
  gao_2008_forcing : list float;
  crowley_2000_forcing : list float;
  crowley_2008_forcing : list float
}.

(** A table as its columns, in order: [ts.csv] once read, and the dictionary
    [df_rv]. *)
Definition columns : Type := list (string * list float).

Definition forcings : list string :=
  ["gao"; "gao"; "crowley_08"; "crowley_00";
   "evolv2k"; "crowley_08"; "gao"; "evolv2k";
   "crowley_08"; "gao"; "evolv2k"; "gao";
   "evolv2k"; "evolv2k"; "evolv2k"; "crowley_08";
   "evolv2k"; "evolv2k"].

(** The lists the loop fills, and the dictionary of adjusted series. *)
Record state : Type := {
  ecs_vals : list float;
  original_cox : list float;
  rv_cox : list float;
  original_nijsse : list float;
  rv_nijsse : list float;
  df_rv : columns
}.

Definition initial_state : state :=
  {| ecs_vals := []; original_cox := []; rv_cox := [];
     original_nijsse := []; rv_nijsse := []; df_rv := [] |}.

(** [model_keys = df.keys()[2:]] *)
Definition model_keys (df : columns) : list string := skipn 2 (map fst df).

(** [l[i]] *)
Definition list_index {A} (l : list A) (i : nat) : result A :=
  match nth_error l i with
  | Some a => Ok a
  | None => Raise IndexError
  end.

(** [df[name].values] *)
Fixpoint df_column (df : columns) (name : string) : result (list float) :=
  match df with
  | [] => Raise KeyError
  | (k, v) :: df' => if String.eqb k name then Ok v else df_column df' name
  end.

(** [d[name] = v] on a dictionary: the value of a present key is replaced in
    place, a new key goes to the end. *)
Fixpoint dict_set (d : columns) (name : string) (v : list float) : columns :=
  match d with
  | [] => [(name, v)]
  | (k, w) :: d' =>
      if String.eqb k name then (k, v) :: d' else (k, w) :: dict_set d' name v
  end.

Fixpoint dict_get (d : columns) (name : string) : option (list float) :=
  match d with
  | [] => None
  | (k, v) :: d' => if String.eqb k name then Some v else dict_get d' name
  end.

(** [t[t['model name']==name]['ecs'].values[0]]: the [ecs] of the first row
    with that name; index 0 of an empty selection raises. *)
Definition ecs_lookup (t : list EcsTable.row) (name : string) : result float :=
  match filter (fun r => String.eqb (EcsTable.model_name r) name) t with
  | r :: _ => Ok (EcsTable.ecs r)
  | [] => Raise IndexError
  end.

(** [compute_nijsse(x)] with the default [length=10]. *)
Definition compute_nijsse_default (x : list float) : result float :=
  match compute_nijsse x 10 with
  | Some v => Ok v
  | None => Raise ValueError
  end.

(** The branch written out for ['HadCM3'], ['gao'], ['crowley_08'] and
    ['evolv2k'], which differ in the forcing [X] alone: regress the first
    1001 points, compute the metrics on residuals plus intercept followed by
    [ts_historical], and store that same series. *)
Definition past1000_branch (t : list EcsTable.row) (name : string)
    (ts X : list float) (st : state) : result state :=
  let ts_historical := skipn 1001 ts in
  let ts_past1000 := firstn 1001 ts in
  let y := ts_past1000 in
  reg <- regress y X ;;
  e <- ecs_lookup t name ;;
  p0 <- params0 reg ;;
  let rv := np_add_scalar (resid reg) p0 ++ ts_historical in
  n0 <- compute_nijsse_default ts ;;
  n1 <- compute_nijsse_default rv ;;
  Ok {| ecs_vals := ecs_vals st ++ [e];
        original_cox := original_cox st ++ [compute_cox ts];
        rv_cox := rv_cox st ++ [compute_cox rv];
        original_nijsse := original_nijsse st ++ [n0];
        rv_nijsse := rv_nijsse st ++ [n1];
        df_rv := dict_set (df_rv st) name rv |}.

(** The branch of ['crowley_00']: regress [ts[151:]], compute the metrics on
    residuals plus intercept, and store [ts[:151]] followed by them. *)
Definition crowley_00_branch (t : list EcsTable.row) (name : string)
    (ts X : list float) (st : state) : result state :=
  let y := skipn 151 ts in
  reg <- regress y X ;;
  e <- ecs_lookup t name ;;
  p0 <- params0 reg ;;
  let rv := np_add_scalar (resid reg) p0 in
  n0 <- compute_nijsse_default ts ;;
  n1 <- compute_nijsse_default rv ;;
  Ok {| ecs_vals := ecs_vals st ++ [e];
        original_cox := original_cox st ++ [compute_cox ts];
        rv_cox := rv_cox st ++ [compute_cox rv];
        original_nijsse := original_nijsse st ++ [n0];
        rv_nijsse := rv_nijsse st ++ [n1];
        df_rv := dict_set (df_rv st) name (firstn 151 ts ++ rv) |}.

(** Body of [for i in range(len(model_keys))].  A forcing name outside the
    four known ones runs no branch: nothing is appended for that model. *)
Definition process_model (F : forcing_data) (df : columns)
    (t : list EcsTable.row) (st : state) (i : nat) : result state :=
  name <- list_index (model_keys df) i ;;
  ts <- df_column df name ;;
  if String.eqb name "HadCM3" then
    past1000_branch t name ts (crowley_2008_forcing F) st
  else
    f <- list_index forcings i ;;
    if String.eqb f "gao" then
      past1000_branch t name ts (gao_2008_forcing F) st
    else if String.eqb f "crowley_00" then
      crowley_00_branch t name ts (crowley_2000_forcing F) st
    else if String.eqb f "crowley_08" then
      past1000_branch t name ts (crowley_2008_forcing F) st
    else if String.eqb f "evolv2k" then
      past1000_branch t name ts (evolv2k_forcing F) st
    else Ok st.

Fixpoint for_each {S} (body : S -> nat -> result S) (range : list nat) (st : S)
  : result S :=
  match range with
  | [] => Ok st
  | i :: range' => st' <- body st i ;; for_each body range' st'
  end.

Definition run_models (F : forcing_data) (df : columns) (t : list EcsTable.row)
  : result state :=
  for_each (process_model F df t) (seq 0 (List.length (model_keys df)))
           initial_state.

(** Rows of [pd.DataFrame] built from seven columns of one length. *)
Fixpoint ec_rows (models gens : list string)
    (cox rv_cox nijsse rv_nijsse ecs : list float) : list EcData.row :=
  match models, gens, cox, rv_cox, nijsse, rv_nijsse, ecs with
  | m :: ms, g :: gs, c :: cs, rc :: rcs, n :: ns, rn :: rns, e :: es =>
      {| EcData.model := m; EcData.generation := g; EcData.cox := c;
         EcData.rv_cox := rc; EcData.nijsse := n; EcData.rv_nijsse := rn;
         EcData.ecs := e |} :: ec_rows ms gs cs rcs ns rns es
  | _, _, _, _, _, _, _ => []
  end.

(** [pd.DataFrame({'model': model_keys, 'generation': t['generation'].values,
    'cox': original_cox, ...})]: the columns are laid side by side; columns of
    different lengths raise. *)
Definition ec_data (df : columns) (t : list EcsTable.row) (st : state)
  : result (list EcData.row) :=
  let models := model_keys df in
  let gens := map EcsTable.generation t in
  let n := List.length models in
  if (List.length gens =? n)%nat && (List.length (original_cox st) =? n)%nat
     && (List.length (rv_cox st) =? n)%nat
     && (List.length (original_nijsse st) =? n)%nat
     && (List.length (rv_nijsse st) =? n)%nat
     && (List.length (ecs_vals st) =? n)%nat
  then Ok (ec_rows models gens (original_cox st) (rv_cox st)
                   (original_nijsse st) (rv_nijsse st) (ecs_vals st))
  else Raise ValueError.

(** [pd.DataFrame(df_rv)]: the adjusted series side by side. *)
Definition ts_rv (st : state) : result columns :=
  match df_rv st with
  | [] => Ok []
  | (_, v) :: d =>
      if forallb (fun kv => (List.length (snd kv) =? List.length v)%nat) d
      then Ok (df_rv st) else Raise ValueError
  end.

(** The notebook from the main loop to its two tables. *)
Definition generate_ec_data (F : forcing_data) (df : columns)
    (t : list EcsTable.row) : result (list EcData.row * columns) :=
  st <- run_models F df t ;;
  ec <- ec_data df t st ;;
  rv <- ts_rv st ;;
  Ok (ec, rv).

(** ** Vocabulary of the statements about the driver *)

(** The state after a branch has run for [name]: [e] looked up, the raw
    metrics of [ts], the adjusted metrics computed on [metric_input], and
    [column] stored in [df_rv]. *)
Definition appended (st : state) (name : string) (e : float)
    (ts metric_input column : list float) (n0 n1 : float) : state :=
  {| ecs_vals := ecs_vals st ++ [e];
     original_cox := original_cox st ++ [compute_cox ts];
     rv_cox := rv_cox st ++ [compute_cox metric_input];
     original_nijsse := original_nijsse st ++ [n0];
     rv_nijsse := rv_nijsse st ++ [n1];
     df_rv := dict_set (df_rv st) name column |}.

(** A forcing series the regression accepts for the window [y]: finite, not
    empty, one value per point of the window. *)
Definition aligned (y X : list float) : Prop :=
  List.length y = List.length X /\ X <> [] /\
  exists xr, finite_values X = Some xr.

(** The forcing data fit the series [ts]: the three series regressed on the
    first 1001 points fit that window, the Crowley (2000) series fits the
    points from 151 on. *)
Definition forcing_aligned (F : forcing_data) (ts : list float) : Prop :=
  aligned (firstn 1001 ts) (gao_2008_forcing F) /\
  aligned (firstn 1001 ts) (crowley_2008_forcing F) /\
  aligned (firstn 1001 ts) (evolv2k_forcing F) /\
  aligned (skipn 151 ts) (crowley_2000_forcing F).


(** ** Sample inputs *)

(** Four models of 153 annual values each, after the two leading columns of
    [ts.csv]; the fourth model is the one the list [forcings] gives the
    ['crowley_00'] forcing. *)
Definition sample_ts : list float := positions 153.

Definition sample_df : columns :=
  [("Unnamed: 0", positions 153); ("time", positions 153);
   ("bcc-csm1-1", sample_ts); ("CCSM4", sample_ts);
   ("CSIRO-Mk3L-1-2", sample_ts); ("FGOALS-gl", sample_ts)].

Definition sample_forcing : forcing_data :=
  {| evolv2k_forcing := positions 153;
     gao_2008_forcing := positions 153;
     crowley_2000_forcing := [Fin 0; Fin 1];
     crowley_2008_forcing := positions 153 |}.

Definition sample_ecs : list EcsTable.row :=
  [ {| EcsTable.model_name := "bcc-csm1-1"; EcsTable.generation := "CMIP5";
       EcsTable.ecs := Fin 2.8 |};
    {| EcsTable.model_name := "CCSM4"; EcsTable.generation := "CMIP5";
       EcsTable.ecs := Fin 2.9 |};
    {| EcsTable.model_name := "CSIRO-Mk3L-1-2"; EcsTable.generation := "CMIP5";
       EcsTable.ecs := Fin 3.1 |};
    {| EcsTable.model_name := "FGOALS-gl"; EcsTable.generation := "CMIP5";
       EcsTable.ecs := Fin 4.0 |} ].

(** Two models and their ECS table in two row orders. *)
Definition pair_df : columns :=
  [("Unnamed: 0", positions 153); ("time", positions 153);
   ("CCSM4", sample_ts); ("MRI-ESM2-0", sample_ts)].

Definition pair_ecs : list EcsTable.row :=
  [ {| EcsTable.model_name := "CCSM4"; EcsTable.generation := "CMIP5";
       EcsTable.ecs := Fin 2.9 |};
    {| EcsTable.model_name := "MRI-ESM2-0"; EcsTable.generation := "CMIP6";
       EcsTable.ecs := Fin 3.1 |} ].

Definition pair_ecs_shuffled : list EcsTable.row := rev pair_ecs.

(** The identifying part of a summary row. *)
Definition pairing (r : EcData.row) : string * string * float :=
  (EcData.model r, EcData.generation r, EcData.ecs r).

(** Inputs on which every pass of the loop finds what it needs: at most 18
    models, one ECS row per model, series of one length [n] that the forcing
    data fit, and an ECS entry for each model name. *)
Definition well_formed (F : forcing_data) (df : columns)
    (t : list EcsTable.row) (n : nat) : Prop :=
  (List.length (model_keys df) <= 18)%nat /\
  List.length t = List.length (model_keys df) /\
  forall name, In name (model_keys df) ->
    exists ts e,
      df_column df name = Ok ts /\ List.length ts = n /\
      forcing_aligned F ts /\ ecs_lookup t name = Ok e.

(** Small fields for [weighted_mean]: one time step, two by two cells (or
    two cells), latitudes 0 and 60 degrees. *)
Definition sizes_122 (d : string) : nat :=
  if String.eqb d "time" then 1%nat else 2%nat.

Definition lat_0_60 (d : string) : coordinate :=
  {| cdims := [d];
     cvalues := fun e => match e d with O => Fin 0 | _ => Fin 60 end |}.

(** A latitude-longitude field, every cell 1. *)
Definition latlon_field : DataArray :=
  {| data := {| dims := ["time"; "lat"; "lon"]; size := sizes_122;
                values := fun _ => Fin 1 |};
     lat := Some (lat_0_60 "lat") |}.

(** A zonal-mean field, every cell [v]. *)
Definition zonal_field (v : float) : DataArray :=
  {| data := {| dims := ["time"; "lat"]; size := sizes_122;
                values := fun _ => v |};
     lat := Some (lat_0_60 "lat") |}.

(** A field on a rotated grid, with dimensions [rlat] and [rlon] and a
    two-dimensional latitude. *)
Definition rotated_field : DataArray :=
  {| data := {| dims := ["time"; "rlat"; "rlon"]; size := sizes_122;
                values := fun _ => Fin 1 |};
     lat := Some {| cdims := ["rlat"; "rlon"]; cvalues := fun _ => Fin 0 |} |}.

(** ** Proof tactics *)

(** Closes the side conditions [field] leaves: denominators known not to be
    zero. *)
Ltac nonzero := repeat split; try assumption; try lra.

(** Splits a hypothesis [x <- r ;; k = Ok v] on the outcome of [r]. *)
Ltac bind_inv H :=
  match type of H with
  | bind ?r _ = Ok _ =>
      let E := fresh "E" in
      destruct r eqn:E; [cbn [bind] in H | discriminate H]
  end.

(** ** Vocabulary of the further properties *)

(** A series and its forcing, point by point, as pairs [(y, f)] of finite
    values. *)
Definition series_of (data : list (R * R)) : list float :=
  map (fun p => Fin (fst p)) data.

Definition forcing_of (data : list (R * R)) : list float :=
  map (fun p => Fin (snd p)) data.

(** The forcing takes at least two different values. *)
Definition varies (data : list (R * R)) : Prop :=
  exists p q, In p data /\ In q data /\ snd p <> snd q.

(** The least-squares slope of the series against the forcing,
    [sum((f - mean f) * (y - mean y)) / sum((f - mean f)^2)]. *)
Definition ols_slope (data : list (R * R)) : R :=
  let my := Rmean (map fst data) in
  let mf := Rmean (map snd data) in
  Rsum (map (fun p => (snd p - mf) * (fst p - my)) data)
  / Rsxx (map snd data).

(** The exception the regression on a forcing [X] ends in when [X] is empty
    or has not one value per point of the series: [np.ptp] of
    [sm.add_constant] fails on an empty array; otherwise [sm.OLS] looks at
    [np.max(X)] before it compares the sizes. *)
Definition refusal (X : list float) : exception :=
  match X with
  | [] => ValueError
  | x0 :: xs =>
      if isfinite (np_max x0 xs) then ValueError else MissingDataError
  end.

(** The weights before masking: the first [if] of [weighted_mean]. *)
Definition raw_weights (da : DataArray) : result array :=
  c <- match lat da with Some c => Ok c | None => Raise AttributeError end ;;
  match cdims c with
  | [_; _] => Ok (weights_2d (data da) c)
  | [d] => weights_1d (data da) c d
  | _ => Raise (UnboundLocalError "weights")
  end.

(** A field on a curvilinear grid, dimensions [j] and [i], with a
    two-dimensional latitude that is 0 degrees in every cell, every value
    [v]. *)
Definition curvilinear_field (v : float) : DataArray :=
  {| data := {| dims := ["time"; "j"; "i"]; size := sizes_122;
                values := fun _ => v |};
     lat := Some {| cdims := ["j"; "i"]; cvalues := fun _ => Fin 0 |} |}.

(** A field with a dimension [i] and no dimension [j]. *)
Definition strip_field : DataArray :=
  {| data := {| dims := ["time"; "i"]; size := sizes_122;
                values := fun _ => Fin 1 |};
     lat := Some (lat_0_60 "i") |}.

(** ** The yearly eVolv2k series *)

(** The series that [weighted_mean] leaves of [evolv2k.nc]: the labels of
    its [time] index, in increasing order, each with the [aod550] value. *)
Definition timeseries := list (R * float).

Definition Rleb (a b : R) : bool := if Rle_dec a b then true else false.

(** [.sel(time=slice(lo, hi))]: selection by label, both bounds included. *)
Definition sel_time (ts : timeseries) (lo hi : R) : timeseries :=
  filter (fun p => Rleb lo (fst p) && Rleb (fst p) hi) ts.

(** [float(ts.mean(dim='time').aod550.values)]: xarray's mean skips nan, and
    is nan over an empty selection. *)
Definition time_mean (ts : timeseries) : float := np_nanmean (map snd ts).

(** The [while i <= 1850] loop; [fuel] bounds the number of tests of its
    condition. *)
Fixpoint evolv2k_loop (fuel : nat) (evolv2k_ts : timeseries) (i : nat)
    (evolv2k_saod : list float) : option (list float) :=
  match fuel with
  | O => None
  | S fuel' =>
      if (i <=? 1850)%nat then
        evolv2k_loop fuel' evolv2k_ts (i + 1)
          (evolv2k_saod ++
           [time_mean (sel_time evolv2k_ts (INR i) (INR (i + 1)))])
      else Some evolv2k_saod
  end.

(** The loop starts at [i = 850]; 1002 tests of the condition end it. *)
Definition evolv2k_saod (wm : timeseries) : option (list float) :=
  let evolv2k_ts := sel_time wm (INR 850) (INR 1850) in
  evolv2k_loop 1002 evolv2k_ts 850 [].

(** [evolv2k_forcing = get_forcing(evolv2k_saod)] *)
Definition load_evolv2k_forcing (wm : timeseries) : option (list float) :=
  option_map get_forcing (evolv2k_saod wm).

(** The samples that count for year [i]. *)
Definition year_samples (wm : timeseries) (i : nat) : timeseries :=
  filter (fun p => Rleb (INR i) (fst p) && Rleb (fst p) (INR (i + 1))
                   && Rleb (fst p) (INR 1850)) wm.

(** A record with one sample per whole year, [years] of them from [first]. *)
Definition annual (a : nat -> R) (first years : nat) : timeseries :=
  map (fun y => (INR y, Fin (a y))) (seq first years).

(** The loading cell: the four forcing series, from the eVolv2k record
    [wm], the column [gm] of [gao_2008.csv], the column [Vol.hl.cct] of
    [crowley_2000.txt], taken as it is, and the column [AOD] of
    [crowley_2008.txt]. *)
Definition load_forcings (wm : timeseries) (gm vol aod : list float)
  : option forcing_data :=
  match evolv2k_saod wm with
  | Some saod =>
      let gao_2008_saod := map (fun v => fdiv v (Fin (1.2 * 10 ^ 3))) gm in
      Some {| evolv2k_forcing := get_forcing saod;
              gao_2008_forcing := get_forcing gao_2008_saod;
              crowley_2000_forcing := vol;
              crowley_2008_forcing := get_forcing aod |}
  | None => None
  end.

(** ** Further sample inputs *)

(** Nineteen models of 153 annual values, one more than the list [forcings]
    has entries; the last one is named ['HadCM3'].  The ECS table has a row
    for each. *)
Definition long_names : list string :=
  ["bcc-csm1-1"; "CCSM4"; "CSIRO-Mk3L-1-2"; "FGOALS-gl"; "FGOALS-s2";
   "GISS-E2-R"; "IPSL-CM5A-LR"; "MIROC-ESM"; "MPI-ESM-P"; "MRI-CGCM3";
   "MRI-ESM2-0"; "MIROC-ES2L"; "INM-CM4-8"; "ACCESS-ESM1-5"; "CESM2";
   "NorESM1-F"; "EC-Earth3-Veg-LR"; "CNRM-CM6-1"; "HadCM3"].

Definition long_df : columns :=
  [("Unnamed: 0", positions 153); ("time", positions 153)]
  ++ map (fun name => (name, sample_ts)) long_names.

Definition long_ecs : list EcsTable.row :=
  map (fun name => {| EcsTable.model_name := name;
                      EcsTable.generation := "CMIP6";
                      EcsTable.ecs := Fin 3 |}) long_names.

(** One model of 1003 annual values, with forcing series that fit it. *)
Definition millennium_ts : list float := positions 1003.

Definition millennium_df : columns :=
  [("Unnamed: 0", positions 1003); ("time", positions 1003);
   ("bcc-csm1-1", millennium_ts)].

Definition millennium_forcing : forcing_data :=
  {| evolv2k_forcing := positions 1001;
     gao_2008_forcing := positions 1001;
     crowley_2000_forcing := positions 852;
     crowley_2008_forcing := positions 1001 |}.

(** ** Facts about the float operations *)

Lemma Rsign_zero : Rsign 0 = Eq.
Proof.
  unfold Rsign. destruct (total_order_T 0 0) as [[H|H]|H]; try reflexivity; lra.
Qed.

Lemma Rsign_pos (r : R) : 0 < r -> Rsign r = Gt.
Proof.
  intros Hr. unfold Rsign.
  destruct (total_order_T r 0) as [[H|H]|H]; try reflexivity; lra.
Qed.

Lemma Rsign_neg (r : R) : r < 0 -> Rsign r = Lt.
Proof.
  intros Hr. unfold Rsign.
  destruct (total_order_T r 0) as [[H|H]|H]; try reflexivity; lra.
Qed.

Lemma Rsign_Eq_inv (r : R) : Rsign r = Eq -> r = 0.
Proof.
  unfold Rsign. destruct (total_order_T r 0) as [[H|H]|H]; congruence.
Qed.

Lemma Rsign_nonzero (r : R) : r <> 0 -> Rsign r <> Eq.
Proof. intros Hr H. apply Hr, Rsign_Eq_inv, H. Qed.

Lemma fdiv_Fin (a b : R) : b <> 0 -> fdiv (Fin a) (Fin b) = Fin (a / b).
Proof.
  intros Hb. simpl. pose proof (Rsign_nonzero b Hb) as Hs.
  destruct (Rsign b); congruence.
Qed.

Lemma fdiv_zero_zero : fdiv (Fin 0) (Fin 0) = NaN.
Proof. simpl. rewrite Rsign_zero. unfold inf_times. now rewrite Rsign_zero. Qed.

Lemma np_mean_nil : np_mean [] = NaN.
Proof. unfold np_mean, fsum, of_nat. simpl. apply fdiv_zero_zero. Qed.

Lemma np_nanmean_nil : np_nanmean [] = NaN.
Proof. unfold np_nanmean. simpl. apply np_mean_nil. Qed.

Lemma np_nanstd_nil : np_nanstd [] = NaN.
Proof. unfold np_nanstd, np_std. simpl. now rewrite np_mean_nil. Qed.

(** ** AOD to radiative forcing: properties *)

Lemma get_forcing_at_Fin (x : R) :
  get_forcing_at (Fin x) = Fin (-20.7 * (1 + - exp (-1 * x))).
Proof. reflexivity. Qed.

Lemma get_forcing_at_zero : get_forcing_at (Fin 0) = Fin 0.
Proof.
  rewrite get_forcing_at_Fin. f_equal.
  replace (-1 * 0) with 0 by lra. rewrite exp_0. lra.
Qed.

(** C2, as stated, fails: between AOD 0 and AOD 1 the forcing goes down
    (from 0 to a negative value), not up. *)
Lemma get_forcing_not_increasing :
  0 < 1 /\ ~ flt (get_forcing_at (Fin 0)) (get_forcing_at (Fin 1)).
Proof.
  split; [lra|].
  rewrite !get_forcing_at_Fin. simpl.
  assert (H : exp (-1 * 1) < exp (-1 * 0)) by (apply exp_increasing; lra).
  lra.
Qed.

(** C2, amended: the conversion never increases, a larger optical depth never
    gives a larger forcing; and the forcing at an optical depth of 1 or more
    is strictly below the forcing at an optical depth of 0 or less.  (In
    exact arithmetic the decrease is strict throughout; on [float64] values
    two close, or two large, optical depths can give the same forcing, which
    is why strictness is stated for separated arguments only.) *)
Theorem get_forcing_decreasing (x1 x2 : R) :
  x1 <= x2 ->
  fle (get_forcing_at (Fin x2)) (get_forcing_at (Fin x1)) /\
  (x1 <= 0 -> 1 <= x2 ->
   flt (get_forcing_at (Fin x2)) (get_forcing_at (Fin x1))).
Proof.
  intros Hle. rewrite !get_forcing_at_Fin. cbn [fle flt]. split.
  - assert (H : exp (-1 * x2) <= exp (-1 * x1)).
    { destruct Hle as [Hlt | ->]; [|lra]. left. apply exp_increasing. lra. }
    lra.
  - intros H1 H2.
    assert (H : exp (-1 * x2) < exp (-1 * x1)) by (apply exp_increasing; lra).
    lra.
Qed.

Lemma get_forcing_decreasing_witness :
  0 <= 1 /\
  fle (get_forcing_at (Fin 1)) (get_forcing_at (Fin 0)) /\
  flt (get_forcing_at (Fin 1)) (get_forcing_at (Fin 0)).
Proof.
  split; [lra|].
  destruct (get_forcing_decreasing 0 1) as [Hle Hlt]; [lra|].
  split; [exact Hle | apply Hlt; lra].
Defined.

(** ** Sums of reals *)

Lemma Rsum_map_ext {A} (g h : A -> R) (xs : list A) :
  (forall v, g v = h v) -> Rsum (map g xs) = Rsum (map h xs).
Proof.
  intros E. induction xs as [|v xs IH]; simpl; [reflexivity | now rewrite E, IH].
Qed.

Lemma Rsum_quadratic (A B C : R) (xs : list R) :
  Rsum (map (fun v => A + B * v + C * (v * v)) xs) =
  A * INR (List.length xs) + B * Rsum xs + C * Rsum (map (fun v => v * v) xs).
Proof.
  induction xs as [|v xs IH].
  - simpl. lra.
  - cbn [map Rsum fold_right List.length]. fold (Rsum xs).
    fold (Rsum (map (fun v => A + B * v + C * (v * v)) xs)).
    fold (Rsum (map (fun v => v * v) xs)).
    rewrite IH, S_INR. ring.
Qed.

Lemma Rsxx_moments (xs : list R) :
  xs <> [] ->
  Rsxx xs =
  Rsum (map (fun v => v * v) xs) - Rsum xs * Rsum xs / INR (List.length xs).
Proof.
  intros Hne. unfold Rsxx.
  assert (Hn : INR (List.length xs) <> 0).
  { apply not_0_INR. destruct xs; [congruence | discriminate]. }
  set (m := Rmean xs).
  rewrite (Rsum_map_ext _ (fun v => m * m + (-2 * m) * v + 1 * (v * v)))
    by (intros; ring).
  rewrite Rsum_quadratic. unfold m, Rmean. field. exact Hn.
Qed.

Lemma Rsum_squares_zero (g : R -> R) (xs : list R) :
  Rsum (map (fun v => g v * g v) xs) = 0 -> Forall (fun v => g v = 0) xs.
Proof.
  assert (Hpos : forall l, 0 <= Rsum (map (fun v => g v * g v) l)).
  { induction l as [|v l IH]; simpl; [lra|]. fold (Rsum (map (fun v => g v * g v) l)).
    pose proof (Rle_0_sqr (g v)) as Hs. unfold Rsqr in Hs. lra. }
  induction xs as [|v xs IH]; intros H; constructor.
  - simpl in H. fold (Rsum (map (fun v => g v * g v) xs)) in H.
    pose proof (Hpos xs). pose proof (Rle_0_sqr (g v)) as Hs. unfold Rsqr in Hs.
    assert (Hz : g v * g v = 0) by lra.
    apply Rmult_integral in Hz. tauto.
  - apply IH. simpl in H. fold (Rsum (map (fun v => g v * g v) xs)) in H.
    pose proof (Hpos xs). pose proof (Rle_0_sqr (g v)) as Hs. unfold Rsqr in Hs.
    lra.
Qed.

(** A series with no spread is constant, equal to its mean. *)
Lemma Rsxx_zero_constant (xs : list R) :
  Rsxx xs = 0 -> Forall (fun v => v = Rmean xs) xs.
Proof.
  intros H. apply (Rsum_squares_zero (fun v => v - Rmean xs)) in H.
  eapply Forall_impl; [|exact H]. simpl. intros; lra.
Qed.

(** ** The float operations on finite values *)

Lemma fold_fadd_Fin (rs : list R) (a : R) :
  fold_left fadd (map Fin rs) (Fin a) = Fin (a + Rsum rs).
Proof.
  revert a. induction rs as [|r rs IH]; intros a; simpl.
  - f_equal. lra.
  - rewrite IH. f_equal. fold (Rsum rs). lra.
Qed.

Lemma fsum_Fin (rs : list R) : fsum (map Fin rs) = Fin (Rsum rs).
Proof. unfold fsum. rewrite fold_fadd_Fin. f_equal. lra. Qed.

Lemma dot_Fin (row col : list R) : dot row (map Fin col) = Fin (Rdot row col).
Proof.
  unfold dot, Rdot.
  replace (map (fun p => fmul (Fin (fst p)) (snd p)) (combine row (map Fin col)))
    with (map Fin (map (fun p => fst p * snd p) (combine row col))).
  - apply fsum_Fin.
  - revert col. induction row as [|a row IH]; intros [|b col]; simpl; try reflexivity.
    now rewrite IH.
Qed.

Lemma finite_values_Fin (rs : list R) : finite_values (map Fin rs) = Some rs.
Proof.
  induction rs as [|r rs IH]; simpl; [reflexivity | now rewrite IH].
Qed.

Lemma combine_map_same {A B C} (g : A -> B) (h : A -> C) (xs : list A) :
  combine (map g xs) (map h xs) = map (fun v => (g v, h v)) xs.
Proof.
  induction xs as [|v xs IH]; simpl; [reflexivity | now rewrite IH].
Qed.

Lemma Rdot_map (g h : R -> R) (xs : list R) :
  Rdot (map g xs) (map h xs) = Rsum (map (fun v => g v * h v) xs).
Proof.
  unfold Rdot. now rewrite combine_map_same, map_map.
Qed.

(** A design whose values are all finite has a finite maximum. *)
Lemma finite_values_max (xs : list float) :
  forall x0 xr,
    finite_values (x0 :: xs) = Some xr -> isfinite (np_max x0 xs) = true.
Proof.
  unfold np_max.
  induction xs as [|v xs IH]; intros x0 xr H;
    destruct x0 as [| | |a]; try discriminate H; [reflexivity|].
  cbn [finite_values] in H. destruct v as [| | |b]; try discriminate H.
  cbn [fold_left fmax2].
  destruct (finite_values xs) as [xr'|] eqn:Hf; [|discriminate H].
  apply (IH (Fin (Rmax a b)) (Rmax a b :: xr')).
  cbn [finite_values]. now rewrite Hf.
Qed.

(** On a finite design [OLS_fit] is left with the comparison of the sizes. *)
Lemma OLS_fit_design_finite (y : list float) (X : exog) (xr : list R) :
  exog_data X <> [] ->
  finite_values (exog_data X) = Some xr ->
  OLS_fit y X =
  if negb (List.length y =? List.length (exog_data X))%nat then Raise ValueError
  else
    let constant := match X with ConstColumn _ => true | Column _ => false end in
    let beta := map (fun row => dot row y) (pinv_rows constant xr) in
    let fitted := map (fun row => dot row beta) (exog_rows constant xr) in
    Ok {| params := beta;
          resid := map (fun p => fsub (fst p) (snd p)) (combine y fitted) |}.
Proof.
  intros Hne Hf. unfold OLS_fit.
  destruct (exog_data X) as [|x0 xs]; [congruence|].
  rewrite (finite_values_max xs x0 xr Hf), Hf. reflexivity.
Qed.

(** [OLS_fit] on finite data, with the sums taken in the reals. *)
Lemma OLS_fit_finite (constant : bool) (yr xr : list R) :
  List.length yr = List.length xr -> xr <> [] ->
  let beta := map (fun row => Rdot row yr) (pinv_rows constant xr) in
  OLS_fit (map Fin yr)
          ((if constant then ConstColumn else Column) (map Fin xr)) =
  Ok {| params := map Fin beta;
        resid := map (fun p => Fin (fst p + - snd p))
                     (combine yr (map (fun row => Rdot row beta)
                                      (exog_rows constant xr))) |}.
Proof.
  intros Hlen Hne beta.
  assert (Hx : exog_data ((if constant then ConstColumn else Column) (map Fin xr))
               = map Fin xr) by (destruct constant; reflexivity).
  assert (Hc : match (if constant then ConstColumn else Column) (map Fin xr)
               with ConstColumn _ => true | Column _ => false end = constant)
    by (destruct constant; reflexivity).
  rewrite (OLS_fit_design_finite _ _ xr);
    [| rewrite Hx; destruct xr; [congruence | discriminate]
     | rewrite Hx; apply finite_values_Fin].
  rewrite Hx, Hc, !length_map, Hlen, Nat.eqb_refl. cbn [negb]. cbv zeta.
  assert (Hb : map (fun row => dot row (map Fin yr)) (pinv_rows constant xr)
               = map Fin beta).
  { unfold beta. rewrite map_map. apply map_ext. intros row. apply dot_Fin. }
  destruct xr as [|x0 xr']; [congruence|].
  rewrite Hb. f_equal. f_equal.
  rewrite (map_ext (fun row => dot row (map Fin beta))
                   (fun row => Fin (Rdot row beta)))
    by (intros row; apply dot_Fin).
  rewrite <- (map_map (fun row => Rdot row beta) Fin).
  generalize (map (fun row => Rdot row beta) (exog_rows constant (x0 :: xr'))).
  intros fitted.
  clear. revert fitted.
  induction yr as [|y yr IH]; intros [|u fitted]; simpl; try reflexivity.
  now rewrite IH.
Qed.

(** ** [add_constant] *)

Lemma feqb_Fin_true (a b : R) : feqb (Fin a) (Fin b) = true <-> a = b.
Proof. simpl. destruct (Req_dec_T a b); split; congruence. Qed.

Lemma np_max_Fin (xs : list R) (x0 : R) :
  np_max (Fin x0) (map Fin xs) = Fin (fold_left Rmax xs x0).
Proof.
  unfold np_max. revert x0. induction xs as [|v xs IH]; intros x0; simpl;
    [reflexivity | apply IH].
Qed.

Lemma np_min_Fin (xs : list R) (x0 : R) :
  np_min (Fin x0) (map Fin xs) = Fin (fold_left Rmin xs x0).
Proof.
  unfold np_min. revert x0. induction xs as [|v xs IH]; intros x0; simpl;
    [reflexivity | apply IH].
Qed.

Lemma fold_Rmax_bound (xs : list R) (x0 : R) :
  x0 <= fold_left Rmax xs x0 /\ Forall (fun v => v <= fold_left Rmax xs x0) xs.
Proof.
  revert x0. induction xs as [|v xs IH]; intros x0; simpl.
  - split; [lra | constructor].
  - destruct (IH (Rmax x0 v)) as [H0 Hall].
    pose proof (Rmax_l x0 v). pose proof (Rmax_r x0 v).
    split; [lra|]. constructor; [lra | exact Hall].
Qed.

Lemma fold_Rmin_bound (xs : list R) (x0 : R) :
  fold_left Rmin xs x0 <= x0 /\ Forall (fun v => fold_left Rmin xs x0 <= v) xs.
Proof.
  revert x0. induction xs as [|v xs IH]; intros x0; simpl.
  - split; [lra | constructor].
  - destruct (IH (Rmin x0 v)) as [H0 Hall].
    pose proof (Rmin_l x0 v). pose proof (Rmin_r x0 v).
    split; [lra|]. constructor; [lra | exact Hall].
Qed.

Lemma fold_Rmax_constant (k : R) (xs : list R) :
  Forall (fun v => v = k) xs -> fold_left Rmax xs k = k.
Proof.
  induction 1 as [|v xs Hv _ IH]; simpl; [reflexivity|].
  subst v. unfold Rmax. destruct (Rle_dec k k); exact IH.
Qed.

Lemma fold_Rmin_constant (k : R) (xs : list R) :
  Forall (fun v => v = k) xs -> fold_left Rmin xs k = k.
Proof.
  induction 1 as [|v xs Hv _ IH]; simpl; [reflexivity|].
  subst v. unfold Rmin. destruct (Rle_dec k k); exact IH.
Qed.

(** On finite data [add_constant] leaves out the column of ones exactly when
    the series is a non-zero constant. *)
Lemma add_constant_skips (f : list R) :
  f <> [] -> nonzero_constant f ->
  add_constant (map Fin f) = Ok (Column (map Fin f)).
Proof.
  intros Hne (k & Hk & Hall).
  destruct f as [|x0 xs]; [congruence|].
  inversion Hall as [|? ? Hx0 Hxs]; subst.
  cbn [map add_constant].
  rewrite np_max_Fin, np_min_Fin, fold_Rmax_constant, fold_Rmin_constant by assumption.
  assert (E1 : feqb (fsub (Fin k) (Fin k)) (Fin 0) = true)
    by (apply feqb_Fin_true; lra).
  rewrite E1.
  assert (E2 : forallb (fun v => negb (feqb v (Fin 0))) (Fin k :: map Fin xs) = true).
  { apply forallb_forall. intros v Hv.
    change (Fin k :: map Fin xs) with (map Fin (k :: xs)) in Hv.
    apply in_map_iff in Hv. destruct Hv as (r & <- & Hr).
    rewrite Forall_forall in Hall. rewrite (Hall r Hr).
    destruct (feqb (Fin k) (Fin 0)) eqn:E; [|reflexivity].
    apply feqb_Fin_true in E. contradiction. }
  rewrite E2. reflexivity.
Qed.

Lemma add_constant_adds (f : list R) :
  f <> [] -> ~ nonzero_constant f ->
  add_constant (map Fin f) = Ok (ConstColumn (map Fin f)).
Proof.
  intros Hne Hnc.
  destruct f as [|x0 xs]; [congruence|].
  cbn [map add_constant].
  destruct (feqb _ (Fin 0) && forallb _ _) eqn:E; [|reflexivity].
  exfalso. apply Hnc.
  apply andb_prop in E. destruct E as [E1 E2].
  rewrite np_max_Fin, np_min_Fin in E1. apply feqb_Fin_true in E1.
  destruct (fold_Rmax_bound xs x0) as [M0 Mall].
  destruct (fold_Rmin_bound xs x0) as [m0 mall].
  exists x0. split.
  - rewrite forallb_forall in E2. specialize (E2 (Fin x0) (or_introl eq_refl)).
    intros ->. 
    assert (feqb (Fin 0) (Fin 0) = true) by (apply feqb_Fin_true; reflexivity).
    rewrite H in E2. discriminate.
  - constructor; [reflexivity|].
    rewrite Forall_forall in *. intros v Hv.
    specialize (Mall v Hv). specialize (mall v Hv). lra.
Qed.

(** ** Detrending a series that is linear in the forcing *)

Lemma Rsum_map_ext_in (g h : R -> R) (xs : list R) :
  (forall v, In v xs -> g v = h v) -> Rsum (map g xs) = Rsum (map h xs).
Proof.
  intros E. unfold Rsum. f_equal. apply map_ext_in, E.
Qed.

Lemma INR_length_nonzero {A} (xs : list A) : xs <> [] -> INR (List.length xs) <> 0.
Proof.
  intros Hne. apply not_0_INR. destruct xs; [congruence | discriminate].
Qed.

(** The fitted parameters when [y = a * f + c] and a column of ones is part
    of the design: intercept [c], and slope [a] unless [f] is zero
    throughout. *)
Lemma pinv_exact_linear (f : list R) (a c : R) :
  f <> [] -> ~ nonzero_constant f ->
  exists b1,
    map (fun row => Rdot row (map (fun v => a * v + c) f)) (pinv_rows true f)
    = [c; b1] /\
    forall v, In v f -> v * b1 = a * v.
Proof.
  intros Hne Hnc.
  pose proof (INR_length_nonzero f Hne) as Hn.
  unfold pinv_rows.
  destruct (Req_dec_T (Rsxx f) 0) as [Hz|Hnz].
  - (* no spread: [f] is constant, hence zero *)
    pose proof (Rsxx_zero_constant f Hz) as Hconst.
    assert (Hm : Rmean f = 0).
    { destruct (Req_dec_T (Rmean f) 0) as [E|E]; [exact E|].
      exfalso. apply Hnc. exists (Rmean f). split; assumption. }
    rewrite Hm in *. exists 0. split.
    + cbn [map]. rewrite !Rdot_map.
      rewrite (Rsum_map_ext_in _ (fun v => c / INR (List.length f) + 0 * v + 0 * (v * v))).
      * rewrite (Rsum_map_ext_in (fun v => 0 / _ * _) (fun v => 0 + 0 * v + 0 * (v * v))).
        -- rewrite !Rsum_quadratic. f_equal; [field; nonzero | f_equal; ring].
        -- intros v _. field; nonzero.
      * intros v Hv. rewrite Forall_forall in Hconst. rewrite (Hconst v Hv).
        field; nonzero.
    + intros v Hv. rewrite Forall_forall in Hconst. rewrite (Hconst v Hv). ring.
  - (* full rank *)
    exists a. split; [|intros; ring].
    cbn [map]. rewrite !Rdot_map.
    pose proof (Rsxx_moments f Hne) as HD.
    set (D := Rsxx f) in *. set (m := Rmean f).
    assert (Hmean : m = Rsum f / INR (List.length f)) by reflexivity.
    rewrite (Rsum_map_ext _
      (fun v => (c / INR (List.length f) + m * m * c / D)
                + (a / INR (List.length f) + m * m * a / D - m * c / D) * v
                + (- m * a / D) * (v * v)))
      by (intros v; field; nonzero).
    rewrite (Rsum_map_ext (fun v => (v - m) / D * (a * v + c))
      (fun v => (- m * c / D) + ((c - m * a) / D) * v + (a / D) * (v * v)))
      by (intros v; field; nonzero).
    rewrite !Rsum_quadratic.
    set (s1 := Rsum f) in *. set (s2 := Rsum (map (fun v => v * v) f)) in *.
    set (n := INR (List.length f)) in *.
    clearbody s1 s2 n D m. subst m.
    assert (Hs2 : s2 = D + s1 * s1 / n) by lra.
    subst s2.
    f_equal; [field; nonzero | f_equal; field; nonzero].
Qed.

(** The fit of a series that is exactly [a * f + c]: intercept [c], and
    residuals that are all zero. *)
Lemma regress_exact_linear (f : list R) (a c : R) :
  f <> [] -> ~ nonzero_constant f ->
  exists b1,
    regress (map (fun v => Fin (a * v + c)) f) (map Fin f)
    = Ok {| params := [Fin c; Fin b1]; resid := map (fun _ => Fin 0) f |}.
Proof.
  intros Hne Hnc.
  destruct (pinv_exact_linear f a c Hne Hnc) as (b1 & Hbeta & Hb1).
  exists b1. unfold regress.
  rewrite add_constant_adds by assumption. cbn [bind].
  rewrite <- (map_map (fun v => a * v + c) Fin).
  rewrite (OLS_fit_finite true) by (rewrite ?length_map; auto).
  rewrite Hbeta. cbn [map]. f_equal. f_equal.
  unfold exog_rows. rewrite map_map, combine_map_same, map_map.
  apply map_ext_in. intros v Hv. f_equal. cbn [fst snd].
  unfold Rdot. cbn. rewrite (Hb1 v Hv). ring.
Qed.

(** On such a series [remove_volcano] returns zeros. *)
Lemma remove_volcano_exact_linear (f : list R) (a c : R) :
  f <> [] -> ~ nonzero_constant f ->
  remove_volcano (map (fun v => Fin (a * v + c)) f) (map Fin f)
    = Ok (map (fun _ => Fin 0) f).
Proof.
  intros Hne Hnc.
  destruct (regress_exact_linear f a c Hne Hnc) as [b1 Hfit].
  unfold regress in Hfit. unfold remove_volcano.
  destruct (add_constant (map Fin f)) as [X|e]; [|discriminate Hfit].
  cbn [bind] in *. now rewrite Hfit.
Qed.

(** C8, amended: on a series that is exactly [a * f + c], residuals plus
    fitted intercept give the constant [c] (the residuals are all zero), for
    every non-empty forcing series [f] other than a non-zero constant one. *)
Theorem detrend_exact_linear (f : list R) (a c : R) :
  f <> [] -> ~ nonzero_constant f ->
  detrend (map (fun v => Fin (a * v + c)) f) (map Fin f)
    = Ok (map (fun _ => Fin c) f).
Proof.
  intros Hne Hnc.
  destruct (regress_exact_linear f a c Hne Hnc) as [b1 Hfit].
  unfold detrend. rewrite Hfit. cbn [bind].
  unfold adjusted, params0. cbn [params bind resid].
  unfold np_add_scalar. rewrite map_map. f_equal.
  apply map_ext. intros v. cbn. f_equal. lra.
Qed.

Lemma nonconstant_01 : ~ nonzero_constant [0; 1].
Proof.
  intros (k & Hk & Hall).
  inversion Hall as [|? ? H0 _]. subst. lra.
Qed.

Lemma detrend_exact_linear_witness :
  [0; 1] <> [] /\ ~ nonzero_constant [0; 1] /\
  detrend (map (fun v => Fin (2 * v + 5)) [0; 1]) (map Fin [0; 1])
    = Ok (map (fun _ => Fin 5) [0; 1]).
Proof.
  split; [discriminate|]. split; [exact nonconstant_01|].
  apply (detrend_exact_linear [0; 1] 2 5); [discriminate | exact nonconstant_01].
Defined.

(** C8, as stated, fails on a forcing that is a non-zero constant:
    [add_constant] then adds no column of ones, [params[0]] is the coefficient
    of the forcing and not an intercept, and the series [1 * f + 0] with
    [f = [1; 1]] comes back as [[1; 1]], not as the constant 0. *)
Lemma detrend_constant_forcing :
  detrend (map (fun v => Fin (1 * v + 0)) [1; 1]) (map Fin [1; 1])
    = Ok [Fin 1; Fin 1] /\
  detrend (map (fun v => Fin (1 * v + 0)) [1; 1]) (map Fin [1; 1])
    <> Ok (map (fun _ => Fin 0) [1; 1]).
Proof.
  assert (H : detrend (map (fun v => Fin (1 * v + 0)) [1; 1]) (map Fin [1; 1])
              = Ok [Fin 1; Fin 1]).
  { unfold detrend, regress.
    rewrite add_constant_skips;
      [| discriminate
       | exists 1; split; [lra | repeat constructor] ].
    cbn [bind].
    rewrite <- (map_map (fun v => 1 * v + 0) Fin).
    rewrite (OLS_fit_finite false) by (auto; discriminate).
    cbn [bind]. unfold pinv_rows.
    destruct (Req_dec_T _ 0) as [E|E]; [cbn in E; lra|].
    unfold adjusted, params0. cbn.
    repeat f_equal; field. }
  split; [exact H|]. rewrite H. intros E. injection E as E _. lra.
Qed.

(** ** Windows of [compute_cox] *)

Lemma cox_starts_seq (x : list float) :
  cox_starts x = seq 0 (List.length x - 55).
Proof.
  unfold cox_starts, arange. f_equal. lia.
Qed.

Lemma cox_psi_vals_length (x : list float) :
  List.length (cox_psi_vals x) = (List.length x - 55)%nat.
Proof.
  unfold cox_psi_vals. now rewrite length_map, cox_starts_seq, length_seq.
Qed.

Lemma compute_cox_short (x : list float) :
  (List.length (strip_nan x) <= 55)%nat -> compute_cox x = NaN.
Proof.
  intros Hn. unfold compute_cox, cox_psi_vals.
  rewrite cox_starts_seq.
  replace (List.length (strip_nan x) - 55)%nat with 0%nat by lia.
  apply np_nanmean_nil.
Qed.

(** C4 (the code departs from the claim): on [n >= 55] clean points the loop
    of [compute_cox] visits the start indices [0 .. n-56], that is [n - 55]
    windows and not [n - 54]; the window that ends on the last point (start
    index [n - 55]) is never formed, and a series of exactly 55 clean points
    gives no window at all, hence nan. *)
Theorem compute_cox_window_count (x : list float) :
  (55 <= List.length (strip_nan x))%nat ->
  let n := List.length (strip_nan x) in
  cox_starts (strip_nan x) = seq 0 (n - 55) /\
  List.length (cox_psi_vals (strip_nan x)) = (n - 55)%nat /\
  ~ In (n - 55)%nat (cox_starts (strip_nan x)) /\
  (n = 55%nat -> compute_cox x = NaN).
Proof.
  intros Hn n. repeat split.
  - apply cox_starts_seq.
  - apply cox_psi_vals_length.
  - rewrite cox_starts_seq, in_seq. fold n. lia.
  - intros Hn'. apply compute_cox_short. fold n. lia.
Qed.

Lemma compute_cox_window_count_witness :
  (55 <= List.length (strip_nan (positions 55)))%nat /\
  cox_starts (strip_nan (positions 55)) = [] /\
  compute_cox (positions 55) = NaN.
Proof.
  assert (Hn : (55 <= List.length (strip_nan (positions 55)))%nat)
    by (vm_compute; lia).
  destruct (compute_cox_window_count (positions 55) Hn) as (Hs & _ & _ & Hc).
  split; [exact Hn | split; [exact Hs | apply Hc; reflexivity]].
Defined.

(** ** Blocks of [compute_nijsse] *)

Lemma nijsse_loop_stop (fuel : nat) (x : list float) (length i : nat)
    (slopes : list float) :
  (List.length x <= i + length)%nat ->
  nijsse_loop (S fuel) x length i slopes = Some slopes.
Proof.
  intros H. simpl.
  replace (Z.of_nat i <? Z.of_nat (List.length x) - Z.of_nat length)%Z
    with false by (symmetry; apply Z.ltb_ge; lia).
  reflexivity.
Qed.

Lemma nijsse_loop_step (fuel : nat) (x : list float) (length i : nat)
    (slopes : list float) :
  (i + length < List.length x)%nat ->
  nijsse_loop (S fuel) x length i slopes =
  nijsse_loop fuel x length (i + length) (slopes ++ [block_change x length i]).
Proof.
  intros H. simpl.
  replace (Z.of_nat i <? Z.of_nat (List.length x) - Z.of_nat length)%Z
    with true by (symmetry; apply Z.ltb_lt; lia).
  reflexivity.
Qed.

Lemma nijsse_loop_blocks (x : list float) (length : nat) :
  (1 <= length)%nat ->
  forall m j slopes fuel,
    (j + m = (List.length x - 1) / length)%nat ->
    (m < fuel)%nat ->
    nijsse_loop fuel x length (j * length) slopes =
    Some (slopes ++ map (block_change x length)
                        (map (fun k => (k * length)%nat) (seq j m))).
Proof.
  intros HL.
  set (n := List.length x). set (c := ((n - 1) / length)%nat).
  assert (Hlo : (c * length <= n - 1)%nat).
  { rewrite Nat.mul_comm. apply Nat.Div0.mul_div_le. }
  assert (Hhi : (n - 1 < length * S c)%nat).
  { apply Nat.mul_succ_div_gt. lia. }
  induction m as [|m IH]; intros j slopes fuel Hj Hf.
  - destruct fuel as [|fuel]; [lia|].
    rewrite nijsse_loop_stop by (fold n; nia).
    simpl. now rewrite app_nil_r.
  - destruct fuel as [|fuel]; [lia|].
    assert (S j * length <= c * length)%nat by (apply Nat.mul_le_mono_r; lia).
    rewrite nijsse_loop_step by (fold n; nia).
    replace (j * length + length)%nat with (S j * length)%nat by lia.
    rewrite IH by lia.
    rewrite <- app_assoc. reflexivity.
Qed.

(** With a window of at least one point the loop returns, and records one
    block change per start index [0, length, 2*length, ...] below
    [len(x) - length]: there are [(len(x) - 1) / length] of them. *)
Lemma nijsse_slopes_blocks (x : list float) (length : nat) :
  (1 <= length)%nat ->
  nijsse_slopes x length =
  Some (map (block_change (strip_nan x) length)
            (map (fun k => (k * length)%nat)
                 (seq 0 ((List.length (strip_nan x) - 1) / length)))).
Proof.
  intros HL. unfold nijsse_slopes.
  apply (nijsse_loop_blocks (strip_nan x) length HL _ 0%nat []); [reflexivity|].
  apply Nat.lt_succ_r.
  transitivity (List.length (strip_nan x) - 1)%nat; [|lia].
  apply Nat.Div0.div_le_upper_bound. nia.
Qed.

Lemma exact_blocks_div (k length : nat) :
  (1 <= k)%nat -> (1 <= length)%nat ->
  ((k * length - 1) / length = k - 1)%nat.
Proof.
  intros Hk HL. symmetry.
  apply (Nat.div_unique _ _ _ (length - 1)); [lia | nia].
Qed.

(** C5 (the code departs from the claim): when the window length divides the
    number of clean points, [n = k * length], the loop of [compute_nijsse]
    records [k - 1] block changes, those of the blocks starting at
    [0, length, ..., (k-2)*length]; the last full block is left out. *)
Theorem compute_nijsse_exact_blocks (x : list float) (length k : nat) :
  (1 <= length)%nat -> (1 <= k)%nat ->
  List.length (strip_nan x) = (k * length)%nat ->
  nijsse_slopes x length =
    Some (map (block_change (strip_nan x) length)
              (map (fun j => (j * length)%nat) (seq 0 (k - 1)))) /\
  compute_nijsse x length =
    Some (np_nanstd (map (block_change (strip_nan x) length)
                         (map (fun j => (j * length)%nat) (seq 0 (k - 1))))) /\
  (k - 1 < List.length (strip_nan x) / length)%nat.
Proof.
  intros HL Hk Hn.
  assert (Hs : nijsse_slopes x length =
    Some (map (block_change (strip_nan x) length)
              (map (fun j => (j * length)%nat) (seq 0 (k - 1))))).
  { assert (Hc : ((List.length (strip_nan x) - 1) / length = k - 1)%nat)
      by (rewrite Hn; apply exact_blocks_div; assumption).
    rewrite nijsse_slopes_blocks by lia.
    now rewrite Hc. }
  repeat split.
  - exact Hs.
  - unfold compute_nijsse. now rewrite Hs.
  - rewrite Hn, Nat.div_mul by lia. lia.
Qed.

Lemma compute_nijsse_exact_blocks_witness :
  List.length (strip_nan (positions 20)) = (2 * 10)%nat /\
  nijsse_slopes (positions 20) 10 =
    Some [block_change (strip_nan (positions 20)) 10 0].
Proof.
  assert (Hn : List.length (strip_nan (positions 20)) = (2 * 10)%nat)
    by reflexivity.
  split; [exact Hn|].
  apply (compute_nijsse_exact_blocks (positions 20) 10 2);
    [lia | lia | exact Hn].
Defined.

Lemma compute_nijsse_short (x : list float) (length : nat) :
  (List.length (strip_nan x) < length)%nat -> compute_nijsse x length = Some NaN.
Proof.
  intros Hn. unfold compute_nijsse, nijsse_slopes.
  rewrite nijsse_loop_stop by lia.
  simpl. now rewrite np_nanstd_nil.
Qed.

(** C10: a series with too few clean points for a single window gives nan,
    for both metrics: each call returns, and returns not-a-number. *)
Theorem metrics_nan_on_short_series (x : list float) :
  ((List.length (strip_nan x) < 55)%nat -> compute_cox x = NaN) /\
  (forall length,
      (List.length (strip_nan x) < length)%nat ->
      compute_nijsse x length = Some NaN).
Proof.
  split.
  - intros Hn. apply compute_cox_short. lia.
  - intros length Hn. now apply compute_nijsse_short.
Qed.

Lemma metrics_nan_on_short_series_witness :
  (List.length (strip_nan [Fin 1; NaN; Fin 2]) < 55)%nat /\
  (List.length (strip_nan [Fin 1; NaN; Fin 2]) < 10)%nat /\
  compute_cox [Fin 1; NaN; Fin 2] = NaN /\
  compute_nijsse [Fin 1; NaN; Fin 2] 10 = Some NaN.
Proof.
  assert (H55 : (List.length (strip_nan [Fin 1; NaN; Fin 2]) < 55)%nat)
    by (simpl; lia).
  assert (H10 : (List.length (strip_nan [Fin 1; NaN; Fin 2]) < 10)%nat)
    by (simpl; lia).
  destruct (metrics_nan_on_short_series [Fin 1; NaN; Fin 2]) as [Hc Hn].
  split; [exact H55 | split; [exact H10 | split; [apply Hc, H55 | apply Hn, H10]]].
Defined.

(** ** The trend metric on finite data *)

Lemma strip_nan_Fin (rs : list R) : strip_nan (map Fin rs) = map Fin rs.
Proof.
  unfold strip_nan. induction rs as [|r rs IH]; simpl; [reflexivity | now rewrite IH].
Qed.

Lemma np_mean_Fin (rs : list R) :
  rs <> [] -> np_mean (map Fin rs) = Fin (Rmean rs).
Proof.
  intros Hne. unfold np_mean, of_nat, Rmean.
  rewrite fsum_Fin, length_map. apply fdiv_Fin, INR_length_nonzero, Hne.
Qed.

Lemma sum_dev_Fin (xs ys : list R) :
  xs <> [] -> ys <> [] ->
  sum_dev (map Fin xs) (map Fin ys) =
  Fin (Rsum (map (fun p => (fst p + - Rmean xs) * (snd p + - Rmean ys))
                 (combine xs ys))).
Proof.
  intros Hx Hy. unfold sum_dev. rewrite !np_mean_Fin by assumption.
  rewrite <- fsum_Fin. f_equal.
  revert ys Hy. clear Hx. generalize (Rmean xs) as mx.
  intros mx ys _. generalize (Rmean ys) as my. intros my.
  revert ys. induction xs as [|x xs IH]; intros [|y ys]; simpl; try reflexivity.
  now rewrite IH.
Qed.

Lemma combine_same {A} (xs : list A) : combine xs xs = map (fun v => (v, v)) xs.
Proof. induction xs as [|x xs IH]; simpl; [reflexivity | now rewrite IH]. Qed.

(** The positions [0 .. n-1] of a block of at least two points have spread. *)
Lemma positions_spread (n : nat) :
  (2 <= n)%nat ->
  exists d, sum_dev (positions n) (positions n) = Fin d /\ d <> 0.
Proof.
  intros Hn. unfold positions, of_nat. rewrite <- (map_map INR Fin).
  set (xs := map INR (seq 0 n)).
  assert (Hne : xs <> []).
  { unfold xs. destruct n; [lia | discriminate]. }
  rewrite sum_dev_Fin by assumption. eexists. split; [reflexivity|].
  rewrite combine_same, map_map. cbn [fst snd]. intros Hz.
  apply (Rsum_squares_zero (fun v => v + - Rmean xs)) in Hz.
  rewrite Forall_forall in Hz.
  assert (H0 : In (INR 0) xs) by (apply in_map, in_seq; lia).
  assert (H1 : In (INR 1) xs) by (apply in_map, in_seq; lia).
  apply Hz in H0. apply Hz in H1. simpl in H0, H1. lra.
Qed.

Lemma slice_Fin (rs : list R) (i j : nat) :
  slice (map Fin rs) i j = map Fin (slice rs i j).
Proof. unfold slice. now rewrite skipn_map, firstn_map. Qed.

Lemma slice_length {A} (l : list A) (i k : nat) :
  (i + k <= List.length l)%nat -> List.length (slice l i (i + k)) = k.
Proof.
  intros H. unfold slice. rewrite length_firstn, length_skipn. lia.
Qed.

Lemma block_change_Fin (rs : list R) (length i : nat) :
  (2 <= length)%nat -> (i + length <= List.length rs)%nat ->
  exists r, block_change (map Fin rs) length i = Fin r.
Proof.
  intros HL Hi. unfold block_change, linregress_slope, ls_slope.
  destruct (positions_spread length HL) as (d & -> & Hd).
  rewrite slice_Fin.
  assert (Hblk : slice rs i (i + length) <> []).
  { intros E. pose proof (slice_length rs i length Hi) as Hl.
    rewrite E in Hl. simpl in Hl. lia. }
  unfold positions at 1, of_nat. rewrite <- (map_map INR Fin).
  rewrite sum_dev_Fin;
    [| destruct length; [lia | discriminate] | exact Hblk].
  rewrite fdiv_Fin by exact Hd. eexists. reflexivity.
Qed.

Lemma Rsum_nonneg (xs : list R) : Forall (fun v => 0 <= v) xs -> 0 <= Rsum xs.
Proof.
  induction 1 as [|v xs Hv _ IH]; simpl; [lra|]. fold (Rsum xs). lra.
Qed.

Lemma np_std_Fin (rs : list R) :
  rs <> [] -> exists r, np_std (map Fin rs) = Fin r.
Proof.
  intros Hne. unfold np_std. rewrite np_mean_Fin by assumption.
  rewrite map_map. cbn [fsub fneg fadd fabs fmul].
  rewrite <- (map_map (fun v => Rabs (v + - Rmean rs) * Rabs (v + - Rmean rs)) Fin).
  rewrite np_mean_Fin by (destruct rs; [congruence | discriminate]).
  set (var := Rmean _).
  assert (Hvar : 0 <= var).
  { unfold var, Rmean. apply Rmult_le_pos.
    - apply Rsum_nonneg, Forall_forall. intros v Hv.
      apply in_map_iff in Hv. destruct Hv as (x & <- & _).
      apply Rmult_le_pos; apply Rabs_pos.
    - left. apply Rinv_0_lt_compat, lt_0_INR.
      rewrite length_map. destruct rs; [congruence | simpl; lia]. }
  simpl. destruct (Rsign var) eqn:Es; try (eexists; reflexivity).
  exfalso. unfold Rsign in Es.
  destruct (total_order_T var 0) as [[H|H]|H]; try discriminate. lra.
Qed.

Lemma map_finite {A} (f : A -> float) (l : list A) :
  l <> [] -> (forall x, In x l -> exists r, f x = Fin r) ->
  exists ss, ss <> [] /\ map f l = map Fin ss.
Proof.
  intros Hne Hall.
  assert (H : exists ss, map f l = map Fin ss).
  { clear Hne. induction l as [|x l IH]; [exists []; reflexivity|].
    destruct (Hall x (or_introl eq_refl)) as [r Hr].
    destruct IH as [ss Hss]; [intros y Hy; apply Hall; now right|].
    exists (r :: ss). cbn [map]. now rewrite Hr, Hss. }
  destruct H as [ss Hss]. exists ss. split; [|exact Hss].
  intros ->. destruct l; [congruence | discriminate].
Qed.

(** On a series of finite values with at least one full block before the
    last point, [compute_nijsse] with windows of 10 returns a real number. *)
Lemma compute_nijsse_finite (rs : list R) :
  (11 <= List.length rs)%nat ->
  exists r, compute_nijsse (map Fin rs) 10 = Some (Fin r).
Proof.
  intros Hn. unfold compute_nijsse.
  rewrite nijsse_slopes_blocks by lia. rewrite strip_nan_Fin, length_map.
  set (c := ((List.length rs - 1) / 10)%nat).
  assert (Hc : (1 <= c)%nat) by (apply Nat.div_le_lower_bound; lia).
  assert (Hlo : (10 * c <= List.length rs - 1)%nat) by (apply Nat.Div0.mul_div_le).
  assert (Hfin : exists ss, ss <> [] /\
            map (block_change (map Fin rs) 10) (map (fun k => (k * 10)%nat) (seq 0 c))
            = map Fin ss).
  { apply map_finite.
    - destruct c; [lia | discriminate].
    - intros i Hi. apply in_map_iff in Hi. destruct Hi as (k & <- & Hk).
      apply in_seq in Hk. apply block_change_Fin; lia. }
  destruct Hfin as (ss & Hne & ->).
  cbn [option_map]. unfold np_nanstd. rewrite strip_nan_Fin.
  destruct (np_std_Fin ss Hne) as [r ->]. eauto.
Qed.

(** ** The regression returns on aligned, finite data *)

Lemma add_constant_shape (X : list float) :
  X <> [] ->
  add_constant X = Ok (Column X) \/ add_constant X = Ok (ConstColumn X).
Proof.
  intros Hne. destruct X as [|x0 xs]; [congruence|].
  unfold add_constant.
  destruct (feqb _ _ && forallb _ _); [left | right]; reflexivity.
Qed.

Lemma add_constant_inv (X : list float) (E : exog) :
  add_constant X = Ok E -> X <> [] /\ exog_data E = X.
Proof.
  intros H. destruct X as [|x0 xs]; [discriminate|].
  split; [discriminate|].
  destruct (add_constant_shape (x0 :: xs)) as [H'|H']; try discriminate;
    rewrite H' in H; inversion H; reflexivity.
Qed.

Lemma finite_values_length (x : list float) (xr : list R) :
  finite_values x = Some xr -> List.length xr = List.length x.
Proof.
  revert xr. induction x as [|v x IH]; intros xr H; simpl in H.
  - injection H as <-. reflexivity.
  - destruct v; try discriminate.
    destruct (finite_values x) as [xr'|]; [|discriminate].
    injection H as <-. simpl. f_equal. now apply IH.
Qed.

Lemma pinv_rows_first (constant : bool) (x : list R) :
  exists row rows, pinv_rows constant x = row :: rows.
Proof.
  unfold pinv_rows.
  destruct constant; destruct (Req_dec_T _ 0); eexists; eexists; reflexivity.
Qed.

Lemma length_combine_same {A B} (l : list A) (l' : list B) :
  List.length l = List.length l' -> List.length (combine l l') = List.length l.
Proof. intros H. rewrite length_combine, <- H. apply Nat.min_id. Qed.

(** Whatever [OLS_fit] returns has one residual per point of [y] and a first
    parameter. *)
Lemma OLS_fit_inv (y : list float) (E : exog) (reg : regression) :
  OLS_fit y E = Ok reg ->
  List.length y = List.length (exog_data E) /\
  List.length (resid reg) = List.length y /\
  exists p0, params0 reg = Ok p0.
Proof.
  unfold OLS_fit. intros H.
  destruct (exog_data E) as [|x0 xs] eqn:Hx; [discriminate|].
  destruct (isfinite (np_max x0 xs)); cbn [negb] in H; [|discriminate].
  destruct (List.length y =? List.length (x0 :: xs))%nat eqn:Hlen;
    cbn [negb] in H; [|discriminate].
  apply Nat.eqb_eq in Hlen.
  destruct (finite_values (x0 :: xs)) as [xr|] eqn:Hf; [|discriminate].
  injection H as <-. cbn [resid params].
  apply finite_values_length in Hf.
  split; [exact Hlen|]. split.
  - rewrite length_map. apply length_combine_same.
    unfold exog_rows. rewrite !length_map. congruence.
  - unfold params0. cbn [params].
    destruct (pinv_rows_first
                match E with ConstColumn _ => true | Column _ => false end xr)
      as (row & rows & ->).
    eexists. reflexivity.
Qed.

Lemma OLS_fit_returns (y : list float) (E : exog) (xr : list R) :
  List.length y = List.length (exog_data E) ->
  exog_data E <> [] ->
  finite_values (exog_data E) = Some xr ->
  exists reg, OLS_fit y E = Ok reg.
Proof.
  intros Hlen Hne Hf. rewrite (OLS_fit_design_finite y E xr Hne Hf).
  rewrite Hlen, Nat.eqb_refl. cbn [negb]. eexists. reflexivity.
Qed.

Lemma regress_inv (y X : list float) (reg : regression) :
  regress y X = Ok reg ->
  List.length y = List.length X /\
  List.length (resid reg) = List.length y /\
  exists p0, params0 reg = Ok p0.
Proof.
  unfold regress. intros H.
  destruct (add_constant X) as [E|e] eqn:HE; [|discriminate].
  cbn [bind] in H. apply add_constant_inv in HE. destruct HE as [_ HE].
  apply OLS_fit_inv in H. now rewrite HE in H.
Qed.

Lemma regress_returns (y X : list float) (xr : list R) :
  List.length y = List.length X -> X <> [] -> finite_values X = Some xr ->
  exists reg, regress y X = Ok reg.
Proof.
  intros Hlen Hne Hf. unfold regress.
  destruct (add_constant_shape X Hne) as [H|H]; rewrite H; cbn [bind];
    apply (OLS_fit_returns y _ xr); assumption.
Qed.

Lemma np_add_scalar_length (a : list float) (v : float) :
  List.length (np_add_scalar a v) = List.length a.
Proof. apply length_map. Qed.

(** ** [compute_nijsse] with its default window returns *)

Lemma compute_nijsse_default_returns (x : list float) :
  exists v, compute_nijsse_default x = Ok v.
Proof.
  unfold compute_nijsse_default, compute_nijsse.
  rewrite nijsse_slopes_blocks by lia. eexists. reflexivity.
Qed.

(** ** The dictionary of adjusted series *)

Lemma dict_get_set (d : columns) (name : string) (v : list float) :
  dict_get (dict_set d name v) name = Some v.
Proof.
  induction d as [|[k w] d IH]; simpl.
  - now rewrite String.eqb_refl.
  - destruct (String.eqb k name) eqn:E; simpl; rewrite E; [reflexivity | exact IH].
Qed.

(** ** The two branches of the loop body *)

Lemma past1000_branch_inv (t : list EcsTable.row) (name : string)
    (ts X : list float) (st st' : state) :
  past1000_branch t name ts X st = Ok st' ->
  exists adj e n0 n1,
    detrend (firstn 1001 ts) X = Ok adj /\
    List.length adj = List.length (firstn 1001 ts) /\
    ecs_lookup t name = Ok e /\
    compute_nijsse_default ts = Ok n0 /\
    compute_nijsse_default (adj ++ skipn 1001 ts) = Ok n1 /\
    st' = appended st name e ts (adj ++ skipn 1001 ts) (adj ++ skipn 1001 ts) n0 n1.
Proof.
  unfold past1000_branch. intros H.
  bind_inv H. rename a into reg.
  bind_inv H. rename a into e.
  bind_inv H. rename a into p0.
  bind_inv H. rename a into n0.
  bind_inv H. rename a into n1.
  injection H as <-.
  destruct (regress_inv _ _ _ E) as (_ & Hlen & _).
  exists (np_add_scalar (resid reg) p0), e, n0, n1.
  repeat split; try assumption.
  - unfold detrend, adjusted. rewrite E. cbn [bind]. now rewrite E1.
  - now rewrite np_add_scalar_length.
Qed.

Lemma crowley_00_branch_inv (t : list EcsTable.row) (name : string)
    (ts X : list float) (st st' : state) :
  crowley_00_branch t name ts X st = Ok st' ->
  exists adj e n0 n1,
    detrend (skipn 151 ts) X = Ok adj /\
    List.length adj = List.length (skipn 151 ts) /\
    ecs_lookup t name = Ok e /\
    compute_nijsse_default ts = Ok n0 /\
    compute_nijsse_default adj = Ok n1 /\
    st' = appended st name e ts adj (firstn 151 ts ++ adj) n0 n1.
Proof.
  unfold crowley_00_branch. intros H.
  bind_inv H. rename a into reg.
  bind_inv H. rename a into e.
  bind_inv H. rename a into p0.
  bind_inv H. rename a into n0.
  bind_inv H. rename a into n1.
  injection H as <-.
  destruct (regress_inv _ _ _ E) as (_ & Hlen & _).
  exists (np_add_scalar (resid reg) p0), e, n0, n1.
  repeat split; try assumption.
  - unfold detrend, adjusted. rewrite E. cbn [bind]. now rewrite E1.
  - now rewrite np_add_scalar_length.
Qed.

Lemma past1000_branch_returns (t : list EcsTable.row) (name : string)
    (ts X : list float) (st : state) (e : float) :
  aligned (firstn 1001 ts) X -> ecs_lookup t name = Ok e ->
  exists st', past1000_branch t name ts X st = Ok st'.
Proof.
  intros (Hlen & Hne & xr & Hf) He. unfold past1000_branch.
  destruct (regress_returns _ _ _ Hlen Hne Hf) as [reg Hreg].
  destruct (regress_inv _ _ _ Hreg) as (_ & _ & p0 & Hp0).
  rewrite Hreg, He. cbn [bind]. rewrite Hp0. cbn [bind].
  destruct (compute_nijsse_default_returns ts) as [n0 ->]. cbn [bind].
  destruct (compute_nijsse_default_returns
              (np_add_scalar (resid reg) p0 ++ skipn 1001 ts)) as [n1 ->].
  cbn [bind]. eexists. reflexivity.
Qed.

Lemma crowley_00_branch_returns (t : list EcsTable.row) (name : string)
    (ts X : list float) (st : state) (e : float) :
  aligned (skipn 151 ts) X -> ecs_lookup t name = Ok e ->
  exists st', crowley_00_branch t name ts X st = Ok st'.
Proof.
  intros (Hlen & Hne & xr & Hf) He. unfold crowley_00_branch.
  destruct (regress_returns _ _ _ Hlen Hne Hf) as [reg Hreg].
  destruct (regress_inv _ _ _ Hreg) as (_ & _ & p0 & Hp0).
  rewrite Hreg, He. cbn [bind]. rewrite Hp0. cbn [bind].
  destruct (compute_nijsse_default_returns ts) as [n0 ->]. cbn [bind].
  destruct (compute_nijsse_default_returns (np_add_scalar (resid reg) p0))
    as [n1 ->].
  cbn [bind]. eexists. reflexivity.
Qed.

(** ** The loop body *)

Lemma forcings_known (i : nat) (f : string) :
  list_index forcings i = Ok f ->
  f = "gao" \/ f = "crowley_00" \/ f = "crowley_08" \/ f = "evolv2k".
Proof.
  unfold list_index. destruct (nth_error forcings i) as [g|] eqn:E; [|discriminate].
  intros H. injection H as <-. apply nth_error_In in E.
  unfold forcings in E. simpl in E.
  repeat (destruct E as [<-|E]; [tauto|]). contradiction.
Qed.

(** A pass of the loop that returns has run one of the two branches for the
    model of that index. *)
Lemma process_model_inv (F : forcing_data) (df : columns)
    (t : list EcsTable.row) (st st' : state) (i : nat) :
  process_model F df t st i = Ok st' ->
  exists name ts,
    list_index (model_keys df) i = Ok name /\
    df_column df name = Ok ts /\
    ((exists X, past1000_branch t name ts X st = Ok st') \/
     (String.eqb name "HadCM3" = false /\
      list_index forcings i = Ok "crowley_00" /\
      crowley_00_branch t name ts (crowley_2000_forcing F) st = Ok st')).
Proof.
  unfold process_model. intros H.
  bind_inv H. rename a into name.
  bind_inv H. rename a into ts.
  exists name, ts. split; [reflexivity|]. split; [exact E0|].
  destruct (String.eqb name "HadCM3") eqn:Hhad; [left; eauto|].
  bind_inv H. rename a into f.
  destruct (forcings_known i f E1) as [-> | [-> | [-> | ->]]];
    cbn in H; eauto.
Qed.

Lemma process_model_returns (F : forcing_data) (df : columns)
    (t : list EcsTable.row) (st : state) (i : nat)
    (name : string) (ts : list float) (e : float) :
  list_index (model_keys df) i = Ok name ->
  df_column df name = Ok ts ->
  (i < 18)%nat \/ name = "HadCM3" ->
  forcing_aligned F ts ->
  ecs_lookup t name = Ok e ->
  exists st', process_model F df t st i = Ok st'.
Proof.
  intros Hname Hts Hi (Hgao & Hc08 & Hev & Hc00) He.
  unfold process_model. rewrite Hname. cbn [bind]. rewrite Hts. cbn [bind].
  destruct (String.eqb name "HadCM3") eqn:Hhad.
  - eapply past1000_branch_returns; eassumption.
  - assert (Hi' : (i < 18)%nat).
    { destruct Hi as [Hi|Hi]; [exact Hi|].
      subst name. discriminate Hhad. }
    destruct (list_index forcings i) as [f|] eqn:Hf.
    + cbn [bind].
      destruct (forcings_known i f Hf) as [-> | [-> | [-> | ->]]]; cbn;
        first [ eapply past1000_branch_returns; eassumption
              | eapply crowley_00_branch_returns; eassumption ].
    + exfalso. unfold list_index in Hf.
      destruct (nth_error forcings i) eqn:E; [discriminate|].
      apply nth_error_None in E. simpl in E. lia.
Qed.

Lemma firstn_skipn_length {A} (n : nat) (l : list A) :
  (List.length (firstn n l) + List.length (skipn n l))%nat = List.length l.
Proof. rewrite <- length_app, firstn_skipn. reflexivity. Qed.

(** The series a pass of the loop stores in [df_rv] for its model is as long
    as that model's original series, in both branches. *)
Lemma process_model_length (F : forcing_data) (df : columns)
    (t : list EcsTable.row) (st st' : state) (i : nat) :
  process_model F df t st i = Ok st' ->
  exists name ts col,
    list_index (model_keys df) i = Ok name /\
    df_column df name = Ok ts /\
    df_rv st' = dict_set (df_rv st) name col /\
    List.length col = List.length ts.
Proof.
  intros H.
  destruct (process_model_inv _ _ _ _ _ _ H)
    as (name & ts & Hname & Hts & [[X HX] | (_ & _ & HX)]);
    exists name, ts.
  - destruct (past1000_branch_inv _ _ _ _ _ _ HX)
      as (adj & e & n0 & n1 & _ & Hlen & _ & _ & _ & ->).
    exists (adj ++ skipn 1001 ts).
    split; [exact Hname|]. split; [exact Hts|]. split; [reflexivity|].
    rewrite length_app, Hlen. apply firstn_skipn_length.
  - destruct (crowley_00_branch_inv _ _ _ _ _ _ HX)
      as (adj & e & n0 & n1 & _ & Hlen & _ & _ & _ & ->).
    exists (firstn 151 ts ++ adj).
    split; [exact Hname|]. split; [exact Hts|]. split; [reflexivity|].
    rewrite length_app, Hlen. apply firstn_skipn_length.
Qed.

(** ** The sample run *)

Lemma positions_finite (n : nat) :
  finite_values (positions n) = Some (map INR (seq 0 n)).
Proof.
  unfold positions, of_nat. rewrite <- (map_map INR Fin). apply finite_values_Fin.
Qed.

Lemma aligned_positions (y : list float) (n : nat) :
  List.length y = n -> (0 < n)%nat -> aligned y (positions n).
Proof.
  intros Hy Hn. unfold aligned. split; [|split].
  - unfold positions. now rewrite length_map, length_seq.
  - destruct n; [lia | discriminate].
  - eexists. apply positions_finite.
Qed.

Lemma sample_forcing_aligned : forcing_aligned sample_forcing sample_ts.
Proof.
  unfold forcing_aligned, sample_forcing; cbn [gao_2008_forcing crowley_2008_forcing
    evolv2k_forcing crowley_2000_forcing].
  split; [|split; [|split]];
    try (apply aligned_positions; [reflexivity | lia]).
  split; [reflexivity | split; [discriminate | exists [0; 1]; reflexivity]].
Qed.

(** What the pass for a model given the ['crowley_00'] forcing appends: the
    adjusted metrics are those of residuals plus intercept alone, a series of
    [len(ts) - 151] points; the series stored in [df_rv] is that one behind
    the first 151 points of [ts]. *)
Lemma crowley_00_metrics_on_tail (F : forcing_data) (df : columns)
    (t : list EcsTable.row) (st st' : state) (i : nat)
    (name : string) (ts : list float) :
  list_index (model_keys df) i = Ok name ->
  df_column df name = Ok ts ->
  String.eqb name "HadCM3" = false ->
  list_index forcings i = Ok "crowley_00" ->
  process_model F df t st i = Ok st' ->
  exists adj n1,
    detrend (skipn 151 ts) (crowley_2000_forcing F) = Ok adj /\
    rv_cox st' = rv_cox st ++ [compute_cox adj] /\
    compute_nijsse_default adj = Ok n1 /\
    rv_nijsse st' = rv_nijsse st ++ [n1] /\
    dict_get (df_rv st') name = Some (firstn 151 ts ++ adj) /\
    List.length adj = (List.length ts - 151)%nat.
Proof.
  intros Hname Hts Hhad Hf H.
  unfold process_model in H.
  rewrite Hname in H. cbn [bind] in H. rewrite Hts in H. cbn [bind] in H.
  rewrite Hhad, Hf in H. cbn in H.
  destruct (crowley_00_branch_inv _ _ _ _ _ _ H)
    as (adj & e & n0 & n1 & Hadj & Hlen & _ & _ & Hn1 & ->).
  exists adj, n1. cbn [appended rv_cox rv_nijsse df_rv].
  split; [exact Hadj|].
  split; [reflexivity|]. split; [exact Hn1|]. split; [reflexivity|].
  split; [apply dict_get_set|].
  rewrite Hlen. apply length_skipn.
Qed.

Lemma sample_crowley_00_returns :
  exists st',
    process_model sample_forcing sample_df sample_ecs initial_state 3 = Ok st'.
Proof.
  apply (process_model_returns _ _ _ _ _ "FGOALS-gl" sample_ts (Fin 4.0));
    [reflexivity | reflexivity | left; lia | exact sample_forcing_aligned
     | reflexivity].
Qed.

(** Detrending finite data gives finite data. *)
Lemma detrend_finite (yr xr : list R) :
  List.length yr = List.length xr -> xr <> [] ->
  exists ar, detrend (map Fin yr) (map Fin xr) = Ok (map Fin ar).
Proof.
  intros Hlen Hne. unfold detrend, regress.
  assert (HX : map Fin xr <> []) by (destruct xr; [congruence | discriminate]).
  assert (Hfit : forall constant : bool, exists ar,
             (reg <- OLS_fit (map Fin yr)
                             ((if constant then ConstColumn else Column) (map Fin xr)) ;;
              adjusted reg) = Ok (map Fin ar)).
  { intros constant. rewrite (OLS_fit_finite constant) by assumption.
    cbn [bind]. unfold adjusted, params0. cbn [params resid].
    destruct (pinv_rows_first constant xr) as (row & rows & ->).
    cbn [map bind]. unfold np_add_scalar. rewrite map_map. cbn [fadd].
    eexists. rewrite <- (map_map _ Fin). reflexivity. }
  destruct (add_constant_shape (map Fin xr) HX) as [-> | ->]; cbn [bind].
  - apply (Hfit false).
  - apply (Hfit true).
Qed.

(** C3 (the code departs from the claim): for the model given the
    ['crowley_00'] forcing, [rv_cox] and [rv_nijsse] are computed on residuals
    plus intercept alone and not on the series stored in [df_rv].  On a model
    of 153 finite values the metrics see the 2 regressed points, so that
    [rv_nijsse] is not-a-number, whereas the stored series of 153 points has
    a trend metric that is a real number. *)
Theorem crowley_00_metrics_differ :
  exists st' adj r,
    process_model sample_forcing sample_df sample_ecs initial_state 3 = Ok st' /\
    dict_get (df_rv st') "FGOALS-gl" = Some (firstn 151 sample_ts ++ adj) /\
    List.length adj = 2%nat /\
    rv_cox st' = [compute_cox adj] /\
    rv_nijsse st' = [NaN] /\
    compute_nijsse_default (firstn 151 sample_ts ++ adj) = Ok (Fin r).
Proof.
  destruct sample_crowley_00_returns as [st' Hst'].
  destruct (crowley_00_metrics_on_tail sample_forcing sample_df sample_ecs
              initial_state st' 3 "FGOALS-gl" sample_ts)
    as (adj & n1 & Hadj & Hcox & Hn1 & Hnij & Hcol & Hlen);
    [reflexivity | reflexivity | reflexivity | reflexivity | exact Hst' |].
  change (Datatypes.length adj = 2%nat) in Hlen.
  assert (Hfin : exists ar, adj = map Fin ar).
  { destruct (detrend_finite [INR 151; INR 152] [0; 1]) as [ar Har];
      [reflexivity | discriminate |].
    exists ar.
    change (detrend (map Fin [INR 151; INR 152]) (map Fin [0; 1]) = Ok adj) in Hadj.
    congruence. }
  destruct Hfin as [ar ->].
  destruct (compute_nijsse_finite (map INR (seq 0 151) ++ ar)) as [r Hr].
  { rewrite length_app, length_map, length_seq. lia. }
  exists st', (map Fin ar), r.
  split; [exact Hst'|]. split; [exact Hcol|]. split; [exact Hlen|].
  split; [exact Hcox|]. split.
  - rewrite Hnij. cbn [rv_nijsse initial_state app]. f_equal.
    unfold compute_nijsse_default in Hn1.
    rewrite compute_nijsse_short in Hn1; [congruence|].
    rewrite strip_nan_Fin. lia.
  - unfold compute_nijsse_default.
    change (firstn 151 sample_ts) with (map Fin (map INR (seq 0 151))).
    rewrite <- map_app, Hr. reflexivity.
Qed.

(** ** The whole loop and the summary table *)

Lemma process_model_appends (F : forcing_data) (df : columns)
    (t : list EcsTable.row) (st st' : state) (i : nat) :
  process_model F df t st i = Ok st' ->
  exists name ts e col,
    list_index (model_keys df) i = Ok name /\
    df_column df name = Ok ts /\
    ecs_lookup t name = Ok e /\
    ecs_vals st' = ecs_vals st ++ [e] /\
    List.length (original_cox st') = S (List.length (original_cox st)) /\
    List.length (rv_cox st') = S (List.length (rv_cox st)) /\
    List.length (original_nijsse st') = S (List.length (original_nijsse st)) /\
    List.length (rv_nijsse st') = S (List.length (rv_nijsse st)) /\
    df_rv st' = dict_set (df_rv st) name col /\
    List.length col = List.length ts.
Proof.
  intros H.
  destruct (process_model_inv _ _ _ _ _ _ H)
    as (name & ts & Hname & Hts & [[X HX] | (_ & _ & HX)]).
  - destruct (past1000_branch_inv _ _ _ _ _ _ HX)
      as (adj & e & n0 & n1 & _ & Hlen & He & _ & _ & ->).
    exists name, ts, e, (adj ++ skipn 1001 ts).
    cbn [appended ecs_vals original_cox rv_cox original_nijsse rv_nijsse df_rv].
    rewrite !length_app. cbn [List.length].
    repeat (split; [first [assumption | reflexivity | lia]|]).
    rewrite Hlen. apply firstn_skipn_length.
  - destruct (crowley_00_branch_inv _ _ _ _ _ _ HX)
      as (adj & e & n0 & n1 & _ & Hlen & He & _ & _ & ->).
    exists name, ts, e, (firstn 151 ts ++ adj).
    cbn [appended ecs_vals original_cox rv_cox original_nijsse rv_nijsse df_rv].
    rewrite !length_app. cbn [List.length].
    repeat (split; [first [assumption | reflexivity | lia]|]).
    rewrite Hlen. apply firstn_skipn_length.
Qed.

Lemma skipn_nth_error {A} (l : list A) (a : nat) (x : A) :
  nth_error l a = Some x -> skipn a l = x :: skipn (S a) l.
Proof.
  revert a. induction l as [|y l IH]; intros [|a] H; simpl in H; try discriminate.
  - injection H as ->. reflexivity.
  - rewrite skipn_cons. apply IH, H.
Qed.

Lemma list_index_inv {A} (l : list A) (i : nat) (x : A) :
  list_index l i = Ok x -> nth_error l i = Some x.
Proof.
  unfold list_index. destruct (nth_error l i); [|discriminate].
  intros H. now injection H as ->.
Qed.

(** What the loop has appended once it has run over the indices
    [a, ..., a + k - 1]: one ECS value per model, looked up by its name, and
    one entry in each of the four metric lists. *)
Lemma for_each_appends (F : forcing_data) (df : columns)
    (t : list EcsTable.row) (k : nat) :
  forall a st st',
    for_each (process_model F df t) (seq a k) st = Ok st' ->
    exists es,
      ecs_vals st' = ecs_vals st ++ es /\
      Forall2 (fun name e => ecs_lookup t name = Ok e)
              (firstn k (skipn a (model_keys df))) es /\
      List.length (original_cox st') = (List.length (original_cox st) + k)%nat /\
      List.length (rv_cox st') = (List.length (rv_cox st) + k)%nat /\
      List.length (original_nijsse st') = (List.length (original_nijsse st) + k)%nat /\
      List.length (rv_nijsse st') = (List.length (rv_nijsse st) + k)%nat.
Proof.
  induction k as [|k IH]; intros a st st' H.
  - injection H as <-. exists []. rewrite app_nil_r, !Nat.add_0_r.
    repeat (split; [first [reflexivity | constructor]|]). reflexivity.
  - cbn [seq for_each] in H. bind_inv H. rename a0 into st1.
    destruct (process_model_appends _ _ _ _ _ _ E)
      as (name & ts & e & col & Hname & _ & He & Hecs & H1 & H2 & H3 & H4 & _).
    destruct (IH _ _ _ H) as (es & Hes & Hall & G1 & G2 & G3 & G4).
    exists (e :: es).
    rewrite (skipn_nth_error _ _ _ (list_index_inv _ _ _ Hname)).
    cbn [firstn].
    split; [rewrite Hes, Hecs, <- app_assoc; reflexivity|].
    split; [constructor; assumption|].
    repeat split; lia.
Qed.

Lemma ec_rows_columns (models gens : list string)
    (c rc n rn e : list float) :
  List.length gens = List.length models ->
  List.length c = List.length models ->
  List.length rc = List.length models ->
  List.length n = List.length models ->
  List.length rn = List.length models ->
  List.length e = List.length models ->
  map EcData.model (ec_rows models gens c rc n rn e) = models /\
  map EcData.generation (ec_rows models gens c rc n rn e) = gens /\
  map EcData.ecs (ec_rows models gens c rc n rn e) = e.
Proof.
  revert gens c rc n rn e.
  induction models as [|m models IH];
    intros [|g gens] [|c0 c] [|rc0 rc] [|n0 n] [|rn0 rn] [|e0 e];
    cbn [List.length]; intros; try discriminate; try (repeat split; reflexivity).
  cbn [ec_rows map EcData.model EcData.generation EcData.ecs].
  destruct (IH gens c rc n rn e) as (-> & -> & ->); try lia.
  repeat split; reflexivity.
Qed.

(** Where the three identifying columns of [ec_data.csv] come from: the model
    names in the order of [ts.csv], the ECS value of the first row of
    [ecs.csv] carrying the model's name, and the generation column of
    [ecs.csv] in the order of its rows. *)
Lemma ec_data_columns (F : forcing_data) (df : columns)
    (t : list EcsTable.row) (ec : list EcData.row) (rv : columns) :
  generate_ec_data F df t = Ok (ec, rv) ->
  map EcData.model ec = model_keys df /\
  map EcData.generation ec = map EcsTable.generation t /\
  Forall2 (fun name e => ecs_lookup t name = Ok e)
          (model_keys df) (map EcData.ecs ec).
Proof.
  unfold generate_ec_data, run_models. intros H.
  bind_inv H. rename a into st.
  bind_inv H. rename a into rows.
  bind_inv H. injection H as <- <-.
  destruct (for_each_appends _ _ _ _ _ _ _ E) as (es & Hes & Hall & _).
  cbn [ecs_vals initial_state app] in Hes.
  rewrite skipn_O, firstn_all in Hall.
  unfold ec_data in E0.
  destruct (_ && _) eqn:Hlen in E0; [|discriminate].
  injection E0 as <-.
  repeat (apply andb_prop in Hlen; destruct Hlen as [Hlen ?]).
  repeat match goal with
         | H : (_ =? _)%nat = true |- _ => apply Nat.eqb_eq in H
         end.
  destruct (ec_rows_columns (model_keys df) (map EcsTable.generation t)
              (original_cox st) (rv_cox st) (original_nijsse st)
              (rv_nijsse st) (ecs_vals st)) as (-> & -> & ->); try assumption.
  rewrite Hes. auto.
Qed.

(** ** The run returns on well-formed inputs *)

Lemma dict_set_Forall (P : list float -> Prop) (d : columns) (name : string)
    (v : list float) :
  Forall (fun kv => P (snd kv)) d -> P v ->
  Forall (fun kv => P (snd kv)) (dict_set d name v).
Proof.
  intros Hd Hv. induction Hd as [|[k w] d Hw Hd IH]; simpl.
  - repeat constructor. exact Hv.
  - destruct (String.eqb k name); constructor; assumption.
Qed.

Lemma ts_rv_returns (st : state) (n : nat) :
  Forall (fun kv => List.length (snd kv) = n) (df_rv st) ->
  ts_rv st = Ok (df_rv st).
Proof.
  unfold ts_rv. intros H. destruct (df_rv st) as [|[k v] d]; [reflexivity|].
  inversion H as [|? ? Hv Hd]; subst. cbn [snd] in *.
  replace (forallb _ d) with true; [reflexivity|].
  symmetry. apply forallb_forall. intros kv Hkv.
  rewrite Forall_forall in Hd. rewrite (Hd kv Hkv). apply Nat.eqb_refl.
Qed.

Lemma for_each_returns (F : forcing_data) (df : columns)
    (t : list EcsTable.row) (n : nat) :
  well_formed F df t n ->
  forall k a st,
    (a + k = List.length (model_keys df))%nat ->
    Forall (fun kv => List.length (snd kv) = n) (df_rv st) ->
    exists st',
      for_each (process_model F df t) (seq a k) st = Ok st' /\
      Forall (fun kv => List.length (snd kv) = n) (df_rv st').
Proof.
  intros (H18 & _ & Hwf).
  induction k as [|k IH]; intros a st Hak Hst.
  - exists st. split; [reflexivity | exact Hst].
  - destruct (nth_error (model_keys df) a) as [name|] eqn:Hnth;
      [|apply nth_error_None in Hnth; lia].
    destruct (Hwf name (nth_error_In _ _ Hnth)) as (ts & e & Hts & Hn & Hal & He).
    assert (Hname : list_index (model_keys df) a = Ok name)
      by (unfold list_index; now rewrite Hnth).
    destruct (process_model_returns F df t st a name ts e) as [st1 Hst1];
      [assumption | assumption | left; lia | assumption | assumption |].
    destruct (process_model_appends _ _ _ _ _ _ Hst1)
      as (name' & ts' & _ & col & Hname' & Hts' & _ & _ & _ & _ & _ & _ & Hrv & Hcol).
    assert (name' = name) by congruence. subst name'.
    assert (ts' = ts) by congruence. subst ts'.
    destruct (IH (S a) st1) as (st' & Hst' & Hinv); [lia | |].
    + rewrite Hrv.
      apply (dict_set_Forall (fun v => List.length v = n)); [exact Hst | congruence].
    + exists st'. split; [|exact Hinv].
      cbn [seq for_each]. rewrite Hst1. exact Hst'.
Qed.

Lemma generate_ec_data_returns (F : forcing_data) (df : columns)
    (t : list EcsTable.row) (n : nat) :
  well_formed F df t n ->
  exists ec rv, generate_ec_data F df t = Ok (ec, rv).
Proof.
  intros Hwf.
  destruct (for_each_returns F df t n Hwf (List.length (model_keys df)) 0%nat
              initial_state) as (st & Hst & Hinv);
    [reflexivity | constructor |].
  destruct (for_each_appends _ _ _ _ _ _ _ Hst)
    as (es & Hes & Hall & G1 & G2 & G3 & G4).
  cbn [initial_state ecs_vals original_cox rv_cox original_nijsse rv_nijsse
       app List.length Nat.add] in *.
  rewrite skipn_O, firstn_all in Hall. apply Forall2_length in Hall.
  destruct Hwf as (_ & Ht & _).
  unfold generate_ec_data, run_models. rewrite Hst. cbn [bind].
  unfold ec_data.
  rewrite length_map, Ht, G1, G2, G3, G4, Hes, <- Hall, !Nat.eqb_refl.
  cbn [andb bind]. rewrite (ts_rv_returns st n Hinv). cbn [bind].
  eexists. eexists. reflexivity.
Qed.

(** ** Length of the adjusted series *)





Lemma pairing_columns (ec : list EcData.row) :
  map pairing ec =
  combine (combine (map EcData.model ec) (map EcData.generation ec))
          (map EcData.ecs ec).
Proof.
  induction ec as [|r ec IH]; simpl; [reflexivity | now rewrite IH].
Qed.

Lemma pair_well_formed (t : list EcsTable.row) :
  t = pair_ecs \/ t = pair_ecs_shuffled ->
  well_formed sample_forcing pair_df t 153.
Proof.
  intros Ht. split; [simpl; lia|]. split; [destruct Ht as [-> | ->]; reflexivity|].
  intros name [<- | [<- | []]]; exists sample_ts.
  - exists (Fin 2.9). split; [reflexivity|]. split; [reflexivity|].
    split; [exact sample_forcing_aligned | destruct Ht as [-> | ->]; reflexivity].
  - exists (Fin 3.1). split; [reflexivity|]. split; [reflexivity|].
    split; [exact sample_forcing_aligned | destruct Ht as [-> | ->]; reflexivity].
Qed.


Lemma pair_run (t : list EcsTable.row) :
  t = pair_ecs \/ t = pair_ecs_shuffled ->
  exists ec rv,
    generate_ec_data sample_forcing pair_df t = Ok (ec, rv) /\
    map pairing ec =
    combine (combine ["CCSM4"; "MRI-ESM2-0"] (map EcsTable.generation t))
            [Fin 2.9; Fin 3.1].
Proof.
  intros Ht.
  destruct (generate_ec_data_returns _ _ _ _ (pair_well_formed t Ht))
    as (ec & rv & Hrun).
  exists ec, rv. split; [exact Hrun|].
  destruct (ec_data_columns _ _ _ _ _ Hrun) as (Hm & Hg & He).
  rewrite pairing_columns, Hm, Hg. f_equal.
  cbn in He.
  inversion He as [|? e1 ? l1 H1 He' E1 E2]; subst.
  inversion He' as [|? e2 ? l2 H2 He'' E3 E4]; subst.
  inversion He''; subst.
  destruct Ht as [-> | ->]; cbn in H1, H2; congruence.
Qed.

(** ** The ECS table with its rows permuted *)

Lemma filter_Permutation {A} (f : A -> bool) (l l' : list A) :
  Permutation l l' -> Permutation (filter f l) (filter f l').
Proof.
  induction 1 as [|x l l' _ IH|x y l|l l' l'' _ IH1 _ IH2]; simpl.
  - constructor.
  - destruct (f x); [constructor|]; exact IH.
  - destruct (f x), (f y); try apply Permutation_refl.
    apply perm_swap.
  - eapply Permutation_trans; eassumption.
Qed.

Lemma NoDup_map_filter {A B} (g : A -> B) (f : A -> bool) (l : list A) :
  NoDup (map g l) -> NoDup (map g (filter f l)).
Proof.
  induction l as [|x l IH]; simpl; intros H; [constructor|].
  inversion H as [|? ? Hx Hl]; subst.
  destruct (f x); [|apply IH, Hl].
  simpl. constructor; [|apply IH, Hl].
  intros Hin. apply Hx. apply in_map_iff in Hin.
  destruct Hin as (y & Hy & Hin). apply filter_In in Hin.
  apply in_map_iff. exists y. tauto.
Qed.

(** With one row per model name, the ECS value found for a name does not
    depend on the order of the rows. *)
Lemma ecs_lookup_permutation (t t' : list EcsTable.row) (name : string) :
  Permutation t t' -> NoDup (map EcsTable.model_name t) ->
  ecs_lookup t name = ecs_lookup t' name.
Proof.
  intros Hp Hnd. unfold ecs_lookup.
  set (f := fun r => String.eqb (EcsTable.model_name r) name).
  pose proof (filter_Permutation f _ _ Hp) as Hfp.
  pose proof (NoDup_map_filter EcsTable.model_name f t Hnd) as Hfd.
  destruct (filter f t) as [|r1 [|r2 rest]] eqn:E.
  - apply Permutation_nil in Hfp. now rewrite Hfp.
  - apply Permutation_length_1_inv in Hfp. now rewrite Hfp.
  - exfalso.
    assert (H1 : In r1 (filter f t)) by (rewrite E; simpl; tauto).
    assert (H2 : In r2 (filter f t)) by (rewrite E; simpl; tauto).
    apply filter_In in H1. apply filter_In in H2.
    destruct H1 as [_ H1]. destruct H2 as [_ H2].
    unfold f in H1, H2. apply String.eqb_eq in H1. apply String.eqb_eq in H2.
    simpl in Hfd. inversion Hfd as [|? ? Hx _]; subst.
    apply Hx. left. congruence.
Qed.

Lemma Forall2_functional {A B} (P Q : A -> B -> Prop) (l : list A) (m m' : list B) :
  (forall a b b', P a b -> Q a b' -> b = b') ->
  Forall2 P l m -> Forall2 Q l m' -> m = m'.
Proof.
  intros Hf H. revert m'. induction H as [|a b l m Hab _ IH]; intros m' H'.
  - now inversion H'.
  - inversion H' as [|? b' ? m'' Hab' Hm']; subst.
    f_equal; [eapply Hf; eassumption | apply IH, Hm'].
Qed.

(** The part of C1 that holds: permuting the rows of the ECS table leaves
    the [model] and [ecs] columns of the summary as they are. *)
Lemma ecs_column_permutation (F : forcing_data) (df : columns)
    (t t' : list EcsTable.row) (ec ec' : list EcData.row) (rv rv' : columns) :
  Permutation t t' -> NoDup (map EcsTable.model_name t) ->
  generate_ec_data F df t = Ok (ec, rv) ->
  generate_ec_data F df t' = Ok (ec', rv') ->
  map EcData.model ec = map EcData.model ec' /\
  map EcData.ecs ec = map EcData.ecs ec'.
Proof.
  intros Hp Hnd H H'.
  destruct (ec_data_columns _ _ _ _ _ H) as (Hm & _ & He).
  destruct (ec_data_columns _ _ _ _ _ H') as (Hm' & _ & He').
  split; [congruence|].
  refine (Forall2_functional _ _ _ _ _ _ He He').
  intros name e e' H1 H2. cbv beta in H1, H2.
  rewrite (ecs_lookup_permutation t t' name Hp Hnd) in H1. congruence.
Qed.

(** C1 (the code departs from the claim): the [ecs] column is looked up by
    model name, the [generation] column is the generation column of the ECS
    table in the order of its rows.  With the rows of the ECS table swapped,
    each model keeps its own ECS value and gets the other model's
    generation. *)
Theorem generation_paired_by_position :
  exists ec rv ec' rv',
    generate_ec_data sample_forcing pair_df pair_ecs = Ok (ec, rv) /\
    generate_ec_data sample_forcing pair_df pair_ecs_shuffled = Ok (ec', rv') /\
    map pairing ec =
      [("CCSM4", "CMIP5", Fin 2.9); ("MRI-ESM2-0", "CMIP6", Fin 3.1)] /\
    map pairing ec' =
      [("CCSM4", "CMIP6", Fin 2.9); ("MRI-ESM2-0", "CMIP5", Fin 3.1)].
Proof.
  destruct (pair_run pair_ecs (or_introl eq_refl)) as (ec & rv & Hrun & Hp).
  destruct (pair_run pair_ecs_shuffled (or_intror eq_refl))
    as (ec' & rv' & Hrun' & Hp').
  exists ec, rv, ec', rv'.
  split; [exact Hrun|]. split; [exact Hrun'|]. split; assumption.
Qed.

(** ** Labelled arrays *)

Lemma mem_app (d : string) (l l' : list string) :
  mem d (l ++ l') = mem d l || mem d l'.
Proof. apply existsb_app. Qed.

Lemma mem_In (d : string) (l : list string) : mem d l = true <-> In d l.
Proof.
  unfold mem. rewrite existsb_exists. split.
  - intros (x & Hx & E). apply String.eqb_eq in E. now subst.
  - intros H. exists d. split; [exact H | apply String.eqb_refl].
Qed.

Lemma xr_binop_inv (f : float -> float -> float) (a b r : array) :
  xr_binop f a b = Ok r ->
  r = {| dims := dims a ++ filter (fun d => negb (mem d (dims a))) (dims b);
         size := fun d => if mem d (dims a) then size a d else size b d;
         values := fun e => f (values a e) (values b e) |}.
Proof.
  unfold xr_binop. destruct (forallb _ _); [|discriminate].
  intros H. now injection H as <-.
Qed.

Lemma xr_binop_returns (f : float -> float -> float) (a b : array) :
  (forall d, size a d = size b d) ->
  xr_binop f a b =
  Ok {| dims := dims a ++ filter (fun d => negb (mem d (dims a))) (dims b);
        size := fun d => if mem d (dims a) then size a d else size b d;
        values := fun e => f (values a e) (values b e) |}.
Proof.
  intros Hs. unfold xr_binop.
  replace (forallb _ (dims b)) with true; [reflexivity|].
  symmetry. apply forallb_forall. intros d _.
  destruct (mem d (dims a)); [rewrite Hs; apply Nat.eqb_refl | reflexivity].
Qed.

Lemma xr_binop_errors (f : float -> float -> float) (a b : array) (e : exception) :
  xr_binop f a b = Raise e -> e = ValueError.
Proof.
  unfold xr_binop. destruct (forallb _ _); [discriminate|].
  intros H. now injection H as <-.
Qed.

Lemma xr_sum_returns (names : list string) (a : array) :
  (forall d, In d names -> In d (dims a)) ->
  xr_sum names a =
  Ok {| dims := filter (fun d => negb (mem d names)) (dims a);
        size := size a;
        values := fun e => nansum (map (values a) (cells a names e)) |}.
Proof.
  intros H. unfold xr_sum.
  replace (forallb _ names) with true; [reflexivity|].
  symmetry. apply forallb_forall. intros d Hd. apply mem_In, H, Hd.
Qed.

(** ** The masked weights *)

Lemma weights_1d_inv (da : array) (c : coordinate) (d : string) (w : array) :
  weights_1d da c d = Ok w -> dims w = dims da /\ size w = size da.
Proof.
  unfold weights_1d. destruct (last _ None) as [dl|]; [|discriminate].
  destruct (_ =? size da dl)%nat; [|destruct (_ =? 1)%nat; [|discriminate]];
    intros H; injection H as <-; split; reflexivity.
Qed.

Lemma weights_1d_errors (da : array) (c : coordinate) (d : string) (e : exception) :
  weights_1d da c d = Raise e -> e = ValueError.
Proof.
  unfold weights_1d. destruct (last _ None) as [dl|].
  - destruct (_ =? size da dl)%nat; [discriminate|].
    destruct (_ =? 1)%nat; [discriminate|]. intros H. now injection H as <-.
  - intros H. now injection H as <-.
Qed.

Lemma fdiv_nan_r (x : float) : fdiv x NaN = NaN.
Proof. destruct x; reflexivity. Qed.

(** What [masked_weights] returns: an array over the dimensions of the raw
    weights and of [da], with the sizes of [da], whose value in a cell is
    [weights * da / da]: not-a-number wherever [da] is. *)
Lemma masked_weights_inv (da : DataArray) (w : array) :
  masked_weights da = Ok w ->
  exists c raw,
    lat da = Some c /\
    (dims raw = dims (data da) \/ dims raw = cdims c) /\
    (forall d, In d (dims (data da)) -> In d (dims w)) /\
    (forall d, In d (dims w) -> In d (dims (data da)) \/ In d (cdims c)) /\
    (forall d, size w d = size (data da) d) /\
    (forall e, values w e =
               fdiv (fmul (values raw e) (values (data da) e))
                    (values (data da) e)).
Proof.
  unfold masked_weights. intros H.
  destruct (lat da) as [c|]; [|discriminate]. cbn [bind] in H.
  bind_inv H. rename a into raw.
  bind_inv H. rename a into wd.
  apply xr_binop_inv in E0. apply xr_binop_inv in H.
  assert (Hraw : (dims raw = dims (data da) \/ dims raw = cdims c) /\
                 size raw = size (data da)).
  { destruct (cdims c) as [|d1 [|d2 [|d3 ds]]] eqn:Hc; try discriminate.
    - apply weights_1d_inv in E. tauto.
    - injection E as <-. split; [right; exact Hc | reflexivity]. }
  destruct Hraw as [Hdims Hsize].
  exists c, raw. split; [reflexivity|]. split; [exact Hdims|].
  subst w wd. cbn [dims size values]. rewrite Hsize.
  split; [|split; [|split]].
  - intros d Hd. rewrite !in_app_iff, !filter_In.
    destruct (mem d (dims raw)) eqn:Em.
    + left. left. now apply mem_In.
    + left. right. split; [exact Hd | reflexivity].
  - intros d Hd. rewrite !in_app_iff, !filter_In in Hd.
    destruct Hd as [[Hd | [Hd _]] | [Hd _]]; try (left; exact Hd).
    destruct Hdims as [E' | E']; rewrite E' in Hd; [left | right]; exact Hd.
  - intros d. repeat destruct (mem d _); reflexivity.
  - reflexivity.
Qed.

Lemma masked_weights_errors (da : DataArray) (e : exception) :
  masked_weights da = Raise e ->
  e = AttributeError \/ e = UnboundLocalError "weights" \/ e = ValueError.
Proof.
  unfold masked_weights. intros H.
  destruct (lat da) as [c|]; [|injection H as <-; tauto]. cbn [bind] in H.
  destruct (match cdims c with [] => _ | _ => _ end) as [raw|e1] eqn:E.
  - cbn [bind] in H. destruct (xr_binop fmul raw (data da)) as [wd|e2] eqn:E2.
    + cbn [bind] in H. apply xr_binop_errors in H. tauto.
    + injection H as <-. apply xr_binop_errors in E2. tauto.
  - injection H as <-.
    destruct (cdims c) as [|d1 [|d2 [|d3 ds]]]; try discriminate;
      try (injection E as <-; tauto).
    apply weights_1d_errors in E. tauto.
Qed.

(** ** Unsupported layouts *)

(** C7, as stated, fails: on a field whose dimensions are [time], [rlat] and
    [rlon] the call ends in the [UnboundLocalError] of [return wm], which no
    [raise] statement of the notebook announces. *)
Lemma weighted_mean_rotated_field :
  spatial_names (dims (data rotated_field)) = None /\
  weighted_mean rotated_field = Raise (UnboundLocalError "wm") /\
  ~ (exists message, weighted_mean rotated_field = Raise (NotebookError message)).
Proof.
  split; [reflexivity|].
  assert (H : weighted_mean rotated_field = Raise (UnboundLocalError "wm"))
    by reflexivity.
  split; [exact H|]. intros [message Hm]. rewrite H in Hm. discriminate.
Qed.

(** C7, amended: on a field with none of the dimensions [lat], [i], [nlat],
    [x], [weighted_mean] returns no value; it ends in an exception of the run
    time or of a library, never in one raised by the notebook, and once the
    weights are computed that exception is the [UnboundLocalError] of
    [return wm]. *)
Theorem weighted_mean_unsupported (da : DataArray) :
  spatial_names (dims (data da)) = None ->
  exists e,
    weighted_mean da = Raise e /\
    (forall message, e <> NotebookError message) /\
    (forall w, masked_weights da = Ok w -> e = UnboundLocalError "wm").
Proof.
  unfold spatial_names, weighted_mean. intros H.
  destruct (mem "lat" _); [discriminate|].
  destruct (mem "i" _); [discriminate|].
  destruct (mem "nlat" _); [discriminate|].
  destruct (mem "x" _); [discriminate|].
  destruct (masked_weights da) as [w|e] eqn:E; cbn [bind].
  - exists (UnboundLocalError "wm").
    split; [reflexivity|]. split; [discriminate | reflexivity].
  - exists e. split; [reflexivity|]. split; [|discriminate].
    destruct (masked_weights_errors da e E) as [-> | [-> | ->]]; discriminate.
Qed.

Lemma weighted_mean_unsupported_witness :
  spatial_names (dims (data rotated_field)) = None /\
  weighted_mean rotated_field = Raise (UnboundLocalError "wm").
Proof.
  assert (H : spatial_names (dims (data rotated_field)) = None) by reflexivity.
  split; [exact H|].
  destruct (weighted_mean_unsupported rotated_field H) as (e & He & _ & Hw).
  rewrite He. f_equal.
  destruct (masked_weights rotated_field) as [w|e'] eqn:E;
    [apply (Hw w eq_refl) | discriminate E].
Defined.

(** ** The weighted mean on a supported layout *)

Lemma weighted_mean_branch (da : DataArray) :
  weighted_mean da =
  (weights <- masked_weights da ;;
   match spatial_names (dims (data da)) with
   | Some names => mean_over names (data da) weights
   | None => Raise (UnboundLocalError "wm")
   end).
Proof.
  unfold weighted_mean, spatial_names.
  destruct (masked_weights da); [cbn [bind] | reflexivity].
  repeat (match goal with |- context [mem ?d ?l] => destruct (mem d l) end;
          [reflexivity|]).
  reflexivity.
Qed.

Lemma filter_none {A} (f : A -> bool) (l : list A) :
  (forall x, In x l -> f x = false) -> filter f l = [].
Proof.
  induction l as [|x l IH]; intros H; simpl; [reflexivity|].
  rewrite (H x (or_introl eq_refl)). apply IH. intros y Hy. apply H. now right.
Qed.

Lemma cells_ext (a b : array) (names : list string) (e : env) :
  (forall d, size a d = size b d) -> cells a names e = cells b names e.
Proof.
  intros H. unfold cells. f_equal. apply map_ext. intros d. now rewrite H.
Qed.

(** On a supported layout the call returns, the dimensions summed over are
    gone from the result, and its value is the sum of [da * weights] over the
    sum of [weights], both skipping not-a-number. *)
Lemma weighted_mean_value (da : DataArray) (w : array) (names : list string) :
  masked_weights da = Ok w ->
  (forall c, lat da = Some c -> incl (cdims c) (dims (data da))) ->
  spatial_names (dims (data da)) = Some names ->
  incl names (dims (data da)) ->
  exists wm,
    weighted_mean da = Ok wm /\
    dims wm = filter (fun d => negb (mem d names)) (dims (data da)) /\
    forall e,
      values wm e =
      fdiv (nansum (map (fun c => fmul (values (data da) c) (values w c))
                        (cells (data da) names e)))
           (nansum (map (values w) (cells (data da) names e))).
Proof.
  intros Hw Hlat Hnames Hincl.
  destruct (masked_weights_inv da w Hw)
    as (c & raw & Hc & _ & Hsub & Hsup & Hsize & _).
  specialize (Hlat c Hc).
  assert (Hsup' : forall d, In d (dims w) -> In d (dims (data da))).
  { intros d Hd. destruct (Hsup d Hd) as [H|H]; [exact H | apply Hlat, H]. }
  rewrite weighted_mean_branch, Hw, Hnames. cbn [bind]. unfold mean_over.
  rewrite xr_binop_returns by (intros d; now rewrite Hsize).
  cbn [bind].
  rewrite xr_sum_returns
    by (intros d Hd; cbn [dims]; apply in_app_iff; left; apply Hincl, Hd).
  cbn [bind].
  rewrite xr_sum_returns by (intros d Hd; apply Hsub, Hincl, Hd).
  cbn [bind].
  rewrite xr_binop_returns
    by (intros d; cbn [size]; rewrite Hsize; now destruct (mem d _)).
  eexists. split; [reflexivity|]. cbn [dims values size]. split.
  - assert (E1 : filter (fun d => negb (mem d (dims (data da)))) (dims w) = []).
    { apply filter_none. intros d Hd. apply negb_false_iff, mem_In, Hsup', Hd. }
    rewrite E1, app_nil_r.
    set (kept := filter (fun d => negb (mem d names)) (dims (data da))).
    assert (E2 : filter (fun d => negb (mem d kept))
                        (filter (fun d => negb (mem d names)) (dims w)) = []).
    { apply filter_none. intros d Hd. apply filter_In in Hd. destruct Hd as [Hd Hn].
      apply negb_false_iff, mem_In, filter_In. split; [apply Hsup', Hd | exact Hn]. }
    rewrite E2. apply app_nil_r.
  - intros e. f_equal.
    + rewrite (cells_ext _ (data da)); [reflexivity|].
      intros d. cbn [size]. rewrite Hsize. now destruct (mem d _).
    + now rewrite (cells_ext w (data da)).
Qed.

(** ** Sums that skip not-a-number *)

Lemma fold_fadd_Fin_inv (xs : list float) (y : float) (s : R) :
  fold_left fadd xs y = Fin s -> exists r, y = Fin r.
Proof.
  revert y. induction xs as [|x xs IH]; intros y H; simpl in H.
  - eauto.
  - destruct (IH _ H) as [r Hr]. destruct y, x; try discriminate. eauto.
Qed.

Lemma fmul_nan_r (x : float) : fmul x NaN = NaN.
Proof. destruct x; reflexivity. Qed.

Lemma fold_nansum_uniform (a W : env -> float) (v : R) (cs : list env) :
  (forall c, In c cs -> a c = NaN \/ a c = Fin v) ->
  (forall c, a c = NaN -> W c = NaN) ->
  forall acc s,
    fold_left fadd (map (fun c => nan_to_zero (W c)) cs) (Fin acc) = Fin s ->
    fold_left fadd (map (fun c => nan_to_zero (fmul (a c) (W c))) cs)
              (Fin (v * acc)) = Fin (v * s).
Proof.
  intros Ha HW.
  induction cs as [|c cs IH]; intros acc s H; cbn [map fold_left] in *.
  - injection H as ->. reflexivity.
  - destruct (fold_fadd_Fin_inv _ _ _ H) as [r Hr].
    assert (Hstep : fadd (Fin (v * acc)) (nan_to_zero (fmul (a c) (W c)))
                    = Fin (v * r)).
    { destruct (W c) as [| | |x] eqn:EW; simpl in Hr; try discriminate.
      - rewrite fmul_nan_r. simpl. injection Hr as <-. f_equal. ring.
      - destruct (Ha c (or_introl eq_refl)) as [E|E].
        + rewrite (HW c E) in EW. discriminate.
        + rewrite E. simpl. injection Hr as <-. f_equal. ring. }
    rewrite Hstep. apply IH; [intros c' Hc'; apply Ha; now right|].
    now rewrite <- Hr.
Qed.

(** If every cell that is not missing holds [v], the sum of [da * weights]
    is [v] times the sum of the weights. *)
Lemma nansum_uniform (a W : env -> float) (v s : R) (cs : list env) :
  (forall c, In c cs -> a c = NaN \/ a c = Fin v) ->
  (forall c, a c = NaN -> W c = NaN) ->
  nansum (map W cs) = Fin s ->
  nansum (map (fun c => fmul (a c) (W c)) cs) = Fin (v * s).
Proof.
  intros Ha HW H. unfold nansum, fsum in *. rewrite map_map in *.
  replace (Fin 0) with (Fin (v * 0)) by (f_equal; ring).
  now apply fold_nansum_uniform.
Qed.

(** C6, amended: on every field of one of the four layouts (a [lat]
    dimension, or [i] with [j], [nlat] with [nlon], [x] with [y]) whose
    weights can be computed, the reducer returns; it sums over [lat] alone or
    over the pair, the result has the dimensions of the field without those
    (one value per time step when these are all the spatial dimensions of the
    field), and its value is the sum of [da * weights] over the sum of
    [weights], both skipping not-a-number.  Where every cell of a time step
    that is not missing holds the same value [v], the result at that step is
    [v], provided the weights of the cells that count do not sum to zero. *)
Theorem weighted_mean_uniform (da : DataArray) (w : array)
    (names : list string) :
  masked_weights da = Ok w ->
  (forall c, lat da = Some c -> incl (cdims c) (dims (data da))) ->
  spatial_names (dims (data da)) = Some names ->
  incl names (dims (data da)) ->
  In names [["lat"]; ["i"; "j"]; ["nlat"; "nlon"]; ["x"; "y"]] /\
  exists wm,
    weighted_mean da = Ok wm /\
    dims wm = filter (fun d => negb (mem d names)) (dims (data da)) /\
    (forall e,
       values wm e =
       fdiv (nansum (map (fun c => fmul (values (data da) c) (values w c))
                         (cells (data da) names e)))
            (nansum (map (values w) (cells (data da) names e)))) /\
    (forall e v s,
       (forall cell, In cell (cells (data da) names e) ->
          values (data da) cell = NaN \/ values (data da) cell = Fin v) ->
       nansum (map (values w) (cells (data da) names e)) = Fin s ->
       s <> 0 ->
       values wm e = Fin v).
Proof.
  intros Hw Hlat Hnames Hincl. split.
  - unfold spatial_names in Hnames.
    repeat (destruct (mem _ (dims (data da)));
            [injection Hnames as <-; simpl; tauto|]).
    discriminate Hnames.
  - destruct (weighted_mean_value da w names Hw Hlat Hnames Hincl)
      as (wm & Hwm & Hdims & Hval).
    exists wm. split; [exact Hwm|]. split; [exact Hdims|].
    split; [exact Hval|].
    intros e v s Hcells Hsum Hs.
    rewrite Hval, Hsum.
    rewrite (nansum_uniform (values (data da)) (values w) v s);
      try assumption.
    + rewrite fdiv_Fin by exact Hs. f_equal. field. exact Hs.
    + intros c Hc.
      destruct (masked_weights_inv da w Hw)
        as (_ & raw & _ & _ & _ & _ & _ & Hv).
      rewrite Hv, Hc. apply fdiv_nan_r.
Qed.

Lemma zonal_field_weights (v : float) :
  exists w,
    masked_weights (zonal_field v) = Ok w /\
    forall e,
      values w e =
      fdiv (fmul (fmul (Fin 1)
                       (nth (e "lat") [cos_deg (Fin 0); cos_deg (Fin 60)] NaN)) v) v.
Proof. eexists. split; reflexivity. Qed.

Lemma weighted_mean_uniform_witness :
  exists wm,
    weighted_mean (zonal_field (Fin 2)) = Ok wm /\
    dims wm = ["time"] /\
    values wm (fun _ => O) = Fin 2.
Proof.
  destruct (zonal_field_weights (Fin 2)) as (w & Hw & Hv).
  destruct (weighted_mean_uniform (zonal_field (Fin 2)) w ["lat"] Hw)
    as (_ & wm & Hwm & Hdims & _ & Huniform).
  - intros c Hc. injection Hc as <-. intros d [<- | []]. simpl. tauto.
  - reflexivity.
  - intros d [<- | []]. simpl. tauto.
  - exists wm. split; [exact Hwm|]. split; [exact Hdims|].
    apply (Huniform (fun _ => O) 2
             (0 + 1 * cos (0 * (PI / 180)) * 2 / 2
                + 1 * cos (60 * (PI / 180)) * 2 / 2)).
    + intros cell _. right. reflexivity.
    + cbn [cells zonal_field data size sizes_122 map enumerate flat_map seq app
           String.eqb Ascii.eqb Bool.eqb].
      unfold nansum, fsum. cbn [map fold_left]. rewrite !Hv.
      unfold upd. cbn [String.eqb Ascii.eqb Bool.eqb nth cos_deg fmul fcos].
      rewrite !fdiv_Fin by lra. reflexivity.
    + rewrite Rmult_0_l, cos_0.
      replace (60 * (PI / 180)) with (PI / 3) by field.
      rewrite cos_PI3. lra.
Defined.

(** C6, as stated, fails on a latitude-longitude field: the branch taken for
    a field with a [lat] dimension sums over [lat] alone, and what comes back
    still has the [lon] dimension, one value per time step and longitude. *)
Lemma weighted_mean_latlon_field :
  spatial_names (dims (data latlon_field)) = Some ["lat"] /\
  (forall e, values (data latlon_field) e = Fin 1) /\
  exists wm,
    weighted_mean latlon_field = Ok wm /\
    dims wm = ["time"; "lon"] /\
    dims wm <> ["time"].
Proof.
  split; [reflexivity|]. split; [reflexivity|].
  eexists. split; [reflexivity|]. split; [reflexivity | discriminate].
Qed.

(** The mask [weights*da/da] also removes the cells whose value is zero. *)
Lemma mask_zero (x : float) : fdiv (fmul x (Fin 0)) (Fin 0) = NaN.
Proof.
  destruct x as [| | |r]; simpl; unfold inf_times; rewrite ?Rsign_zero; try reflexivity.
  replace (r * 0) with 0 by ring. now rewrite Rsign_zero.
Qed.

(** A zonal field that is zero everywhere comes back as not-a-number. *)
Lemma weighted_mean_zero_field (e : env) :
  exists wm,
    weighted_mean (zonal_field (Fin 0)) = Ok wm /\ values wm e = NaN.
Proof.
  destruct (zonal_field_weights (Fin 0)) as (w & Hw & Hv).
  destruct (weighted_mean_value (zonal_field (Fin 0)) w ["lat"] Hw)
    as (wm & Hwm & _ & Hval).
  - intros c Hc. injection Hc as <-. intros d [<- | []]. simpl. tauto.
  - reflexivity.
  - intros d [<- | []]. simpl. tauto.
  - exists wm. split; [exact Hwm|]. rewrite Hval.
    cbn [cells zonal_field data size sizes_122 map enumerate flat_map seq app
         String.eqb Ascii.eqb Bool.eqb values].
    rewrite !Hv, !mask_zero. unfold nansum, fsum. cbn.
    replace (0 + 0 + 0) with 0 by ring.
    unfold inf_times. now rewrite Rsign_zero.
Qed.

(** The weights are computed for a two-dimensional latitude, and for a
    one-dimensional one that is as long as the last dimension of the
    field. *)
Lemma masked_weights_returns (da : DataArray) (c : coordinate) :
  lat da = Some c ->
  (exists d1 d2, cdims c = [d1; d2]) \/
  (exists d dl, cdims c = [d] /\
                last (map Some (dims (data da))) None = Some dl /\
                size (data da) d = size (data da) dl) ->
  exists w, masked_weights da = Ok w.
Proof.
  intros Hc Hshape. unfold masked_weights. rewrite Hc. cbn [bind].
  destruct Hshape as [(d1 & d2 & ->) | (d & dl & -> & Hl & Hs)].
  - cbn [bind]. rewrite xr_binop_returns by reflexivity. cbn [bind].
    rewrite xr_binop_returns by (intros d; cbn [size]; now destruct (mem d _)).
    eexists. reflexivity.
  - unfold weights_1d. rewrite Hl, Hs, Nat.eqb_refl. cbn [bind].
    rewrite xr_binop_returns by reflexivity. cbn [bind].
    rewrite xr_binop_returns by (intros d'; cbn [size]; now destruct (mem d' _)).
    eexists. reflexivity.
Qed.

(** * Further properties *)

(** ** [get_forcing]: range and limit *)

(** For an optical depth that is not negative the forcing lies between -20.7
    and 0, both included; for an optical depth that is not positive the
    forcing is not negative. *)
Theorem get_forcing_range (x : R) :
  (0 <= x ->
   fle (Fin (-20.7)) (get_forcing_at (Fin x)) /\
   fle (get_forcing_at (Fin x)) (Fin 0)) /\
  (x <= 0 -> fle (Fin 0) (get_forcing_at (Fin x))).
Proof.
  rewrite get_forcing_at_Fin. cbn [fle].
  pose proof (exp_pos (-1 * x)) as Hpos.
  split; intros Hx.
  - assert (H : exp (-1 * x) <= 1).
    { rewrite <- exp_0. destruct Hx as [Hx | <-].
      - left. apply exp_increasing. lra.
      - right. f_equal. lra. }
    lra.
  - assert (H : 1 <= exp (-1 * x)).
    { rewrite <- exp_0. destruct Hx as [Hx | ->].
      - left. apply exp_increasing. lra.
      - right. f_equal. lra. }
    lra.
Qed.

(** The forcing tends to -20.7 as the optical depth grows, and the special
    values go through as IEEE 754 has them: an infinite optical depth gives
    -20.7 exactly, a missing one stays missing. *)
Theorem get_forcing_limit :
  (forall eps, 0 < eps ->
     exists bound, forall x, bound < x ->
       exists r, get_forcing_at (Fin x) = Fin r /\ Rabs (r + 20.7) < eps) /\
  get_forcing_at PInf = Fin (-20.7) /\
  get_forcing_at NaN = NaN.
Proof.
  split; [|split].
  - intros eps Heps. exists (- ln (eps / 20.7)). intros x Hx.
    exists (-20.7 * (1 + - exp (-1 * x))).
    split; [apply get_forcing_at_Fin|].
    replace (-20.7 * (1 + - exp (-1 * x)) + 20.7) with (20.7 * exp (-1 * x)) by lra.
    pose proof (exp_pos (-1 * x)) as Hpos.
    rewrite Rabs_right by lra.
    assert (Hq : 0 < eps / 20.7) by (apply Rdiv_lt_0_compat; lra).
    assert (H : exp (-1 * x) < eps / 20.7).
    { rewrite <- (exp_ln (eps / 20.7)) by exact Hq. apply exp_increasing. lra. }
    apply (Rmult_lt_compat_l 20.7) in H; [|lra].
    replace (20.7 * (eps / 20.7)) with eps in H by (field; lra). exact H.
  - unfold get_forcing_at. cbn [fmul]. unfold inf_times.
    rewrite Rsign_neg by lra. cbn. f_equal. lra.
  - reflexivity.
Qed.

(** ** The metrics: missing values, windows and blocks *)

Lemma strip_nan_insert (a b : list float) :
  strip_nan (a ++ NaN :: b) = strip_nan (a ++ b).
Proof. unfold strip_nan. now rewrite !filter_app. Qed.

(** A missing value anywhere in the series changes neither metric: it is
    removed before any window is cut, and the windows close up over it. *)
Theorem metrics_ignore_nan (a b : list float) :
  compute_cox (a ++ NaN :: b) = compute_cox (a ++ b) /\
  forall length,
    compute_nijsse (a ++ NaN :: b) length = compute_nijsse (a ++ b) length.
Proof.
  split.
  - unfold compute_cox. now rewrite strip_nan_insert.
  - intros length. unfold compute_nijsse, nijsse_slopes.
    now rewrite strip_nan_insert.
Qed.

(** Every window [compute_cox] detrends has exactly 55 points, and every
    block [compute_nijsse] fits has exactly [length] points: no metric is
    ever computed on a window cut short by the end of the series. *)
Theorem windows_are_full (x : list float) :
  Forall (fun i => List.length (slice (strip_nan x) i (i + 55)) = 55%nat)
         (cox_starts (strip_nan x)) /\
  forall length, (1 <= length)%nat ->
    exists starts,
      nijsse_slopes x length =
        Some (map (block_change (strip_nan x) length) starts) /\
      Forall (fun i => List.length (slice (strip_nan x) i (i + length)) = length)
             starts.
Proof.
  split.
  - apply Forall_forall. intros i Hi. rewrite cox_starts_seq in Hi.
    apply in_seq in Hi. apply slice_length. lia.
  - intros length HL. eexists. split; [apply nijsse_slopes_blocks, HL|].
    apply Forall_forall. intros i Hi.
    apply in_map_iff in Hi. destruct Hi as (k & <- & Hk). apply in_seq in Hk.
    apply slice_length.
    set (n := List.length (strip_nan x)) in *.
    assert (Hlo : (length * ((n - 1) / length) <= n - 1)%nat)
      by apply Nat.Div0.mul_div_le.
    assert (S k * length <= ((n - 1) / length) * length)%nat
      by (apply Nat.mul_le_mono_r; lia).
    nia.
Qed.

(** With a window of at least one point [compute_nijsse] returns, having
    recorded [(n - 1) / length] block changes for [n] clean points; when
    [length] does not divide [n] that is [n / length], every full block. *)
Theorem nijsse_block_count (x : list float) (length : nat) :
  (1 <= length)%nat ->
  exists slopes,
    nijsse_slopes x length = Some slopes /\
    compute_nijsse x length = Some (np_nanstd slopes) /\
    List.length slopes = ((List.length (strip_nan x) - 1) / length)%nat /\
    (List.length (strip_nan x) mod length <> 0 ->
     List.length slopes = (List.length (strip_nan x) / length))%nat.
Proof.
  intros HL. eexists. split; [apply nijsse_slopes_blocks, HL|].
  split; [unfold compute_nijsse; now rewrite nijsse_slopes_blocks by exact HL|].
  rewrite !length_map, length_seq. split; [reflexivity|].
  set (n := List.length (strip_nan x)). intros Hmod.
  pose proof (Nat.div_mod_eq n length) as Hdm.
  pose proof (Nat.mod_upper_bound n length ltac:(lia)) as Hub.
  symmetry. apply (Nat.div_unique (n - 1) length (n / length) (n mod length - 1)); lia.
Qed.

Lemma nijsse_block_count_witness :
  (1 <= 10)%nat /\
  exists slopes,
    nijsse_slopes (positions 25) 10 = Some slopes /\
    List.length slopes = 2%nat.
Proof.
  split; [lia|].
  destruct (nijsse_block_count (positions 25) 10) as (slopes & Hs & _ & _ & Hn);
    [lia|].
  exists slopes. split; [exact Hs|].
  rewrite Hn; [reflexivity | discriminate].
Defined.

(** ** The trend metric of a straight line *)

Lemma Rsum_scal {A} (m : R) (g : A -> R) (xs : list A) :
  Rsum (map (fun v => m * g v) xs) = m * Rsum (map g xs).
Proof.
  induction xs as [|v xs IH]; simpl; [ring|].
  fold (Rsum (map (fun v => m * g v) xs)). fold (Rsum (map g xs)).
  rewrite IH. ring.
Qed.

Lemma Rmean_affine (m c : R) (xs : list R) :
  xs <> [] -> Rmean (map (fun v => m * v + c) xs) = m * Rmean xs + c.
Proof.
  intros Hne. unfold Rmean. rewrite length_map.
  rewrite (Rsum_map_ext _ (fun v => c + m * v + 0 * (v * v))) by (intros; ring).
  rewrite Rsum_quadratic. field. apply INR_length_nonzero, Hne.
Qed.

Lemma Rmean_constant {A} (v : R) (l : list A) :
  l <> [] -> Rmean (map (fun _ => v) l) = v.
Proof.
  intros Hne. unfold Rmean. rewrite length_map.
  assert (H : Rsum (map (fun _ => v) l) = INR (List.length l) * v).
  { clear Hne. induction l as [|a l IH]; [simpl; ring|].
    cbn [map Rsum fold_right List.length]. fold (Rsum (map (fun _ => v) l)).
    rewrite IH, S_INR. ring. }
  rewrite H. field. apply INR_length_nonzero, Hne.
Qed.

Lemma combine_map_r {A B} (h : A -> B) (xs : list A) :
  combine xs (map h xs) = map (fun v => (v, h v)) xs.
Proof. induction xs as [|x xs IH]; simpl; [reflexivity | now rewrite IH]. Qed.

(** The least-squares slope of [m * x + c] against [x] is [m]. *)
Lemma ls_slope_affine (m c d : R) (xs : list R) :
  xs <> [] ->
  sum_dev (map Fin xs) (map Fin xs) = Fin d -> d <> 0 ->
  ls_slope (map Fin xs) (map Fin (map (fun v => m * v + c) xs)) = Fin m.
Proof.
  intros Hne Hd Hnz. unfold ls_slope. rewrite Hd.
  rewrite sum_dev_Fin in Hd by assumption. injection Hd as Hd.
  rewrite sum_dev_Fin
    by first [assumption | destruct xs; [congruence | discriminate]].
  rewrite combine_map_r, map_map. cbn [fst snd].
  rewrite Rmean_affine by assumption.
  rewrite (Rsum_map_ext _
             (fun v => m * ((v + - Rmean xs) * (v + - Rmean xs))))
    by (intros; ring).
  rewrite Rsum_scal.
  rewrite combine_same, map_map in Hd. cbn [fst snd] in Hd. rewrite Hd.
  rewrite fdiv_Fin by exact Hnz. f_equal. field. exact Hnz.
Qed.

Lemma seq_from (i n : nat) : seq i n = map (Nat.add i) (seq 0 n).
Proof.
  revert i. induction n as [|n IH]; intros i; [reflexivity|].
  cbn [seq map]. rewrite Nat.add_0_r. f_equal.
  rewrite (IH (S i)), <- seq_shift, map_map.
  apply map_ext. intros k. lia.
Qed.

Lemma firstn_seq_le (k a len : nat) :
  (k <= len)%nat -> firstn k (seq a len) = seq a k.
Proof.
  revert a len. induction k as [|k IH]; intros a [|len] H; try reflexivity; [lia|].
  cbn [seq firstn]. f_equal. apply IH. lia.
Qed.

Lemma slice_map_seq {A} (f : nat -> A) (n i k : nat) :
  (i + k <= n)%nat -> slice (map f (seq 0 n)) i (i + k) = map f (seq i k).
Proof.
  intros H. unfold slice.
  rewrite skipn_map, firstn_map, skipn_seq, firstn_seq_le by lia.
  do 2 f_equal. lia.
Qed.

(** The standard deviation of a list of equal numbers is zero. *)
Lemma np_nanstd_constant {A} (v : R) (l : list A) :
  l <> [] -> np_nanstd (map (fun _ => Fin v) l) = Fin 0.
Proof.
  intros Hne. unfold np_nanstd.
  rewrite <- (map_map (fun _ => v) Fin), strip_nan_Fin.
  assert (Hv : map (fun _ : A => v) l <> [])
    by (destruct l; [congruence | discriminate]).
  unfold np_std. rewrite np_mean_Fin, Rmean_constant by assumption.
  rewrite !map_map. cbn [fsub fneg fadd fabs fmul].
  rewrite (map_ext _ (fun _ : A => Fin 0))
    by (intros; f_equal; replace (v + - v) with 0 by ring; rewrite Rabs_R0; ring).
  rewrite <- (map_map (fun _ => 0) Fin).
  rewrite np_mean_Fin by (destruct l; [congruence | discriminate]).
  rewrite Rmean_constant by assumption.
  cbn [fsqrt]. rewrite Rsign_zero, sqrt_0. reflexivity.
Qed.

(** On a series that is a straight line, [m * i + b] at position [i], every
    block changes by [length * m] and [compute_nijsse] returns 0, for a
    window of at least two points and a series longer than the window. *)
Theorem compute_nijsse_linear (m b : R) (n length : nat) :
  (2 <= length)%nat -> (length < n)%nat ->
  compute_nijsse (map (fun k => Fin (m * INR k + b)) (seq 0 n)) length
  = Some (Fin 0).
Proof.
  intros HL Hn.
  set (x := map (fun k => Fin (m * INR k + b)) (seq 0 n)).
  assert (Hx : strip_nan x = x).
  { unfold x. rewrite <- (map_map (fun k => m * INR k + b) Fin).
    apply strip_nan_Fin. }
  assert (Hlen : List.length x = n) by (unfold x; now rewrite length_map, length_seq).
  unfold compute_nijsse. rewrite nijsse_slopes_blocks by lia.
  rewrite Hx, Hlen. cbn [option_map]. f_equal.
  set (c := ((n - 1) / length)%nat).
  assert (Hc : (1 <= c)%nat) by (apply Nat.div_le_lower_bound; lia).
  assert (Hlo : (length * c <= n - 1)%nat) by apply Nat.Div0.mul_div_le.
  rewrite map_map.
  rewrite (map_ext_in _ (fun _ => Fin (INR length * m))).
  - apply np_nanstd_constant. destruct c; [lia | discriminate].
  - intros k Hk. apply in_seq in Hk.
    unfold block_change, linregress_slope, x.
    rewrite slice_map_seq by nia.
    destruct (positions_spread length HL) as (d & Hd & Hnz).
    unfold positions, of_nat in Hd |- *.
    rewrite <- (map_map INR Fin) in Hd |- *.
    replace (map (fun k0 => Fin (m * INR k0 + b)) (seq (k * length) length))
      with (map Fin (map (fun v => m * v + (m * INR (k * length) + b))
                         (map INR (seq 0 length)))).
    + rewrite (ls_slope_affine m _ d)
        by first [assumption | destruct length; [lia | discriminate]].
      reflexivity.
    + rewrite (seq_from (k * length)), !map_map.
      apply map_ext. intros j. f_equal. rewrite plus_INR. ring.
Qed.

Lemma compute_nijsse_linear_witness :
  (2 <= 10)%nat /\ (10 < 30)%nat /\
  compute_nijsse (map (fun k => Fin (2 * INR k + 1)) (seq 0 30)) 10
  = Some (Fin 0).
Proof.
  split; [lia|]. split; [lia|].
  apply (compute_nijsse_linear 2 1 30 10); lia.
Defined.

(** ** Detrending: what is removed *)

(** Sums over the pairs of a series and its forcing, by their moments. *)
Lemma Rsum_moments (A B C E G : R) (data : list (R * R)) :
  Rsum (map (fun p => A + B * fst p + C * snd p
                      + E * (snd p * snd p) + G * (snd p * fst p)) data) =
  A * INR (List.length data) + B * Rsum (map fst data) + C * Rsum (map snd data)
  + E * Rsum (map (fun p => snd p * snd p) data)
  + G * Rsum (map (fun p => snd p * fst p) data).
Proof.
  induction data as [|p data IH].
  - simpl. ring.
  - cbn [map Rsum fold_right List.length].
    fold (Rsum (map fst data)). fold (Rsum (map snd data)).
    fold (Rsum (map (fun p => snd p * snd p) data)).
    fold (Rsum (map (fun p => snd p * fst p) data)).
    fold (Rsum (map (fun p => A + B * fst p + C * snd p
                              + E * (snd p * snd p) + G * (snd p * fst p)) data)).
    rewrite IH, S_INR. ring.
Qed.

Lemma Rsxx_pairs (data : list (R * R)) :
  data <> [] ->
  Rsxx (map snd data) =
  Rsum (map (fun p => snd p * snd p) data)
  - Rsum (map snd data) * Rsum (map snd data) / INR (List.length data).
Proof.
  intros Hne.
  rewrite Rsxx_moments by (destruct data; [congruence | discriminate]).
  now rewrite map_map, length_map.
Qed.

Lemma varies_nonempty (data : list (R * R)) : varies data -> data <> [].
Proof. intros (p & _ & Hp & _) ->. destruct Hp. Qed.

Lemma varies_spread (data : list (R * R)) :
  varies data -> Rsxx (map snd data) <> 0.
Proof.
  intros (p & q & Hp & Hq & Hpq) Hz.
  apply Rsxx_zero_constant in Hz. rewrite Forall_forall in Hz.
  apply Hpq. rewrite (Hz (snd p)), (Hz (snd q)); [reflexivity | |]; now apply in_map.
Qed.

Lemma varies_not_constant (data : list (R * R)) :
  varies data -> ~ nonzero_constant (map snd data).
Proof.
  intros (p & q & Hp & Hq & Hpq) (k & _ & Hall).
  rewrite Forall_forall in Hall. apply Hpq.
  rewrite (Hall (snd p)), (Hall (snd q)); [reflexivity | |]; now apply in_map.
Qed.

(** The fit of a finite series against a forcing that varies: the slope is
    [ols_slope], the intercept is [mean y - slope * mean f], and the residual
    at each point is [y - intercept - slope * f]. *)
Lemma regress_finite (data : list (R * R)) :
  varies data ->
  let b := ols_slope data in
  let a := Rmean (map fst data) - b * Rmean (map snd data) in
  regress (series_of data) (forcing_of data) =
  Ok {| params := [Fin a; Fin b];
        resid := map (fun p => Fin (fst p - a - b * snd p)) data |}.
Proof.
  intros Hv b a.
  pose proof (varies_nonempty data Hv) as Hne.
  pose proof (varies_spread data Hv) as HD.
  pose proof (INR_length_nonzero data Hne) as Hn.
  assert (Hf : map snd data <> []) by (destruct data; [congruence | discriminate]).
  unfold regress, series_of, forcing_of.
  rewrite <- (map_map snd Fin), <- (map_map fst Fin).
  rewrite add_constant_adds by (try assumption; now apply varies_not_constant).
  cbn [bind].
  rewrite (OLS_fit_finite true) by (rewrite ?length_map; auto).
  unfold pinv_rows. destruct (Req_dec_T (Rsxx (map snd data)) 0) as [E|_];
    [contradiction|].
  cbn [map]. rewrite !map_map.
  assert (Hb : Rdot (map (fun p => (snd p - Rmean (map snd data))
                                   / Rsxx (map snd data)) data)
                    (map fst data) = b).
  { unfold Rdot. rewrite combine_map_same, map_map. cbn [fst snd].
    revert b a. intros b _.
    unfold b, ols_slope.
    pose proof (Rsxx_pairs data Hne) as Hsxx.
    set (D := Rsxx (map snd data)) in *.
    unfold Rmean. rewrite !length_map.
    set (n := INR (List.length data)) in *.
    set (sy := Rsum (map fst data)). set (sf := Rsum (map snd data)) in *.
    rewrite (Rsum_map_ext _ (fun p => 0 + (- (sf / n) / D) * fst p + 0 * snd p
                                      + 0 * (snd p * snd p)
                                      + (1 / D) * (snd p * fst p)))
      by (intros; field; nonzero).
    rewrite (Rsum_map_ext (fun p => (snd p - sf / n) * (fst p - sy / n))
               (fun p => (sf / n * (sy / n)) + (- (sf / n)) * fst p
                         + (- (sy / n)) * snd p
                         + 0 * (snd p * snd p) + 1 * (snd p * fst p)))
      by (intros; field; nonzero).
    rewrite !Rsum_moments. fold sy sf n. field. nonzero. }
  assert (Ha : Rdot (map (fun p => 1 / INR (List.length (map snd data))
                                   - Rmean (map snd data)
                                     * (snd p - Rmean (map snd data))
                                     / Rsxx (map snd data)) data)
                    (map fst data) = a).
  { unfold a. rewrite <- Hb.
    unfold Rdot. rewrite !combine_map_same, !map_map. cbn [fst snd].
    set (D := Rsxx (map snd data)) in *. set (mf := Rmean (map snd data)).
    unfold Rmean. rewrite !length_map.
    set (n := INR (List.length data)) in *.
    rewrite (Rsum_map_ext _ (fun p => 0 + (1 / n + mf * mf / D) * fst p + 0 * snd p
                                      + 0 * (snd p * snd p)
                                      + (- mf / D) * (snd p * fst p)))
      by (intros; field; nonzero).
    rewrite (Rsum_map_ext (fun p => (snd p - mf) / D * fst p)
               (fun p => 0 + (- mf / D) * fst p + 0 * snd p
                         + 0 * (snd p * snd p) + (1 / D) * (snd p * fst p)))
      by (intros; field; nonzero).
    rewrite !Rsum_moments. field. nonzero. }
  rewrite !Ha, !Hb. f_equal. f_equal.
  unfold exog_rows. rewrite !map_map, combine_map_same, map_map.
  apply map_ext. intros p. f_equal. unfold Rdot. cbn. ring.
Qed.

Lemma spread_scaled (A B n : R) :
  n <> 0 -> A - B * B / n <> 0 -> A * n - B * B <> 0.
Proof.
  intros Hn H Hz. apply H.
  replace (A - B * B / n) with ((A * n - B * B) / n) by (field; exact Hn).
  rewrite Hz. field. exact Hn.
Qed.

Lemma ols_slope_moments (data : list (R * R)) :
  data <> [] ->
  let n := INR (List.length data) in
  let sy := Rsum (map fst data) in
  let sf := Rsum (map snd data) in
  ols_slope data =
  (Rsum (map (fun p => snd p * fst p) data) - sf * sy / n)
  / (Rsum (map (fun p => snd p * snd p) data) - sf * sf / n).
Proof.
  intros Hne n sy sf. unfold ols_slope.
  pose proof (INR_length_nonzero data Hne) as Hn.
  rewrite (Rsxx_pairs data Hne). unfold Rmean. rewrite !length_map.
  fold n sy sf. f_equal.
  rewrite (Rsum_map_ext _
             (fun p => (sf / n * (sy / n)) + (- (sf / n)) * fst p
                       + (- (sy / n)) * snd p
                       + 0 * (snd p * snd p) + 1 * (snd p * fst p)))
    by (intros; field; nonzero).
  rewrite Rsum_moments. fold n sy sf. field. nonzero.
Qed.

(** Moments of a series transformed point by point into
    [u * y + v * f + w]. *)
Lemma moments_transformed (u v w : R) (data : list (R * R)) :
  let data' := map (fun p => (u * fst p + v * snd p + w, snd p)) data in
  List.length data' = List.length data /\
  map snd data' = map snd data /\
  Rsum (map fst data') =
    u * Rsum (map fst data) + v * Rsum (map snd data)
    + w * INR (List.length data) /\
  Rsum (map (fun p => snd p * fst p) data') =
    u * Rsum (map (fun p => snd p * fst p) data)
    + v * Rsum (map (fun p => snd p * snd p) data)
    + w * Rsum (map snd data) /\
  Rsum (map (fun p => snd p * snd p) data') =
    Rsum (map (fun p => snd p * snd p) data).
Proof.
  intros data'. unfold data'. rewrite length_map, !map_map. cbn [fst snd].
  split; [reflexivity|]. split; [reflexivity|]. split; [|split; [|reflexivity]].
  - rewrite (Rsum_map_ext _ (fun p => w + u * fst p + v * snd p
                                      + 0 * (snd p * snd p) + 0 * (snd p * fst p)))
      by (intros; ring).
    rewrite Rsum_moments. ring.
  - rewrite (Rsum_map_ext _ (fun p => 0 + 0 * fst p + w * snd p
                                      + v * (snd p * snd p) + u * (snd p * fst p)))
      by (intros; ring).
    rewrite Rsum_moments. ring.
Qed.

Lemma varies_transformed (g : R * R -> R) (data : list (R * R)) :
  varies data -> varies (map (fun p => (g p, snd p)) data).
Proof.
  intros (p & q & Hp & Hq & Hpq).
  exists (g p, snd p), (g q, snd q).
  split; [now apply (in_map (fun p => (g p, snd p)))|].
  split; [now apply (in_map (fun p => (g p, snd p)))|]. exact Hpq.
Qed.

(** The slope of [u * y + v * f + w] against [f] is [u] times the slope of
    [y], plus [v]. *)
Lemma ols_slope_transformed (u v w : R) (data : list (R * R)) :
  varies data ->
  ols_slope (map (fun p => (u * fst p + v * snd p + w, snd p)) data)
  = u * ols_slope data + v.
Proof.
  intros Hv.
  pose proof (varies_nonempty data Hv) as Hne.
  pose proof (varies_spread data Hv) as HD.
  pose proof (INR_length_nonzero data Hne) as Hn.
  destruct (moments_transformed u v w data) as (Hl & Hf & Hy & Hfy & Hff).
  rewrite Rsxx_pairs in HD by exact Hne.
  rewrite !ols_slope_moments
    by first [exact Hne | destruct data; [congruence | discriminate]].
  cbv zeta. rewrite Hl, Hf, Hy, Hfy, Hff. field.
  repeat split; try assumption; apply spread_scaled; assumption.
Qed.

Lemma detrend_varies (data : list (R * R)) :
  varies data ->
  detrend (series_of data) (forcing_of data) =
  Ok (map (fun p => Fin (fst p - ols_slope data * snd p)) data).
Proof.
  intros Hv. unfold detrend, adjusted. rewrite (regress_finite data Hv).
  cbn [bind params0 params resid]. unfold np_add_scalar.
  rewrite map_map. f_equal.
  apply map_ext. intros p. cbn [fadd]. f_equal. ring.
Qed.

(** Detrending takes away the fitted slope times the forcing, and nothing
    else: each point [y] becomes [y - slope * f], with [slope] the
    least-squares slope of the series against the forcing (the intercept is
    put back). *)
Theorem detrend_subtracts_slope (data : list (R * R)) :
  varies data ->
  detrend (series_of data) (forcing_of data) =
  Ok (map (fun p => Fin (fst p - ols_slope data * snd p)) data).
Proof.
  intros Hv. unfold detrend. rewrite (regress_finite data Hv). cbn [bind].
  unfold adjusted, params0. cbn [params resid bind].
  unfold np_add_scalar. rewrite map_map. f_equal.
  apply map_ext. intros p. cbn. f_equal. ring.
Qed.

Lemma varies_5_7 : varies [(5, 0); (7, 1)].
Proof.
  exists (5, 0), (7, 1). cbn. split; [tauto|]. split; [tauto | lra].
Qed.

Lemma detrend_subtracts_slope_witness :
  varies [(5, 0); (7, 1)] /\
  detrend [Fin 5; Fin 7] [Fin 0; Fin 1] =
  Ok (map (fun p => Fin (fst p - ols_slope [(5, 0); (7, 1)] * snd p))
          [(5, 0); (7, 1)]).
Proof.
  split; [exact varies_5_7|].
  apply (detrend_subtracts_slope [(5, 0); (7, 1)]). exact varies_5_7.
Defined.

(** Detrending twice against the same forcing changes nothing more: the
    detrended series has slope zero against the forcing. *)
Theorem detrend_idempotent (data : list (R * R)) :
  varies data ->
  exists r,
    detrend (series_of data) (forcing_of data) = Ok r /\
    detrend r (forcing_of data) = Ok r.
Proof.
  intros Hv.
  set (b := ols_slope data).
  set (data' := map (fun p => (1 * fst p + (- b) * snd p + 0, snd p)) data).
  assert (Hr : map (fun p => Fin (fst p - b * snd p)) data = series_of data').
  { unfold series_of, data'. rewrite map_map. apply map_ext.
    intros p. cbn. f_equal. ring. }
  assert (Hf : forcing_of data' = forcing_of data).
  { unfold forcing_of, data'. now rewrite map_map. }
  exists (series_of data'). split.
  - rewrite <- Hr. apply detrend_varies, Hv.
  - rewrite <- Hf.
    rewrite detrend_varies by apply (varies_transformed _ data Hv).
    unfold data' at 1. rewrite ols_slope_transformed by exact Hv. fold b.
    unfold series_of. f_equal. apply map_ext. intros p. f_equal. ring.
Qed.

Lemma detrend_idempotent_witness :
  varies [(5, 0); (7, 1)] /\
  exists r,
    detrend [Fin 5; Fin 7] [Fin 0; Fin 1] = Ok r /\
    detrend r [Fin 0; Fin 1] = Ok r.
Proof.
  split; [exact varies_5_7|].
  apply (detrend_idempotent [(5, 0); (7, 1)]). exact varies_5_7.
Defined.

(** Detrending keeps a constant offset: a series raised by [c] everywhere
    comes back raised by [c] everywhere. *)
Theorem detrend_shift (data : list (R * R)) (c : R) :
  varies data ->
  exists r,
    detrend (series_of data) (forcing_of data) = Ok (map Fin r) /\
    detrend (map (fun p => Fin (fst p + c)) data) (forcing_of data)
    = Ok (map (fun v => Fin (v + c)) r).
Proof.
  intros Hv.
  set (data' := map (fun p => (1 * fst p + 0 * snd p + c, snd p)) data).
  exists (map (fun p => fst p - ols_slope data * snd p) data). split.
  - rewrite map_map. apply detrend_varies, Hv.
  - assert (Hs : map (fun p => Fin (fst p + c)) data = series_of data').
    { unfold series_of, data'. rewrite map_map. apply map_ext.
      intros p. cbn. f_equal. ring. }
    assert (Hf : forcing_of data' = forcing_of data).
    { unfold forcing_of, data'. now rewrite map_map. }
    rewrite Hs, <- Hf.
    rewrite detrend_varies by apply (varies_transformed _ data Hv).
    unfold data' at 1. rewrite ols_slope_transformed by exact Hv.
    unfold data'. rewrite !map_map. f_equal.
    apply map_ext. intros p. cbn. f_equal. ring.
Qed.

Lemma detrend_shift_witness :
  varies [(5, 0); (7, 1)] /\
  exists r,
    detrend [Fin 5; Fin 7] [Fin 0; Fin 1] = Ok (map Fin r) /\
    detrend [Fin (5 + 10); Fin (7 + 10)] [Fin 0; Fin 1]
    = Ok (map (fun v => Fin (v + 10)) r).
Proof.
  split; [exact varies_5_7|].
  apply (detrend_shift [(5, 0); (7, 1)] 10). exact varies_5_7.
Defined.

(** The residuals [remove_volcano] returns sum to zero and are orthogonal to
    the forcing. *)
Theorem remove_volcano_orthogonal (data : list (R * R)) :
  varies data ->
  exists res,
    remove_volcano (series_of data) (forcing_of data) = Ok (map Fin res) /\
    List.length res = List.length data /\
    Rsum res = 0 /\
    Rdot res (map snd data) = 0.
Proof.
  intros Hv.
  pose proof (varies_nonempty data Hv) as Hne.
  pose proof (varies_spread data Hv) as HD.
  pose proof (INR_length_nonzero data Hne) as Hn.
  pose proof (regress_finite data Hv) as Hreg. cbv zeta in Hreg.
  pose proof (ols_slope_moments data Hne) as Hb. cbv zeta in Hb.
  rewrite Rsxx_pairs in HD by exact Hne.
  set (b := ols_slope data) in *.
  set (a := Rmean (map fst data) - b * Rmean (map snd data)) in *.
  exists (map (fun p => fst p - a - b * snd p) data).
  split; [|split; [apply length_map|]].
  - unfold remove_volcano. unfold regress in Hreg.
    destruct (add_constant (forcing_of data)) as [X|e]; [|discriminate Hreg].
    cbn [bind] in *. rewrite Hreg. cbn [bind resid]. now rewrite map_map.
  - unfold a, Rmean. rewrite !length_map.
    set (n := INR (List.length data)) in *.
    split.
    + rewrite (Rsum_map_ext _
                 (fun p => (- (Rsum (map fst data) / n - b * (Rsum (map snd data) / n)))
                           + 1 * fst p + (- b) * snd p
                           + 0 * (snd p * snd p) + 0 * (snd p * fst p)))
        by (intros; ring).
      rewrite Rsum_moments. fold n. field. exact Hn.
    + unfold Rdot. rewrite combine_map_same, map_map. cbn [fst snd].
      rewrite (Rsum_map_ext _
                 (fun p => 0 + 0 * fst p
                           + (- (Rsum (map fst data) / n - b * (Rsum (map snd data) / n)))
                             * snd p
                           + (- b) * (snd p * snd p) + 1 * (snd p * fst p)))
        by (intros; ring).
      rewrite Rsum_moments, Hb. field.
      repeat split; try assumption; apply spread_scaled; assumption.
Qed.

Lemma remove_volcano_orthogonal_witness :
  varies [(5, 0); (7, 1)] /\
  exists res,
    remove_volcano [Fin 5; Fin 7] [Fin 0; Fin 1] = Ok (map Fin res) /\
    Rsum res = 0.
Proof.
  split; [exact varies_5_7|].
  destruct (remove_volcano_orthogonal [(5, 0); (7, 1)] varies_5_7)
    as (res & Hres & _ & Hsum & _).
  exists res. split; [exact Hres | exact Hsum].
Defined.

(** ** Detrending: sizes that do not fit *)

Lemma regress_mismatch (y X : list float) :
  X = [] \/ List.length y <> List.length X ->
  regress y X = Raise (refusal X).
Proof.
  intros H. unfold regress, refusal.
  destruct X as [|x0 xs]; [reflexivity|].
  destruct H as [H|H]; [discriminate|].
  apply Nat.eqb_neq in H.
  destruct (add_constant_shape (x0 :: xs) ltac:(discriminate)) as [-> | ->];
    cbn [bind]; unfold OLS_fit; cbn [exog_data];
    destruct (isfinite (np_max x0 xs)); cbn [negb];
    try reflexivity; rewrite H; reflexivity.
Qed.

(** An empty forcing, or a forcing that has not one value per point of the
    series, is always refused, before the ECS table is looked at and without
    any attempt to align the two: the regression, [remove_volcano] and both
    branches of the driver's loop end in a [MissingDataError] when the
    maximum of the forcing is not finite (a nan or a [+inf] in it), and in a
    [ValueError] otherwise. *)
Theorem size_mismatch_is_fatal (y X : list float) :
  X = [] \/ List.length y <> List.length X ->
  regress y X = Raise (refusal X) /\
  detrend y X = Raise (refusal X) /\
  remove_volcano y X = Raise (refusal X) /\
  (forall t name ts st,
      y = firstn 1001 ts ->
      past1000_branch t name ts X st = Raise (refusal X)) /\
  (forall t name ts st,
      y = skipn 151 ts ->
      crowley_00_branch t name ts X st = Raise (refusal X)).
Proof.
  intros H. pose proof (regress_mismatch y X H) as Hr.
  split; [exact Hr|]. split; [unfold detrend; now rewrite Hr|].
  split.
  - unfold remove_volcano. unfold regress in Hr.
    destruct (add_constant X) as [E|e]; cbn [bind] in *;
      [now rewrite Hr | now injection Hr as ->].
  - split; intros t name ts st ->.
    + unfold past1000_branch. now rewrite Hr.
    + unfold crowley_00_branch. now rewrite Hr.
Qed.

Lemma size_mismatch_is_fatal_witness :
  remove_volcano [Fin 1; Fin 2] [Fin 1; Fin 2; Fin 3] = Raise ValueError /\
  remove_volcano [Fin 1; Fin 2] [Fin 1; NaN; Fin 3] = Raise MissingDataError /\
  detrend [Fin 1; Fin 2] [] = Raise ValueError.
Proof.
  split; [|split].
  - apply (size_mismatch_is_fatal [Fin 1; Fin 2] [Fin 1; Fin 2; Fin 3]).
    right. cbn [List.length]. lia.
  - apply (size_mismatch_is_fatal [Fin 1; Fin 2] [Fin 1; NaN; Fin 3]).
    right. cbn [List.length]. lia.
  - apply (size_mismatch_is_fatal [Fin 1; Fin 2] []). left. reflexivity.
Defined.

(** ** The weighted mean: its value *)

Lemma masked_weights_raw (da : DataArray) :
  masked_weights da =
  (raw <- raw_weights da ;;
   wd <- xr_binop fmul raw (data da) ;;
   xr_binop fdiv wd (data da)).
Proof.
  unfold masked_weights, raw_weights.
  destruct (lat da) as [c|]; reflexivity.
Qed.

Lemma raw_weights_size (da : DataArray) (raw : array) :
  raw_weights da = Ok raw -> size raw = size (data da).
Proof.
  unfold raw_weights. destruct (lat da) as [c|]; [|discriminate]. cbn [bind].
  destruct (cdims c) as [|d1 [|d2 [|d3 ds]]]; try discriminate.
  - intros H. now apply weights_1d_inv in H.
  - intros H. now injection H as <-.
Qed.

(** The masked weight of a cell is the raw weight times [da / da]. *)
Lemma masked_weights_values (da : DataArray) (raw : array) :
  raw_weights da = Ok raw ->
  exists w,
    masked_weights da = Ok w /\
    forall e, values w e =
              fdiv (fmul (values raw e) (values (data da) e))
                   (values (data da) e).
Proof.
  intros Hraw. pose proof (raw_weights_size da raw Hraw) as Hs.
  rewrite masked_weights_raw, Hraw. cbn [bind].
  rewrite xr_binop_returns by (intros d; now rewrite Hs). cbn [bind].
  rewrite xr_binop_returns
    by (intros d; cbn [size]; rewrite Hs; now destruct (mem d _)).
  eexists. split; reflexivity.
Qed.

Lemma nansum_Fin (rs : list R) : nansum (map Fin rs) = Fin (Rsum rs).
Proof.
  unfold nansum. rewrite map_map. cbn [nan_to_zero isnan]. apply fsum_Fin.
Qed.

(** The value of the weighted mean where the cells it covers are finite and
    not zero, and their raw weights finite: the sum of weight times value
    over the sum of the weights. *)
Lemma weighted_mean_formula (da : DataArray) (raw : array)
    (names : list string) (e : env) (a omega : env -> R) :
  raw_weights da = Ok raw ->
  (forall c, lat da = Some c -> incl (cdims c) (dims (data da))) ->
  spatial_names (dims (data da)) = Some names ->
  incl names (dims (data da)) ->
  (forall cell, In cell (cells (data da) names e) ->
     values (data da) cell = Fin (a cell) /\ a cell <> 0 /\
     values raw cell = Fin (omega cell)) ->
  Rsum (map omega (cells (data da) names e)) <> 0 ->
  exists wm,
    weighted_mean da = Ok wm /\
    dims wm = filter (fun d => negb (mem d names)) (dims (data da)) /\
    values wm e =
    Fin (Rsum (map (fun cell => omega cell * a cell) (cells (data da) names e))
         / Rsum (map omega (cells (data da) names e))).
Proof.
  intros Hraw Hlat Hnames Hincl Hcells Hden.
  destruct (masked_weights_values da raw Hraw) as (w & Hw & Hv).
  destruct (weighted_mean_value da w names Hw Hlat Hnames Hincl)
    as (wm & Hwm & Hdims & Hval).
  exists wm. split; [exact Hwm|]. split; [exact Hdims|].
  rewrite Hval.
  rewrite (map_ext_in _ (fun cell => Fin (omega cell * a cell))).
  - rewrite (map_ext_in (values w) (fun cell => Fin (omega cell))).
    + rewrite <- (map_map (fun cell => omega cell * a cell) Fin).
      rewrite <- (map_map omega Fin).
      rewrite !nansum_Fin. now apply fdiv_Fin.
    + intros cell Hc. destruct (Hcells cell Hc) as (Ha & Hnz & Ho).
      rewrite Hv, Ha, Ho. cbn [fmul]. rewrite fdiv_Fin by exact Hnz.
      f_equal. field. exact Hnz.
  - intros cell Hc. destruct (Hcells cell Hc) as (Ha & Hnz & Ho).
    rewrite Hv, Ha, Ho. cbn [fmul]. rewrite fdiv_Fin by exact Hnz.
    cbn [fmul]. f_equal. field. exact Hnz.
Qed.

Lemma cells_one (da : array) (d : string) (e : env) :
  cells da [d] e = map (upd e d) (seq 0 (size da d)).
Proof.
  unfold cells. cbn [map enumerate].
  induction (seq 0 (size da d)) as [|k ks IH]; [reflexivity|].
  cbn [flat_map map app]. now rewrite IH.
Qed.

Lemma upd_same (e : env) (d : string) (k : nat) : upd e d k d = k.
Proof. unfold upd. now rewrite String.eqb_refl. Qed.

Lemma nth_map_seq {A} (f : nat -> A) (n k : nat) (d : A) :
  (k < n)%nat -> nth k (map f (seq 0 n)) d = f k.
Proof.
  intros Hk. rewrite (nth_indep _ d (f 0%nat)) by (now rewrite length_map, length_seq).
  rewrite map_nth, seq_nth by exact Hk. reflexivity.
Qed.

(** For a field whose last dimension is [lat], with a one-dimensional
    latitude: where the cells of a time step are finite and not zero, the
    result is their mean weighted by the cosine of the latitude in
    degrees. *)
Theorem weighted_mean_cos_latitude (da : DataArray) (c : coordinate)
    (e : env) (phi a : nat -> R) :
  lat da = Some c -> cdims c = ["lat"] ->
  last (map Some (dims (data da))) None = Some "lat" ->
  (forall k, (k < size (data da) "lat")%nat ->
     cvalues c (upd (fun _ => O) "lat" k) = Fin (phi k) /\
     values (data da) (upd e "lat" k) = Fin (a k) /\ a k <> 0) ->
  Rsum (map (fun k => cos (phi k * (PI / 180))) (seq 0 (size (data da) "lat")))
    <> 0 ->
  exists wm,
    weighted_mean da = Ok wm /\
    dims wm = filter (fun d => negb (mem d ["lat"])) (dims (data da)) /\
    values wm e =
    Fin (Rsum (map (fun k => cos (phi k * (PI / 180)) * a k)
                   (seq 0 (size (data da) "lat")))
         / Rsum (map (fun k => cos (phi k * (PI / 180)))
                     (seq 0 (size (data da) "lat")))).
Proof.
  intros Hc Hcd Hlast Hk Hden.
  set (n := size (data da) "lat") in *.
  assert (Hmem : In "lat" (dims (data da))).
  { clear - Hlast. induction (dims (data da)) as [|d ds IH]; [discriminate|].
    destruct ds as [|d' ds']; [injection Hlast as ->; now left|].
    right. apply IH. exact Hlast. }
  assert (Hraw : exists raw,
             raw_weights da = Ok raw /\
             forall e', values raw e' =
               fmul (Fin 1)
                    (nth (e' "lat")
                         (map (fun k => cos_deg (cvalues c (upd (fun _ => O) "lat" k)))
                              (seq 0 n)) NaN)).
  { unfold raw_weights. rewrite Hc. cbn [bind]. rewrite Hcd.
    unfold weights_1d. rewrite Hlast, Nat.eqb_refl.
    eexists. split; reflexivity. }
  destruct Hraw as (raw & Hraw & Hrv).
  destruct (weighted_mean_formula da raw ["lat"] e
              (fun cell => a (cell "lat"))
              (fun cell => 1 * cos (phi (cell "lat") * (PI / 180))))
    as (wm & Hwm & Hdims & Hval).
  - exact Hraw.
  - intros c' Hc'. assert (c' = c) by congruence. subst c'.
    rewrite Hcd. intros d [<- | []]. exact Hmem.
  - unfold spatial_names. apply mem_In in Hmem. now rewrite Hmem.
  - intros d [<- | []]. exact Hmem.
  - intros cell Hcell. rewrite cells_one in Hcell.
    apply in_map_iff in Hcell. destruct Hcell as (k & <- & Hin).
    apply in_seq in Hin. rewrite upd_same.
    destruct (Hk k) as (Hphi & Ha & Hnz); [lia|].
    split; [exact Ha|]. split; [exact Hnz|].
    rewrite Hrv, upd_same, nth_map_seq by lia. now rewrite Hphi.
  - rewrite cells_one, map_map. fold n.
    rewrite (Rsum_map_ext _ (fun k => 1 * cos (phi k * (PI / 180))))
      by (intros k; now rewrite upd_same).
    rewrite Rsum_scal. lra.
  - exists wm. split; [exact Hwm|]. split; [exact Hdims|].
    rewrite Hval. rewrite cells_one, !map_map. fold n. f_equal.
    rewrite (Rsum_map_ext _ (fun k => 1 * (cos (phi k * (PI / 180)) * a k)))
      by (intros k; rewrite upd_same; ring).
    rewrite (Rsum_map_ext (fun k => 1 * cos _)
                          (fun k => 1 * cos (phi k * (PI / 180))))
      by (intros k; now rewrite upd_same).
    rewrite !Rsum_scal. field. exact Hden.
Qed.

Lemma weighted_mean_cos_latitude_witness :
  exists wm,
    weighted_mean (zonal_field (Fin 2)) = Ok wm /\
    values wm (fun _ => O) =
    Fin ((cos (0 * (PI / 180)) * 2 + (cos (60 * (PI / 180)) * 2 + 0))
         / (cos (0 * (PI / 180)) + (cos (60 * (PI / 180)) + 0))).
Proof.
  destruct (weighted_mean_cos_latitude (zonal_field (Fin 2)) (lat_0_60 "lat")
              (fun _ => O) (fun k => match k with O => 0 | _ => 60 end)
              (fun _ => 2))
    as (wm & Hwm & _ & Hval).
  - reflexivity.
  - reflexivity.
  - reflexivity.
  - intros k Hk. split; [|split; [reflexivity | lra]].
    cbn [lat_0_60 cvalues]. rewrite upd_same. now destruct k.
  - cbn. rewrite Rmult_0_l, cos_0.
    replace (60 * (PI / 180)) with (PI / 3) by field.
    rewrite cos_PI3. lra.
  - exists wm. split; [exact Hwm | exact Hval].
Defined.

(** For a two-dimensional latitude the weight of a cell is the cosine of
    that cell's own latitude: where the cells of a time step are finite and
    not zero, the result is their mean weighted cell by cell. *)
Theorem weighted_mean_cell_latitude (da : DataArray) (c : coordinate)
    (names : list string) (e : env) (phi a : env -> R) :
  lat da = Some c ->
  (exists d1 d2, cdims c = [d1; d2]) ->
  incl (cdims c) (dims (data da)) ->
  spatial_names (dims (data da)) = Some names ->
  incl names (dims (data da)) ->
  (forall cell, In cell (cells (data da) names e) ->
     cvalues c cell = Fin (phi cell) /\
     values (data da) cell = Fin (a cell) /\ a cell <> 0) ->
  Rsum (map (fun cell => cos (phi cell * (PI / 180)))
            (cells (data da) names e)) <> 0 ->
  exists wm,
    weighted_mean da = Ok wm /\
    dims wm = filter (fun d => negb (mem d names)) (dims (data da)) /\
    values wm e =
    Fin (Rsum (map (fun cell => cos (phi cell * (PI / 180)) * a cell)
                   (cells (data da) names e))
         / Rsum (map (fun cell => cos (phi cell * (PI / 180)))
                     (cells (data da) names e))).
Proof.
  intros Hc (d1 & d2 & Hcd) Hsub Hnames Hincl Hcells Hden.
  apply (weighted_mean_formula da (weights_2d (data da) c) names e a
           (fun cell => cos (phi cell * (PI / 180)))); try assumption.
  - unfold raw_weights. rewrite Hc. cbn [bind]. now rewrite Hcd.
  - intros c' Hc'. assert (c' = c) by congruence. now subst c'.
  - intros cell Hcell. destruct (Hcells cell Hcell) as (Hphi & Ha & Hnz).
    split; [exact Ha|]. split; [exact Hnz|].
    cbn [weights_2d values]. now rewrite Hphi.
Qed.

Lemma weighted_mean_cell_latitude_witness :
  exists wm,
    weighted_mean (curvilinear_field (Fin 2)) = Ok wm /\
    dims wm = ["time"] /\
    exists num den, values wm (fun _ => O) = Fin (num / den) /\ num = 2 * den.
Proof.
  destruct (weighted_mean_cell_latitude (curvilinear_field (Fin 2))
              {| cdims := ["j"; "i"]; cvalues := fun _ => Fin 0 |}
              ["i"; "j"] (fun _ => O) (fun _ => 0) (fun _ => 2))
    as (wm & Hwm & Hdims & Hval).
  - reflexivity.
  - exists "j", "i". reflexivity.
  - intros d [<- | [<- | []]]; simpl; tauto.
  - reflexivity.
  - intros d [<- | [<- | []]]; simpl; tauto.
  - intros cell _. split; [reflexivity|]. split; [reflexivity | lra].
  - cbn. rewrite Rmult_0_l, cos_0. lra.
  - exists wm. split; [exact Hwm|]. split; [exact Hdims|].
    eexists. eexists. split; [exact Hval|]. cbn. ring.
Defined.

(** ** The weighted mean: missing cells and errors *)

Lemma fold_fadd_zeros {A} (f : A -> float) (l : list A) (acc : R) :
  (forall x, In x l -> f x = NaN) ->
  fold_left fadd (map (fun x => nan_to_zero (f x)) l) (Fin acc) = Fin acc.
Proof.
  revert acc. induction l as [|x l IH]; intros acc H; [reflexivity|].
  cbn [map fold_left]. rewrite (H x (or_introl eq_refl)). cbn.
  rewrite Rplus_0_r. apply IH. intros y Hy. apply H. now right.
Qed.

Lemma nansum_all_nan {A} (f : A -> float) (l : list A) :
  (forall x, In x l -> f x = NaN) -> nansum (map f l) = Fin 0.
Proof.
  intros H. unfold nansum, fsum. rewrite map_map. now apply fold_fadd_zeros.
Qed.

(** A time step whose cells are all missing, or zero, comes back as
    not-a-number, without any error: the mask [weights*da/da] removes a cell
    that holds 0 just as it removes a missing one, and both sums are then
    empty. *)
Theorem weighted_mean_nothing_counted (da : DataArray) (w : array)
    (names : list string) (e : env) :
  masked_weights da = Ok w ->
  (forall c, lat da = Some c -> incl (cdims c) (dims (data da))) ->
  spatial_names (dims (data da)) = Some names ->
  incl names (dims (data da)) ->
  (forall cell, In cell (cells (data da) names e) ->
     values (data da) cell = NaN \/ values (data da) cell = Fin 0) ->
  exists wm, weighted_mean da = Ok wm /\ values wm e = NaN.
Proof.
  intros Hw Hlat Hnames Hincl Hcells.
  destruct (weighted_mean_value da w names Hw Hlat Hnames Hincl)
    as (wm & Hwm & _ & Hval).
  exists wm. split; [exact Hwm|]. rewrite Hval.
  destruct (masked_weights_inv da w Hw) as (_ & raw & _ & _ & _ & _ & _ & Hv).
  assert (HW : forall cell, In cell (cells (data da) names e) -> values w cell = NaN).
  { intros cell Hc. rewrite Hv.
    destruct (Hcells cell Hc) as [-> | ->]; [apply fdiv_nan_r | apply mask_zero]. }
  rewrite (nansum_all_nan (values w)) by exact HW.
  rewrite nansum_all_nan; [apply fdiv_zero_zero|].
  intros cell Hc. rewrite (HW cell Hc). apply fmul_nan_r.
Qed.

Lemma weighted_mean_nothing_counted_witness :
  exists wm,
    weighted_mean (zonal_field NaN) = Ok wm /\ values wm (fun _ => O) = NaN.
Proof.
  destruct (zonal_field_weights NaN) as (w & Hw & _).
  apply (weighted_mean_nothing_counted (zonal_field NaN) w ["lat"] (fun _ => O)).
  - exact Hw.
  - intros c Hc. injection Hc as <-. intros d [<- | []]. simpl. tauto.
  - reflexivity.
  - intros d [<- | []]. simpl. tauto.
  - intros cell _. left. reflexivity.
Defined.

Lemma xr_sum_errors (names : list string) (a : array) (e : exception) :
  xr_sum names a = Raise e -> e = ValueError.
Proof.
  unfold xr_sum. destruct (forallb _ _); [discriminate|].
  intros H. now injection H as <-.
Qed.

Lemma mean_over_errors (names : list string) (da w : array) (e : exception) :
  mean_over names da w = Raise e -> e = ValueError.
Proof.
  unfold mean_over. intros H.
  destruct (xr_binop fmul da w) as [dw|e1] eqn:E1;
    [|injection H as <-; now apply xr_binop_errors in E1].
  cbn [bind] in H.
  destruct (xr_sum names dw) as [num|e2] eqn:E2;
    [|injection H as <-; now apply xr_sum_errors in E2].
  cbn [bind] in H.
  destruct (xr_sum names w) as [den|e3] eqn:E3;
    [|injection H as <-; now apply xr_sum_errors in E3].
  cbn [bind] in H. now apply xr_binop_errors in H.
Qed.

(** Whatever the field, a call of [weighted_mean] that does not return ends
    in one of four ways: no [lat] coordinate, a [lat] of neither one nor two
    dimensions, sizes or dimensions that do not fit, or no recognised
    dimension name.  Missing data is never an error. *)
Theorem weighted_mean_errors (da : DataArray) (e : exception) :
  weighted_mean da = Raise e ->
  (e = AttributeError /\ lat da = None) \/
  e = UnboundLocalError "weights" \/
  e = ValueError \/
  (e = UnboundLocalError "wm" /\ spatial_names (dims (data da)) = None).
Proof.
  rewrite weighted_mean_branch. intros H.
  destruct (masked_weights da) as [w|e0] eqn:Ew.
  - cbn [bind] in H.
    destruct (spatial_names (dims (data da))) as [names|].
    + apply mean_over_errors in H. tauto.
    + injection H as <-. tauto.
  - injection H as <-.
    destruct (masked_weights_errors da e0 Ew) as [-> | [-> | ->]]; try tauto.
    left. split; [reflexivity|].
    unfold masked_weights in Ew. destruct (lat da) as [c|]; [|reflexivity].
    exfalso. cbn [bind] in Ew.
    destruct (match cdims c with [] => _ | _ => _ end) as [raw|e1] eqn:E.
    + cbn [bind] in Ew. destruct (xr_binop fmul raw (data da)) as [wd|e2] eqn:E2.
      * cbn [bind] in Ew. apply xr_binop_errors in Ew. discriminate.
      * injection Ew as ->. apply xr_binop_errors in E2. discriminate.
    + injection Ew as ->.
      destruct (cdims c) as [|d1 [|d2 [|d3 ds]]]; try discriminate.
      apply weights_1d_errors in E. discriminate.
Qed.

Lemma weighted_mean_errors_witness :
  weighted_mean rotated_field = Raise (UnboundLocalError "wm") /\
  spatial_names (dims (data rotated_field)) = None.
Proof.
  assert (H : weighted_mean rotated_field = Raise (UnboundLocalError "wm"))
    by reflexivity.
  split; [exact H|].
  destruct (weighted_mean_errors rotated_field _ H)
    as [[E _] | [E | [E | [_ Hn]]]]; try discriminate E. exact Hn.
Defined.

(** A field that has the first dimension of a pair and not the second ([i]
    without [j], [nlat] without [nlon], [x] without [y]) is refused with a
    [ValueError]: the sum over the pair does not find its second
    dimension. *)
Theorem weighted_mean_half_pair (da : DataArray) (w : array)
    (names : list string) :
  masked_weights da = Ok w ->
  (forall c, lat da = Some c -> incl (cdims c) (dims (data da))) ->
  spatial_names (dims (data da)) = Some names ->
  ~ incl names (dims (data da)) ->
  weighted_mean da = Raise ValueError.
Proof.
  intros Hw Hlat Hnames Hnot.
  destruct (masked_weights_inv da w Hw)
    as (c & raw & Hc & _ & _ & Hsup & Hsize & _).
  specialize (Hlat c Hc).
  rewrite weighted_mean_branch, Hw, Hnames. cbn [bind]. unfold mean_over.
  rewrite xr_binop_returns by (intros d; now rewrite Hsize). cbn [bind].
  unfold xr_sum at 1. cbn [dims].
  destruct (forallb _ names) eqn:E; [|reflexivity].
  exfalso. apply Hnot. intros d Hd.
  rewrite forallb_forall in E. specialize (E d Hd).
  rewrite mem_app in E. apply orb_prop in E. destruct E as [E|E].
  - now apply mem_In.
  - apply mem_In, filter_In in E. destruct E as [E _].
    destruct (Hsup d E) as [H|H]; [exact H | apply Hlat, H].
Qed.

Lemma weighted_mean_half_pair_witness :
  spatial_names (dims (data strip_field)) = Some ["i"; "j"] /\
  weighted_mean strip_field = Raise ValueError.
Proof.
  split; [reflexivity|].
  assert (Hw : exists w, masked_weights strip_field = Ok w)
    by (eexists; reflexivity).
  destruct Hw as [w Hw].
  apply (weighted_mean_half_pair strip_field w ["i"; "j"]).
  - exact Hw.
  - intros c Hc. injection Hc as <-. intros d [<- | []]. simpl. tauto.
  - reflexivity.
  - intros H. specialize (H "j" (or_intror (or_introl eq_refl))).
    simpl in H. destruct H as [H | [H | []]]; discriminate.
Defined.

(** ** The run: what a completed run implies about its inputs *)

Lemma ecs_lookup_row (t : list EcsTable.row) (name : string) (e : float) :
  ecs_lookup t name = Ok e ->
  exists r, In r t /\ EcsTable.model_name r = name /\ EcsTable.ecs r = e.
Proof.
  unfold ecs_lookup.
  destruct (filter _ t) as [|r rest] eqn:E; [discriminate|].
  intros H. injection H as <-.
  assert (Hin : In r (filter (fun r => String.eqb (EcsTable.model_name r) name) t))
    by (rewrite E; now left).
  apply filter_In in Hin. destruct Hin as [Hin Hn]. apply String.eqb_eq in Hn.
  exists r. tauto.
Qed.

Lemma ec_data_rows (df : columns) (t : list EcsTable.row) (st : state)
    (ec : list EcData.row) :
  ec_data df t st = Ok ec ->
  List.length t = List.length (model_keys df) /\
  List.length ec = List.length (model_keys df).
Proof.
  unfold ec_data. destruct (_ && _) eqn:Hlen; [|discriminate].
  intros H. injection H as <-.
  repeat (apply andb_prop in Hlen; destruct Hlen as [Hlen ?]).
  repeat match goal with
         | H : (_ =? _)%nat = true |- _ => apply Nat.eqb_eq in H
         end.
  rewrite length_map in Hlen. split; [exact Hlen|].
  destruct (ec_rows_columns (model_keys df) (map EcsTable.generation t)
              (original_cox st) (rv_cox st) (original_nijsse st)
              (rv_nijsse st) (ecs_vals st)) as (Hm & _ & _);
    rewrite ?length_map; try assumption.
  rewrite <- Hm at 2. now rewrite length_map.
Qed.

Lemma Forall2_map_same {A B C} (P : B -> C -> Prop) (f : A -> B) (g : A -> C)
    (l : list A) :
  Forall2 P (map f l) (map g l) -> forall x, In x l -> P (f x) (g x).
Proof.
  induction l as [|y l IH]; intros HF x Hx; [destruct Hx|].
  cbn [map] in HF. inversion HF; subst.
  destruct Hx as [<- | Hx]; [assumption | now apply IH].
Qed.

(** A run that completes has found a row of the ECS table for every model,
    carrying the ECS value written out for it; a model without a row leaves
    no output at all. *)
Theorem completed_run_has_ecs_rows (F : forcing_data) (df : columns)
    (t : list EcsTable.row) (ec : list EcData.row) (rv : columns) :
  generate_ec_data F df t = Ok (ec, rv) ->
  forall row, In row ec ->
    In (EcData.model row) (model_keys df) /\
    exists r, In r t /\
              EcsTable.model_name r = EcData.model row /\
              EcsTable.ecs r = EcData.ecs row.
Proof.
  intros H row Hrow.
  destruct (ec_data_columns _ _ _ _ _ H) as (Hm & _ & He).
  split; [rewrite <- Hm; now apply in_map|].
  rewrite <- Hm in He.
  apply ecs_lookup_row.
  apply (Forall2_map_same _ _ _ _ He row Hrow).
Qed.

Lemma completed_run_has_ecs_rows_witness :
  exists ec rv,
    generate_ec_data sample_forcing pair_df pair_ecs = Ok (ec, rv) /\
    forall row, In row ec ->
      exists r, In r pair_ecs /\ EcsTable.model_name r = EcData.model row.
Proof.
  destruct (pair_run pair_ecs (or_introl eq_refl)) as (ec & rv & Hrun & _).
  exists ec, rv. split; [exact Hrun|].
  intros row Hrow.
  destruct (completed_run_has_ecs_rows _ _ _ _ _ Hrun row Hrow)
    as (_ & r & Hr & Hn & _).
  exists r. split; [exact Hr | exact Hn].
Defined.

(** A run that completes has written exactly one summary row per model, in
    the order of the columns of [ts.csv]; and it completes only if the ECS
    table has exactly as many rows as there are models, whatever their
    names (one row more, and the summary table cannot be built). *)
Theorem one_row_per_model (F : forcing_data) (df : columns)
    (t : list EcsTable.row) (ec : list EcData.row) (rv : columns) :
  generate_ec_data F df t = Ok (ec, rv) ->
  map EcData.model ec = model_keys df /\
  List.length ec = List.length (model_keys df) /\
  List.length t = List.length (model_keys df).
Proof.
  intros H.
  destruct (ec_data_columns _ _ _ _ _ H) as (Hm & _ & _).
  split; [exact Hm|].
  unfold generate_ec_data in H.
  bind_inv H. rename a into st.
  bind_inv H. rename a into rows.
  bind_inv H. injection H as <- <-.
  destruct (ec_data_rows _ _ _ _ E0) as [Ht Hec]. tauto.
Qed.

Lemma one_row_per_model_witness :
  exists ec rv,
    generate_ec_data sample_forcing pair_df pair_ecs = Ok (ec, rv) /\
    map EcData.model ec = ["CCSM4"; "MRI-ESM2-0"] /\
    List.length ec = 2%nat.
Proof.
  destruct (pair_run pair_ecs (or_introl eq_refl)) as (ec & rv & Hrun & _).
  exists ec, rv. split; [exact Hrun|].
  destruct (one_row_per_model _ _ _ _ _ Hrun) as (Hm & Hl & _).
  split; [exact Hm | exact Hl].
Defined.

Lemma for_each_passes {St} (body : St -> nat -> result St) (k : nat) :
  forall a st st',
    for_each body (seq a k) st = Ok st' ->
    forall i, (a <= i < a + k)%nat -> exists s s', body s i = Ok s'.
Proof.
  induction k as [|k IH]; intros a st st' H i Hi; [lia|].
  cbn [seq for_each] in H.
  destruct (body st a) as [st1|e] eqn:E; [|discriminate]. cbn [bind] in H.
  destruct (Nat.eq_dec i a) as [-> | Hne]; [eauto|].
  apply (IH (S a) st1 st' H). lia.
Qed.

(** The list [forcings] has 18 entries: a run that completes had at most 18
    models, except that a model named ['HadCM3'] is accepted at any
    position. *)
Theorem at_most_18_models (F : forcing_data) (df : columns)
    (t : list EcsTable.row) (st : state) :
  run_models F df t = Ok st ->
  forall i name,
    nth_error (model_keys df) i = Some name -> (18 <= i)%nat ->
    name = "HadCM3".
Proof.
  intros H i name Hname Hi. unfold run_models in H.
  assert (Hlt : (i < List.length (model_keys df))%nat)
    by (apply nth_error_Some; congruence).
  destruct (for_each_passes _ _ _ _ _ H i) as (s & s' & Hpass); [lia|].
  unfold process_model in Hpass. unfold list_index at 1 in Hpass.
  rewrite Hname in Hpass. cbn [bind] in Hpass.
  destruct (df_column df name) as [ts|]; [|discriminate]. cbn [bind] in Hpass.
  destruct (String.eqb name "HadCM3") eqn:E; [now apply String.eqb_eq|].
  exfalso. unfold list_index in Hpass.
  destruct (nth_error forcings i) eqn:En; [|discriminate].
  assert (Hl : (i < List.length forcings)%nat)
    by (apply nth_error_Some; congruence).
  simpl in Hl. lia.
Qed.

(** A run over models that each find their series, a forcing that fits, an
    ECS row and, unless named ['HadCM3'], an entry of [forcings], goes
    through every pass. *)
Lemma for_each_completes (F : forcing_data) (df : columns)
    (t : list EcsTable.row) (k : nat) :
  forall a st,
    (forall i, (a <= i < a + k)%nat ->
       exists name ts e,
         list_index (model_keys df) i = Ok name /\
         df_column df name = Ok ts /\
         ((i < 18)%nat \/ name = "HadCM3") /\
         forcing_aligned F ts /\
         ecs_lookup t name = Ok e) ->
    exists st', for_each (process_model F df t) (seq a k) st = Ok st'.
Proof.
  induction k as [|k IH]; intros a st Hall; [now exists st|].
  destruct (Hall a) as (name & ts & e & Hname & Hts & Hi & Hal & He); [lia|].
  destruct (process_model_returns F df t st a name ts e Hname Hts Hi Hal He)
    as [st1 Hst1].
  destruct (IH (S a) st1) as [st' Hst'].
  { intros i Hi'. apply Hall. lia. }
  exists st'. cbn [seq for_each]. rewrite Hst1. exact Hst'.
Qed.

Lemma long_run :
  exists st, run_models sample_forcing long_df long_ecs = Ok st.
Proof.
  unfold run_models. apply for_each_completes.
  intros i Hi.
  assert (Hlt : (i < 19)%nat) by (cbn in Hi; lia). clear Hi.
  do 19 (destruct i as [|i];
         [ eexists; exists sample_ts, (Fin 3);
           split; [reflexivity|]; split; [reflexivity|];
           split; [first [left; lia | right; reflexivity]|];
           split; [exact sample_forcing_aligned | reflexivity] |]).
  lia.
Qed.

Lemma at_most_18_models_witness :
  exists st,
    run_models sample_forcing long_df long_ecs = Ok st /\
    nth_error (model_keys long_df) 18 = Some "HadCM3" /\
    (18 <= 18)%nat /\
    "HadCM3" = "HadCM3".
Proof.
  destruct long_run as [st Hst].
  exists st. split; [exact Hst|]. split; [reflexivity|]. split; [lia|].
  exact (at_most_18_models sample_forcing long_df long_ecs st Hst
           18%nat "HadCM3" eq_refl (le_n 18)).
Defined.

(** ** A pass of the loop: what it leaves untouched, what it measures *)

Lemma skipn_splice {A} (k : nat) (adj l : list A) :
  List.length adj = List.length (firstn k l) ->
  skipn k (adj ++ skipn k l) = skipn k l.
Proof.
  intros Hlen. rewrite length_firstn in Hlen.
  rewrite skipn_app, (skipn_all2 adj) by lia. cbn [app].
  destruct (Nat.le_gt_cases k (List.length l)) as [H|H].
  - replace (k - List.length adj)%nat with 0%nat by lia. reflexivity.
  - rewrite (skipn_all2 l) by lia. now rewrite skipn_nil.
Qed.

Lemma firstn_splice {A} (k : nat) (adj l : list A) :
  List.length adj = List.length (skipn k l) ->
  firstn k (firstn k l ++ adj) = firstn k l.
Proof.
  intros Hlen. rewrite length_skipn in Hlen.
  destruct (Nat.le_gt_cases k (List.length l)) as [H|H].
  - rewrite firstn_app, length_firstn.
    replace (k - Nat.min k (List.length l))%nat with 0%nat by lia.
    cbn [firstn]. rewrite app_nil_r, firstn_firstn. now rewrite Nat.min_id.
  - assert (adj = []) by (destruct adj; [reflexivity | simpl in Hlen; lia]).
    subst adj. rewrite app_nil_r, firstn_firstn. now rewrite Nat.min_id.
Qed.

(** A pass of the loop that returns, with the branch it has run: the branch
    of ['crowley_00'] for a model not named ['HadCM3'] to which [forcings]
    gives that forcing, and the branch on the first 1001 points for every
    other model. *)
Lemma process_model_branch (F : forcing_data) (df : columns)
    (t : list EcsTable.row) (st st' : state) (i : nat) :
  process_model F df t st i = Ok st' ->
  exists name ts,
    list_index (model_keys df) i = Ok name /\
    df_column df name = Ok ts /\
    (((String.eqb name "HadCM3" = true \/
       list_index forcings i <> Ok "crowley_00") /\
      exists X, past1000_branch t name ts X st = Ok st') \/
     (String.eqb name "HadCM3" = false /\
      list_index forcings i = Ok "crowley_00" /\
      crowley_00_branch t name ts (crowley_2000_forcing F) st = Ok st')).
Proof.
  unfold process_model. intros H.
  bind_inv H. rename a into name.
  bind_inv H. rename a into ts.
  exists name, ts. split; [reflexivity|]. split; [exact E0|].
  destruct (String.eqb name "HadCM3") eqn:Hhad; [left; eauto|].
  bind_inv H. rename a into f.
  destruct (forcings_known i f E1) as [-> | [-> | [-> | ->]]]; cbn in H;
    first [ right; split; [reflexivity|]; split; [reflexivity | exact H]
          | left; split; [right; discriminate | eauto] ].
Qed.

(** A pass changes only the window it regresses.  In the ['crowley_00']
    branch (a model not named ['HadCM3'] to which [forcings] gives that
    forcing) the stored series agrees with the original on the first 151
    points; in every other case the branch regresses the first 1001 points
    and the stored series agrees with the original from point 1001 on. *)
Theorem unregressed_points_kept (F : forcing_data) (df : columns)
    (t : list EcsTable.row) (st st' : state) (i : nat) :
  process_model F df t st i = Ok st' ->
  exists name ts col,
    list_index (model_keys df) i = Ok name /\
    df_column df name = Ok ts /\
    dict_get (df_rv st') name = Some col /\
    ((String.eqb name "HadCM3" = false /\
      list_index forcings i = Ok "crowley_00" /\
      firstn 151 col = firstn 151 ts) \/
     ((String.eqb name "HadCM3" = true \/
       list_index forcings i <> Ok "crowley_00") /\
      skipn 1001 col = skipn 1001 ts)).
Proof.
  intros H.
  destruct (process_model_branch _ _ _ _ _ _ H)
    as (name & ts & Hname & Hts & [[Hb [X HX]] | (Hhad & Hf & HX)]);
    exists name, ts.
  - destruct (past1000_branch_inv _ _ _ _ _ _ HX)
      as (adj & e & n0 & n1 & _ & Hlen & _ & _ & _ & ->).
    exists (adj ++ skipn 1001 ts).
    split; [exact Hname|]. split; [exact Hts|].
    split; [apply dict_get_set|]. right.
    split; [exact Hb | now apply skipn_splice].
  - destruct (crowley_00_branch_inv _ _ _ _ _ _ HX)
      as (adj & e & n0 & n1 & _ & Hlen & _ & _ & _ & ->).
    exists (firstn 151 ts ++ adj).
    split; [exact Hname|]. split; [exact Hts|].
    split; [apply dict_get_set|]. left.
    split; [exact Hhad|]. split; [exact Hf|]. now apply firstn_splice.
Qed.

Lemma length_positions (n : nat) : List.length (positions n) = n.
Proof. unfold positions. now rewrite length_map, length_seq. Qed.

Lemma millennium_forcing_aligned :
  forcing_aligned millennium_forcing millennium_ts.
Proof.
  unfold forcing_aligned, millennium_forcing, millennium_ts;
    cbn [gao_2008_forcing crowley_2008_forcing evolv2k_forcing
         crowley_2000_forcing].
  split; [|split; [|split]];
    (apply aligned_positions; [|lia]);
    rewrite ?length_firstn, ?length_skipn, length_positions; lia.
Qed.

Lemma millennium_returns :
  exists st',
    process_model millennium_forcing millennium_df sample_ecs initial_state 0
    = Ok st'.
Proof.
  apply (process_model_returns _ _ _ _ _ "bcc-csm1-1" millennium_ts (Fin 2.8));
    [reflexivity | reflexivity | left; lia | exact millennium_forcing_aligned
     | reflexivity].
Qed.

Lemma unregressed_points_kept_witness :
  (exists st' col,
     process_model sample_forcing sample_df sample_ecs initial_state 3 = Ok st' /\
     dict_get (df_rv st') "FGOALS-gl" = Some col /\
     firstn 151 col = firstn 151 sample_ts) /\
  (exists st' col,
     process_model millennium_forcing millennium_df sample_ecs initial_state 0
     = Ok st' /\
     dict_get (df_rv st') "bcc-csm1-1" = Some col /\
     skipn 1001 col = skipn 1001 millennium_ts).
Proof.
  split.
  - destruct sample_crowley_00_returns as [st' Hst'].
    destruct (unregressed_points_kept _ _ _ _ _ _ Hst')
      as (name & ts & col & Hname & Hts & Hcol & Hkept).
    injection Hname as <-. injection Hts as <-.
    exists st', col. split; [exact Hst'|]. split; [exact Hcol|].
    destruct Hkept as [(_ & _ & Hk) | ([Hb | Hb] & _)];
      [exact Hk | discriminate Hb | exfalso; apply Hb; reflexivity].
  - destruct millennium_returns as [st' Hst'].
    destruct (unregressed_points_kept _ _ _ _ _ _ Hst')
      as (name & ts & col & Hname & Hts & Hcol & Hkept).
    injection Hname as <-. injection Hts as <-.
    exists st', col. split; [exact Hst'|]. split; [exact Hcol|].
    destruct Hkept as [(_ & Hf & _) | (_ & Hk)];
      [discriminate Hf | exact Hk].
Defined.

Lemma compute_nijsse_default_inv (x : list float) (v : float) :
  compute_nijsse_default x = Ok v -> compute_nijsse x 10 = Some v.
Proof.
  unfold compute_nijsse_default. destruct (compute_nijsse x 10); [|discriminate].
  intros H. now injection H as ->.
Qed.

(** What a pass measures.  The raw metrics are those of the model's whole
    original series; and in every branch but that of ['crowley_00'] the
    adjusted metrics are those of exactly the series stored in [df_rv]. *)
Theorem metrics_of_stored_series (F : forcing_data) (df : columns)
    (t : list EcsTable.row) (st st' : state) (i : nat) :
  process_model F df t st i = Ok st' ->
  exists name ts n0,
    list_index (model_keys df) i = Ok name /\
    df_column df name = Ok ts /\
    original_cox st' = original_cox st ++ [compute_cox ts] /\
    compute_nijsse ts 10 = Some n0 /\
    original_nijsse st' = original_nijsse st ++ [n0] /\
    ((list_index forcings i = Ok "crowley_00" /\
      String.eqb name "HadCM3" = false) \/
     exists col n1,
       dict_get (df_rv st') name = Some col /\
       rv_cox st' = rv_cox st ++ [compute_cox col] /\
       compute_nijsse col 10 = Some n1 /\
       rv_nijsse st' = rv_nijsse st ++ [n1]).
Proof.
  intros H.
  destruct (process_model_inv _ _ _ _ _ _ H)
    as (name & ts & Hname & Hts & [[X HX] | (Hhad & Hf & HX)]);
    exists name, ts.
  - destruct (past1000_branch_inv _ _ _ _ _ _ HX)
      as (adj & e & n0 & n1 & _ & _ & _ & Hn0 & Hn1 & ->).
    exists n0. cbn [appended original_cox original_nijsse rv_cox rv_nijsse df_rv].
    split; [exact Hname|]. split; [exact Hts|]. split; [reflexivity|].
    split; [now apply compute_nijsse_default_inv|]. split; [reflexivity|].
    right. exists (adj ++ skipn 1001 ts), n1.
    split; [apply dict_get_set|]. split; [reflexivity|].
    split; [now apply compute_nijsse_default_inv | reflexivity].
  - destruct (crowley_00_branch_inv _ _ _ _ _ _ HX)
      as (adj & e & n0 & n1 & _ & _ & _ & Hn0 & _ & ->).
    exists n0. cbn [appended original_cox original_nijsse].
    split; [exact Hname|]. split; [exact Hts|]. split; [reflexivity|].
    split; [now apply compute_nijsse_default_inv|]. split; [reflexivity|].
    left. tauto.
Qed.

Lemma metrics_of_stored_series_witness :
  exists st' col,
    process_model sample_forcing sample_df sample_ecs initial_state 0 = Ok st' /\
    original_cox st' = [compute_cox sample_ts] /\
    dict_get (df_rv st') "bcc-csm1-1" = Some col /\
    rv_cox st' = [compute_cox col].
Proof.
  destruct (process_model_returns sample_forcing sample_df sample_ecs
              initial_state 0 "bcc-csm1-1" sample_ts (Fin 2.8))
    as [st' Hst'];
    [reflexivity | reflexivity | left; lia | exact sample_forcing_aligned
     | reflexivity |].
  destruct (metrics_of_stored_series _ _ _ _ _ _ Hst')
    as (name & ts & n0 & Hname & Hts & Hoc & _ & _ & Hrv).
  injection Hname as <-. injection Hts as <-.
  destruct Hrv as [[Hf _] | (col & n1 & Hcol & Hrc & _)]; [discriminate Hf|].
  exists st', col.
  split; [exact Hst'|]. split; [exact Hoc|]. split; [exact Hcol | exact Hrc].
Defined.

(** ** The table of adjusted series *)

Lemma dict_set_new (d : columns) (name : string) (v : list float) :
  ~ In name (map fst d) -> map fst (dict_set d name v) = map fst d ++ [name].
Proof.
  induction d as [|[k w] d IH]; intros Hn; [reflexivity|].
  cbn [dict_set]. destruct (String.eqb k name) eqn:E.
  - apply String.eqb_eq in E. subst. exfalso. apply Hn. now left.
  - cbn [map fst app]. f_equal. apply IH. intros H. apply Hn. now right.
Qed.

Lemma for_each_keys (F : forcing_data) (df : columns)
    (t : list EcsTable.row) (k : nat) :
  forall a st st',
    for_each (process_model F df t) (seq a k) st = Ok st' ->
    NoDup (map fst (df_rv st) ++ firstn k (skipn a (model_keys df))) ->
    map fst (df_rv st') =
    map fst (df_rv st) ++ firstn k (skipn a (model_keys df)).
Proof.
  induction k as [|k IH]; intros a st st' H Hnd.
  - injection H as <-. now rewrite app_nil_r.
  - cbn [seq for_each] in H. bind_inv H. rename a0 into st1.
    destruct (process_model_length _ _ _ _ _ _ E)
      as (name & ts & col & Hname & _ & Hrv & _).
    rewrite (skipn_nth_error _ _ _ (list_index_inv _ _ _ Hname)) in Hnd |- *.
    cbn [firstn] in Hnd |- *.
    assert (Hnew : ~ In name (map fst (df_rv st))).
    { intros Hin. apply NoDup_remove_2 in Hnd. apply Hnd.
      apply in_app_iff. now left. }
    assert (Hk : map fst (df_rv st1) = map fst (df_rv st) ++ [name])
      by (rewrite Hrv; now apply dict_set_new).
    rewrite (IH _ _ _ H); rewrite Hk, <- app_assoc; [reflexivity | exact Hnd].
Qed.

(** With model names that are all different, the table of adjusted series
    has one column per model, named after it, in the order of the columns of
    [ts.csv]. *)
Theorem ts_rv_columns (F : forcing_data) (df : columns)
    (t : list EcsTable.row) (ec : list EcData.row) (rv : columns) :
  NoDup (model_keys df) ->
  generate_ec_data F df t = Ok (ec, rv) ->
  map fst rv = model_keys df.
Proof.
  intros Hnd H. unfold generate_ec_data, run_models in H.
  bind_inv H. rename a into st.
  bind_inv H. rename a into rows.
  bind_inv H. injection H as _ <-.
  assert (Hrv : a = df_rv st).
  { unfold ts_rv in E1. destruct (df_rv st) as [|[k v] d]; [congruence|].
    destruct (forallb _ d); [congruence | discriminate]. }
  subst a.
  rewrite (for_each_keys _ _ _ _ _ _ _ E);
    cbn [initial_state df_rv map app]; rewrite skipn_O, firstn_all;
    [reflexivity | exact Hnd].
Qed.

Lemma ts_rv_columns_witness :
  exists ec rv,
    generate_ec_data sample_forcing pair_df pair_ecs = Ok (ec, rv) /\
    map fst rv = ["CCSM4"; "MRI-ESM2-0"].
Proof.
  destruct (pair_run pair_ecs (or_introl eq_refl)) as (ec & rv & Hrun & _).
  exists ec, rv. split; [exact Hrun|].
  apply (ts_rv_columns sample_forcing pair_df pair_ecs ec rv); [|exact Hrun].
  repeat constructor; simpl; intuition discriminate.
Defined.

(** ** The ECS column under a permutation of the ECS table *)

Lemma ecs_column_permutation_witness :
  exists ec rv ec' rv',
    generate_ec_data sample_forcing pair_df pair_ecs = Ok (ec, rv) /\
    generate_ec_data sample_forcing pair_df pair_ecs_shuffled = Ok (ec', rv') /\
    map EcData.ecs ec = map EcData.ecs ec'.
Proof.
  destruct (pair_run pair_ecs (or_introl eq_refl)) as (ec & rv & Hrun & _).
  destruct (pair_run pair_ecs_shuffled (or_intror eq_refl))
    as (ec' & rv' & Hrun' & _).
  exists ec, rv, ec', rv'. split; [exact Hrun|]. split; [exact Hrun'|].
  apply (ecs_column_permutation sample_forcing pair_df pair_ecs
           pair_ecs_shuffled ec ec' rv rv');
    [apply Permutation_rev | | exact Hrun | exact Hrun'].
  repeat constructor; simpl; intuition discriminate.
Defined.

(** ** The yearly eVolv2k series *)

Lemma Rleb_true (a b : R) : Rleb a b = true <-> a <= b.
Proof. unfold Rleb. destruct (Rle_dec a b); split; intros; try easy. Qed.

Lemma Rleb_INR (a b : nat) : Rleb (INR a) (INR b) = (a <=? b)%nat.
Proof.
  destruct (Nat.leb_spec a b) as [H | H].
  - apply Rleb_true, le_INR, H.
  - unfold Rleb. destruct (Rle_dec (INR a) (INR b)) as [Hle | _]; [|reflexivity].
    apply lt_INR in H. lra.
Qed.

Lemma filter_filter {A} (f g : A -> bool) (l : list A) :
  filter f (filter g l) = filter (fun x => f x && g x) l.
Proof.
  induction l as [|x l IH]; [reflexivity|]. cbn [filter].
  destruct (g x); cbn [filter]; destruct (f x); cbn [andb]; now rewrite IH.
Qed.

(** Within the loop, the selection of year [i] from the series cut to
    850..1850. *)
Lemma sel_year (wm : timeseries) (i : nat) :
  (850 <= i)%nat ->
  sel_time (sel_time wm (INR 850) (INR 1850)) (INR i) (INR (i + 1)) =
  year_samples wm i.
Proof.
  intros Hi. unfold sel_time, year_samples. rewrite filter_filter.
  apply filter_ext. intros [t v]. cbn [fst].
  destruct (Rleb (INR i) t) eqn:E1; cbn [andb]; [|reflexivity].
  destruct (Rleb t (INR (i + 1))); cbn [andb]; [|reflexivity].
  replace (Rleb (INR 850) t) with true; [reflexivity|].
  symmetry. apply Rleb_true. apply Rleb_true in E1.
  apply le_INR in Hi. lra.
Qed.

Lemma evolv2k_loop_years (ts : timeseries) :
  forall m i saod fuel,
    (i + m = 1851)%nat -> (m < fuel)%nat ->
    evolv2k_loop fuel ts i saod =
    Some (saod ++ map (fun y => time_mean (sel_time ts (INR y) (INR (y + 1))))
                      (seq i m)).
Proof.
  induction m as [|m IH]; intros i saod fuel Him Hf;
    (destruct fuel as [|fuel]; [lia|]); cbn [evolv2k_loop].
  - replace (i <=? 1850)%nat with false
      by (symmetry; apply Nat.leb_gt; lia).
    cbn [seq map]. now rewrite app_nil_r.
  - replace (i <=? 1850)%nat with true
      by (symmetry; apply Nat.leb_le; lia).
    rewrite (IH (i + 1)%nat) by lia.
    cbn [seq map]. rewrite <- app_assoc. cbn [app].
    now replace (S i) with (i + 1)%nat by lia.
Qed.

Lemma evolv2k_saod_closed (wm : timeseries) :
  evolv2k_saod wm =
  Some (map (fun y => time_mean (year_samples wm y)) (seq 850 1001)).
Proof.
  unfold evolv2k_saod.
  rewrite (evolv2k_loop_years _ 1001 850 [] 1002) by lia.
  cbn [app]. f_equal. apply map_ext_in. intros y Hy.
  apply in_seq in Hy. now rewrite sel_year by lia.
Qed.

(** The loop over the years ends, whatever the record holds, with 1001
    values, one for each year from 850 to 1850.  The value of year [850 + k]
    is the mean, nan skipped, of the samples whose time lies between that
    year and the next, both bounds included, and not beyond 1850. *)
Theorem evolv2k_saod_years (wm : timeseries) :
  exists saod,
    evolv2k_saod wm = Some saod /\
    List.length saod = 1001%nat /\
    forall k, (k < 1001)%nat ->
      nth_error saod k =
      Some (np_nanmean
              (map snd (filter (fun p =>
                 Rleb (INR (850 + k)) (fst p) &&
                 Rleb (fst p) (INR (850 + k + 1)) &&
                 Rleb (fst p) (INR 1850)) wm))).
Proof.
  eexists. split; [apply evolv2k_saod_closed|]. split.
  - now rewrite length_map, length_seq.
  - intros k Hk. rewrite nth_error_map, nth_error_seq.
    replace (k <? 1001)%nat with true
      by (symmetry; apply Nat.ltb_lt; exact Hk).
    reflexivity.
Qed.

(** The last year keeps only the samples labelled exactly 1850: a record
    with no such sample, however many it has later in that year, gets nan as
    its last yearly value and as its last forcing value. *)
Theorem evolv2k_last_year (wm : timeseries) :
  (forall p, In p wm -> fst p <> INR 1850) ->
  exists saod forcing,
    evolv2k_saod wm = Some saod /\
    load_evolv2k_forcing wm = Some forcing /\
    nth_error saod 1000 = Some NaN /\
    nth_error forcing 1000 = Some NaN.
Proof.
  intros Hno.
  assert (Hlast : year_samples wm 1850 = []).
  { unfold year_samples. induction wm as [|[t v] wm IH]; [reflexivity|].
    cbn [filter fst].
    destruct (Rleb (INR 1850) t) eqn:E1; cbn [andb].
    - destruct (Rleb t (INR (1850 + 1))); cbn [andb].
      + destruct (Rleb t (INR 1850)) eqn:E3.
        * exfalso. apply (Hno (t, v)); [now left|]. cbn [fst].
          apply Rleb_true in E1, E3. lra.
        * apply IH. intros p Hp. apply Hno. now right.
      + apply IH. intros p Hp. apply Hno. now right.
    - apply IH. intros p Hp. apply Hno. now right. }
  unfold load_evolv2k_forcing. rewrite evolv2k_saod_closed. cbn [option_map].
  do 2 eexists. split; [reflexivity|]. split; [reflexivity|].
  unfold get_forcing.
  rewrite !nth_error_map, nth_error_seq.
  replace (1000 <? 1001)%nat with true by reflexivity.
  cbn [option_map]. replace (850 + 1000)%nat with 1850%nat by reflexivity.
  rewrite Hlast. unfold time_mean. cbn [map]. rewrite np_nanmean_nil.
  split; reflexivity.
Qed.

Lemma evolv2k_last_year_witness :
  exists saod forcing,
    evolv2k_saod [(1850.5, Fin 0.25)] = Some saod /\
    load_evolv2k_forcing [(1850.5, Fin 0.25)] = Some forcing /\
    nth_error saod 1000 = Some NaN /\
    nth_error forcing 1000 = Some NaN.
Proof.
  apply (evolv2k_last_year [(1850.5, Fin 0.25)]).
  intros p [<- | []]. cbn [fst].
  replace (INR 1850) with 1850 by (rewrite INR_IZR_INZ; reflexivity).
  lra.
Defined.

(** *** A record with one sample per whole year *)

Lemma filter_none_in {A} (f : A -> bool) (l : list A) :
  (forall x, In x l -> f x = false) -> filter f l = [].
Proof.
  induction l as [|x l IH]; intros H; [reflexivity|]. cbn [filter].
  rewrite (H x) by now left. apply IH. intros y Hy. apply H. now right.
Qed.

Lemma filter_all_in {A} (f : A -> bool) (l : list A) :
  (forall x, In x l -> f x = true) -> filter f l = l.
Proof.
  induction l as [|x l IH]; intros H; [reflexivity|]. cbn [filter].
  rewrite (H x) by now left. f_equal. apply IH. intros y Hy. apply H. now right.
Qed.

Lemma filter_seq_range (f : nat -> bool) (lo hi first n : nat) :
  (first <= lo)%nat -> (lo <= hi + 1)%nat -> (hi < first + n)%nat ->
  (forall y, f y = (lo <=? y)%nat && (y <=? hi)%nat) ->
  filter f (seq first n) = seq lo (hi + 1 - lo).
Proof.
  intros Hf Hlh Hh Hfy.
  replace n with ((lo - first) + ((hi + 1 - lo) + (first + n - (hi + 1))))%nat
    by lia.
  rewrite !seq_app, !filter_app.
  replace (first + (lo - first))%nat with lo by lia.
  rewrite (filter_none_in f (seq first _)), (filter_all_in f (seq lo _)),
          (filter_none_in f (seq (lo + _) _)).
  - cbn [app]. now rewrite app_nil_r.
  - intros y Hy. apply in_seq in Hy. rewrite Hfy.
    replace (y <=? hi)%nat with false by (symmetry; apply Nat.leb_gt; lia).
    apply andb_false_r.
  - intros y Hy. apply in_seq in Hy. rewrite Hfy.
    apply andb_true_intro. split; apply Nat.leb_le; lia.
  - intros y Hy. apply in_seq in Hy. rewrite Hfy.
    replace (lo <=? y)%nat with false by (symmetry; apply Nat.leb_gt; lia).
    reflexivity.
Qed.

Lemma filter_map_comm {A B} (g : A -> B) (f : B -> bool) (l : list A) :
  filter f (map g l) = map g (filter (fun x => f (g x)) l).
Proof.
  induction l as [|x l IH]; [reflexivity|]. cbn [map filter].
  destruct (f (g x)); cbn [map]; now rewrite IH.
Qed.

Lemma year_samples_annual (a : nat -> R) (first years i : nat) :
  (first <= i)%nat -> (i <= 1850)%nat -> (1850 < first + years)%nat ->
  year_samples (annual a first years) i =
  annual a i (Nat.min (i + 1) 1850 + 1 - i).
Proof.
  intros Hf Hi Hy. unfold year_samples, annual.
  rewrite filter_map_comm. f_equal.
  apply filter_seq_range; try lia.
  intros y. cbn [fst]. rewrite !Rleb_INR.
  destruct (Nat.leb_spec i y), (Nat.leb_spec y (i + 1)),
           (Nat.leb_spec y 1850), (Nat.leb_spec y (Nat.min (i + 1) 1850));
    cbn [andb]; try reflexivity; lia.
Qed.

(** For a record with one sample per whole year that covers 850 to 1850,
    the value of each year before 1850 is the mean of that year's sample and
    the next year's, since a sample on a bound counts on both sides of it;
    the value of 1850 is its own sample. *)
Theorem evolv2k_annual_pairs (a : nat -> R) (first years : nat) :
  (first <= 850)%nat -> (1850 < first + years)%nat ->
  exists saod,
    evolv2k_saod (annual a first years) = Some saod /\
    (forall k, (k < 1000)%nat ->
       nth_error saod k =
       Some (Fin ((a (850 + k)%nat + a (851 + k)%nat) / 2))) /\
    nth_error saod 1000 = Some (Fin (a 1850%nat)).
Proof.
  intros Hf Hy. eexists. split; [apply evolv2k_saod_closed|].
  assert (Hm : forall rs, rs <> [] ->
            np_nanmean (map snd (map (fun y => (INR y, Fin (a y))) rs)) =
            Fin (Rmean (map a rs))).
  { intros rs Hne. rewrite map_map. cbn [snd].
    rewrite <- (map_map a Fin). unfold np_nanmean.
    rewrite strip_nan_Fin. apply np_mean_Fin.
    destruct rs; [congruence | discriminate]. }
  split.
  - intros k Hk. rewrite nth_error_map, nth_error_seq.
    replace (k <? 1001)%nat with true by (symmetry; apply Nat.ltb_lt; lia).
    cbn [option_map]. f_equal.
    rewrite year_samples_annual by lia.
    replace (Nat.min (850 + k + 1) 1850 + 1 - (850 + k))%nat with 2%nat by lia.
    unfold time_mean, annual. cbn [seq]. rewrite Hm by discriminate.
    f_equal. unfold Rmean, Rsum. cbn [map fold_right List.length INR].
    replace (S (850 + k)) with (851 + k)%nat by lia. field.
  - rewrite nth_error_map, nth_error_seq.
    replace (1000 <? 1001)%nat with true by reflexivity.
    cbn [option_map]. f_equal.
    replace (850 + 1000)%nat with 1850%nat by reflexivity.
    rewrite year_samples_annual by lia.
    replace (Nat.min (1850 + 1) 1850 + 1 - 1850)%nat with 1%nat by lia.
    unfold time_mean, annual. cbn [seq]. rewrite Hm by discriminate.
    f_equal. unfold Rmean, Rsum. cbn [map fold_right List.length INR]. field.
Qed.

Lemma evolv2k_annual_pairs_witness :
  exists saod,
    evolv2k_saod (annual INR 850 1001) = Some saod /\
    (forall k, (k < 1000)%nat ->
       nth_error saod k =
       Some (Fin ((INR (850 + k) + INR (851 + k)) / 2))) /\
    nth_error saod 1000 = Some (Fin (INR 1850)).
Proof.
  apply (evolv2k_annual_pairs INR 850 1001); lia.
Defined.

(** *** From the loading cell to the loop over the models *)

Lemma load_forcings_closed (wm : timeseries) (gm vol aod : list float) :
  load_forcings wm gm vol aod =
  Some {| evolv2k_forcing :=
            get_forcing (map (fun y => time_mean (year_samples wm y))
                             (seq 850 1001));
          gao_2008_forcing :=
            get_forcing (map (fun v => fdiv v (Fin (1.2 * 10 ^ 3))) gm);
          crowley_2000_forcing := vol;
          crowley_2008_forcing := get_forcing aod |}.
Proof. unfold load_forcings. now rewrite evolv2k_saod_closed. Qed.

Lemma np_max_nan (xs : list float) : np_max NaN xs = NaN.
Proof. unfold np_max. induction xs as [|v xs IH]; [reflexivity | exact IH]. Qed.

Lemma refusal_nan_head (xs : list float) : refusal (NaN :: xs) = MissingDataError.
Proof. unfold refusal. now rewrite np_max_nan. Qed.

Lemma refusal_finite (rs : list R) : refusal (map Fin rs) = ValueError.
Proof.
  destruct rs as [|r rs]; [reflexivity|]. cbn [map refusal].
  now rewrite np_max_Fin.
Qed.

(** The forcing from a record without any sample: nan throughout. *)
Lemma empty_record_forcing :
  get_forcing (map (fun y => time_mean (year_samples [] y)) (seq 850 1001)) =
  map (fun _ => NaN) (seq 850 1001).
Proof.
  unfold get_forcing. rewrite map_map. apply map_ext. intros y.
  unfold year_samples, time_mean. cbn [filter map].
  now rewrite np_nanmean_nil.
Qed.

(** The forcing from a record with one sample per whole year: finite
    throughout. *)
Lemma annual_record_forcing (a : nat -> R) (first years : nat) :
  (first <= 850)%nat -> (1850 < first + years)%nat ->
  exists rs,
    get_forcing (map (fun y => time_mean (year_samples (annual a first years) y))
                     (seq 850 1001)) = map Fin rs.
Proof.
  intros Hf Hy.
  exists (map (fun y => -20.7 * (1 + - exp (-1 *
                 Rmean (map a (seq y (Nat.min (y + 1) 1850 + 1 - y))))))
              (seq 850 1001)).
  unfold get_forcing. rewrite !map_map. apply map_ext_in. intros y Hin.
  apply in_seq in Hin. rewrite year_samples_annual by lia.
  unfold time_mean, annual. rewrite map_map. cbn [snd].
  rewrite <- (map_map a Fin). unfold np_nanmean.
  rewrite strip_nan_Fin, np_mean_Fin; [apply get_forcing_at_Fin|].
  destruct (Nat.min (y + 1) 1850 + 1 - y)%nat eqn:E; [lia | discriminate].
Qed.

(** The loading cell always gives an eVolv2k forcing of 1001 values, so a
    model regressed on it must bring at least 1001 points: with fewer, its
    pass ends in a [MissingDataError] when the forcing holds a nan (a year
    without a sample) or a [+inf], and in a [ValueError] otherwise. *)
Theorem evolv2k_models_need_1001_points (wm : timeseries)
    (gm vol aod : list float) (F : forcing_data) :
  load_forcings wm gm vol aod = Some F ->
  List.length (evolv2k_forcing F) = 1001%nat /\
  forall df t st i name ts,
    list_index (model_keys df) i = Ok name ->
    df_column df name = Ok ts ->
    String.eqb name "HadCM3" = false ->
    list_index forcings i = Ok "evolv2k" ->
    (List.length ts < 1001)%nat ->
    process_model F df t st i = Raise (refusal (evolv2k_forcing F)).
Proof.
  rewrite load_forcings_closed.
  assert (Hlen : List.length
            (get_forcing (map (fun y => time_mean (year_samples wm y))
                              (seq 850 1001))) = 1001%nat)
    by (unfold get_forcing; now rewrite !length_map, length_seq).
  revert Hlen.
  generalize (get_forcing (map (fun y => time_mean (year_samples wm y))
                               (seq 850 1001))).
  intros X Hlen H. injection H as <-. cbn [evolv2k_forcing].
  split; [exact Hlen|].
  intros df t st i name ts Hname Hts Hhad Hf Hshort.
  unfold process_model. rewrite Hname. cbn [bind]. rewrite Hts. cbn [bind].
  rewrite Hhad, Hf. cbn [bind String.eqb Ascii.eqb Bool.eqb evolv2k_forcing].
  unfold past1000_branch.
  rewrite (regress_mismatch (firstn 1001 ts) X); [reflexivity|].
  right. rewrite Hlen, length_firstn. lia.
Qed.

Lemma evolv2k_models_need_1001_points_witness :
  (exists F,
     load_forcings [] [] [] [] = Some F /\
     List.length (evolv2k_forcing F) = 1001%nat /\
     process_model F long_df long_ecs initial_state 4 = Raise MissingDataError)
  /\
  (exists F,
     load_forcings (annual (fun _ => 0) 850 1001) [] [] [] = Some F /\
     List.length (evolv2k_forcing F) = 1001%nat /\
     process_model F long_df long_ecs initial_state 4 = Raise ValueError).
Proof.
  assert (Hshort : (List.length sample_ts < 1001)%nat)
    by (unfold sample_ts; rewrite length_positions; lia).
  split.
  - eexists. split; [apply load_forcings_closed|].
    destruct (evolv2k_models_need_1001_points [] [] [] [] _
                (load_forcings_closed [] [] [] [])) as [Hlen Hpass].
    split; [exact Hlen|].
    rewrite (Hpass long_df long_ecs initial_state 4%nat "FGOALS-s2" sample_ts)
      by (reflexivity || exact Hshort).
    cbn [evolv2k_forcing]. rewrite empty_record_forcing.
    change (seq 850 1001) with (850%nat :: seq 851 1000). cbn [map].
    now rewrite refusal_nan_head.
  - eexists. split; [apply load_forcings_closed|].
    destruct (evolv2k_models_need_1001_points
                (annual (fun _ => 0) 850 1001) [] [] [] _
                (load_forcings_closed _ [] [] [])) as [Hlen Hpass].
    split; [exact Hlen|].
    rewrite (Hpass long_df long_ecs initial_state 4%nat "FGOALS-s2" sample_ts)
      by (reflexivity || exact Hshort).
    cbn [evolv2k_forcing].
    destruct (annual_record_forcing (fun _ => 0) 850 1001) as [rs ->];
      [lia | lia |].
    now rewrite refusal_finite.
Defined.
